(** * ATBTCT: archiving Certificate Transparency logs as BitTorrent swarms

    A shallow embedding of the Python sources of ATBTCT
    ([utils.py], [hashbundles.py], [getct.py], [bittorrent.py]) and the
    properties of its specification that can be settled on them.

    Layout of the development:
    - [py]: the Python values and library functions the sources rely on
      (exceptions, [while] loops, [int], [str.format], [re], [os.path.join],
      [sorted], [json]);
    - [utils], [hashbundles], [getct], [bittorrent]: one module per source
      file, every definition named after the function it embeds;
    - [rfc6962]: the Merkle Tree Hash and the audit-path check of RFC 6962,
      written from the RFC's words, to compare the code with;
    - the lemmas and theorems. *)

From Stdlib Require Import ZArith Lia List Bool Ascii String.
From Stdlib.Strings Require Import Byte.
From stdpp Require Import base numbers list strings gmap sorting pretty.
From Equations Require Import Equations.
Import ListNotations.
Open Scope Z_scope.

(** * Python values and library functions *)

Module py.

(** [bytes] objects. *)
Definition bytes := list byte.

(** The exceptions that the modelled code raises or lets through.
    [Exception msg] is [raise Exception(msg)]; [ValueError] also stands for
    its subclass [json.JSONDecodeError], [OSError] for [FileNotFoundError]. *)
Inductive exn :=
| Exception (msg : string)
| ValueError
| OSError
| IndexError
| KeyError
| TypeError
| InvalidSignature.

(** The outcome of running a piece of code with a bounded number of loop
    iterations: a value, an exception, or [OutOfFuel] when a [while] loop was
    still running after [fuel] tests of its condition. *)
Inductive outcome (A : Type) :=
| Done (a : A)
| Raise (e : exn)
| OutOfFuel.
Arguments Done {A} a.
Arguments Raise {A} e.
Arguments OutOfFuel {A}.

(** Sequencing: an exception, or running out of fuel, ends the run. It is
    written [x ← c; k] below. *)
#[global] Instance outcome_bind : MBind outcome := fun A B k c =>
  match c with
  | Done a => k a
  | Raise e => Raise e
  | OutOfFuel => OutOfFuel
  end.

(** [for x in l: acc = f(acc, x)] where the body may raise. *)
Fixpoint for_each {A S : Type} (l : list A) (body : S -> A -> outcome S) (s : S) : outcome S :=
  match l with
  | [] => Done s
  | x :: rest => s' ← body s x; for_each rest body s'
  end.

(** [while cond(s): s = body(s)], run for at most [fuel] tests of [cond];
    [None] when the loop is still running after that many. *)
Fixpoint while {S : Type} (fuel : nat) (cond : S -> bool) (body : S -> S) (s : S) : option S :=
  match fuel with
  | O => None
  | Datatypes.S f => if cond s then while f cond body (body s) else Some s
  end.

(** The functions of the Python library that the sources call and that are
    kept abstract: the digests of [hashlib] and [base64.b64encode]. *)
Class Pylib := {
  sha256 : bytes -> bytes;
  sha1 : bytes -> bytes;
  b64encode : bytes -> bytes
}.

(** ** Strings *)

Definition is_digit (c : ascii) : bool :=
  (48 <=? nat_of_ascii c)%nat && (nat_of_ascii c <=? 57)%nat.

Definition digit_value (c : ascii) : Z := Z.of_nat (nat_of_ascii c) - 48.

(** The value of a string of decimal digits, most significant first. *)
Definition int_of_digits (s : string) : Z :=
  fold_left (fun acc c => 10 * acc + digit_value c) (list_ascii_of_string s) 0.

(** The white space that [int] skips around a number, for code points below
    256: the characters 9 to 13, the space, and the code points 133 and
    160. *)
Definition is_space (c : ascii) : bool :=
  let n := nat_of_ascii c in
  ((9 <=? n) && (n <=? 13) || (n =? 32) || (n =? 133) || (n =? 160))%nat.

Fixpoint skip_spaces (l : list ascii) : list ascii :=
  match l with
  | c :: rest => if is_space c then skip_spaces rest else l
  | [] => []
  end.

(** The digits of a number in which single underscores may stand between
    two digits; [after_digit] tells that the character before is a digit.
    [None] for an empty number, and for an underscore that does not stand
    between two digits. *)
Fixpoint grouped_digits (after_digit : bool) (l : list ascii) : option (list ascii) :=
  match l with
  | [] => if after_digit then Some [] else None
  | c :: rest =>
      if is_digit c then option_map (cons c) (grouped_digits true rest)
      else if Ascii.eqb c "_" && after_digit then grouped_digits false rest
      else None
  end.

(** [sys.int_info.default_max_str_digits]: [int] refuses a number of more
    digits. *)
Definition max_str_digits : nat := 4300.

(** [int(s)] for a [str] of code points below 256: white space around the
    number is skipped, then comes an optional sign and the decimal digits,
    with single underscores between digits; everything else is a
    [ValueError]. *)
Definition py_int (s : string) : outcome Z :=
  let stripped := rev (skip_spaces (rev (skip_spaces (list_ascii_of_string s)))) in
  let number (d : list ascii) : outcome Z :=
    match grouped_digits false d with
    | Some digits =>
        if (max_str_digits <? length digits)%nat then Raise ValueError
        else Done (int_of_digits (string_of_list_ascii digits))
    | None => Raise ValueError
    end in
  match stripped with
  | "-"%char :: d => n ← number d; Done (- n)
  | "+"%char :: d => number d
  | d => number d
  end.

Fixpoint zeros (n : nat) : string :=
  match n with
  | O => EmptyString
  | Datatypes.S m => String "0" (zeros m)
  end.

(** ['{:0w}'.format(n)]: the decimal digits of [n], padded with zeros after
    the sign up to [w] characters. *)
Definition format_0 (w : nat) (n : Z) : string :=
  let digits := pretty (Z.to_N (Z.abs n)) in
  if n <? 0
  then String "-" (zeros (w - 1 - String.length digits) ++ digits)
  else zeros (w - String.length digits) ++ digits.

(** [s.split(sep)] for a one-character separator. *)
Fixpoint split_go (sep : ascii) (cur : string) (s : string) : list string :=
  match s with
  | EmptyString => [String.rev cur]
  | String c rest =>
      if Ascii.eqb c sep then String.rev cur :: split_go sep EmptyString rest
      else split_go sep (String c cur) rest
  end.

Definition split (sep : ascii) (s : string) : list string := split_go sep EmptyString s.

(** [sep.join(l)]. *)
Fixpoint str_join (sep : string) (l : list string) : string :=
  match l with
  | [] => EmptyString
  | [x] => x
  | x :: rest => x ++ sep ++ str_join sep rest
  end.

Definition os_sep : ascii := "/"%char.

Definition ends_with_sep (s : string) : bool :=
  match last (list_ascii_of_string s) with
  | Some c => Ascii.eqb c os_sep
  | None => false
  end.

(** [os.path.join(a, b)] of [posixpath]. *)
Definition path_join (a b : string) : string :=
  match b with
  | String c _ =>
      if Ascii.eqb c os_sep then b
      else if String.eqb a EmptyString || ends_with_sep a then a ++ b
      else a ++ String os_sep b
  | EmptyString =>
      if String.eqb a EmptyString || ends_with_sep a then a else a ++ String os_sep EmptyString
  end.

(** [sorted(l)] on strings: the order of [str] is the lexicographic order on
    the characters. *)
Definition sorted (l : list string) : list string := merge_sort String.le l.

(** ** Regular expressions

    Every pattern of the sources is a fixed sequence of one-character atoms
    between [^] and [$]. *)
Inductive atom :=
| Digit                (* [0-9] *)
| Lit (c : ascii)      (* the character itself *)
| Dot.                 (* . : any character but a newline *)

Definition newline : ascii := ascii_of_nat 10.

Definition atom_match (a : atom) (c : ascii) : bool :=
  match a with
  | Digit => is_digit c
  | Lit d => Ascii.eqb c d
  | Dot => negb (Ascii.eqb c newline)
  end.

(** Matching the atoms at the start of the subject; the rest of the subject
    is returned. *)
Fixpoint match_atoms (p : list atom) (s : string) : option string :=
  match p with
  | [] => Some s
  | a :: p' =>
      match s with
      | String c rest => if atom_match a c then match_atoms p' rest else None
      | EmptyString => None
      end
  end.

(** [re.compile('^' + p + '$').match(s)] is not [None]: [$] matches at the
    end of the subject and just before a newline that ends it. *)
Definition re_match (p : list atom) (s : string) : bool :=
  match match_atoms p s with
  | Some rest => String.eqb rest EmptyString || String.eqb rest (String newline EmptyString)
  | None => false
  end.

Definition lits (s : string) : list atom := map Lit (list_ascii_of_string s).

End py.
Export py.

(** * The disk

    What the sources read from and write to the file system, one view per
    kind of access:
    - [listdir]: the names [os.listdir(path)] returns, for the paths that are
      directories;
    - [bundle_entries]: for the path of a bundle file, the [leaf_input] of
      its entries, in order, after [gzip], JSON and base64 decoding;
    - [info_files]: the [pkg_hash] and [merkle_proof] held by an info file,
      after JSON and base64 decoding;
    - [file_bytes]: the raw content of a file. *)

Record info_file := {
  pkg_hash : bytes;
  merkle_proof : list bytes
}.

Record filesystem := {
  listdir : gmap string (list string);
  bundle_entries : gmap string (list bytes);
  info_files : gmap string info_file;
  file_bytes : gmap string bytes
}.

Definition os_listdir (fs : filesystem) (path : string) : outcome (list string) :=
  match listdir fs !! path with
  | Some names => Done names
  | None => Raise OSError
  end.

(** * utils.py *)

Module utils.

(** [bundle_name_re = re.compile('^[0-9]{10}-[0-9]{10}.json.gz$')]; the two
    dots of the pattern are not escaped. *)
Definition bundle_name_re : list atom :=
  replicate 10 Digit ++ [Lit "-"] ++ replicate 10 Digit
  ++ [Dot] ++ lits "json" ++ [Dot] ++ lits "gz".

(** The groups of [bundle_name_extract_re], on a name that matches. *)
Definition bundle_group1 (name : string) : string := String.substring 0 10 name.
Definition bundle_group2 (name : string) : string := String.substring 11 10 name.

Definition build_bundle_filename (start end_ : Z) : string :=
  format_0 10 start ++ "-" ++ format_0 10 end_ ++ ".json.gz".

Definition build_package_name (i : Z) : string := format_0 3 i.

(** [build_package_dir], for sizes whose product is not 0: Python raises
    [ZeroDivisionError] for a product of 0, and what is proved of this
    function takes sizes other than 0. *)
Definition build_package_dir (pkg_root_dir : string) (index package_size bundle_size : Z) : string :=
  let pkg_num := index / (package_size * bundle_size) in
  path_join pkg_root_dir (build_package_name pkg_num).

Definition build_sth_name (tree_size : Z) : string :=
  "sth-" ++ format_0 10 tree_size ++ ".json".

Definition build_info_file_name (pkg_num tree_size : Z) : string :=
  format_0 3 pkg_num ++ "-" ++ format_0 10 tree_size ++ ".info".

(** The filtering loop of [get_bundle_list] over the sorted names: the name
    at [i] is skipped when the name at [i+1] has the same first group and an
    end index below [tree_size], and appended otherwise. *)
Fixpoint filter_bundle_list (tree_size : Z) (bundle_list : list string) : list string :=
  match bundle_list with
  | [] => []
  | cur :: rest =>
      let skip :=
        match rest with
        | nxt :: _ =>
            String.eqb (bundle_group1 cur) (bundle_group1 nxt)
            && (int_of_digits (bundle_group2 nxt) <? tree_size)
        | [] => false
        end in
      if skip then filter_bundle_list tree_size rest
      else cur :: filter_bundle_list tree_size rest
  end.

Definition get_bundle_list (fs : filesystem) (path : string) (tree_size : Z) : outcome (list string) :=
  l ← os_listdir fs path;
  let bundle_list := sorted (List.filter (re_match bundle_name_re) l) in
  Done (filter_bundle_list tree_size bundle_list).

End utils.

(** * hashbundles.py *)

Module hashbundles.
Import utils.

(** [hash_name_re = re.compile('^[0-9]{3}-[0-9]{10}.info$')]. *)
Definition hash_name_re : list atom :=
  replicate 3 Digit ++ [Lit "-"] ++ replicate 10 Digit ++ [Dot] ++ lits "info".

(** The groups of [hash_name_extract_re], on a name that matches. *)
Definition hash_group1 (name : string) : string := String.substring 0 3 name.
Definition hash_group2 (name : string) : string := String.substring 4 10 name.

(** [h = hashlib.sha256(); h.update(b'\x00'); h.update(leaf); h.digest()]. *)
Definition leaf_hash `{Pylib} (leaf : bytes) : bytes := sha256 ([x00] ++ leaf).

(** [h = hashlib.sha256(); h.update(b'\x01'); h.update(l); h.update(r);
    h.digest()]. *)
Definition node_hash `{Pylib} (l r : bytes) : bytes := sha256 ([x01] ++ l ++ r).

Definition get_leaf_hashes `{Pylib} (fs : filesystem) (bundle_fn : string) : outcome (list bytes) :=
  match bundle_entries fs !! bundle_fn with
  | Some entries => Done (map leaf_hash entries)
  | None => Raise OSError
  end.

(** One run of the body of the [while] loop of [get_partial_tree_hash]: the
    elements of [cur] are hashed two by two, in order, into [new], and the
    last element of an odd [cur] is carried over unhashed. *)
Fixpoint reduce_level `{Pylib} (cur : list bytes) : list bytes :=
  match cur with
  | a :: b :: rest => node_hash a b :: reduce_level rest
  | [a] => [a]
  | [] => []
  end.

Definition get_partial_tree_hash `{Pylib} (fuel : nat) (entry_hashes : list bytes) : outcome bytes :=
  match while fuel (fun cur => negb (length cur =? 1)%nat) reduce_level entry_hashes with
  | None => OutOfFuel
  | Some cur =>
      match cur !! 0%nat with
      | Some h => Done h
      | None => Raise IndexError
      end
  end.

(** [open(file_path, 'wb')] creates the file: its name joins the listing of
    the directory, which has to exist. *)
Definition add_name (name : string) (names : list string) : list string :=
  if bool_decide (name ∈ names) then names else names ++ [name].

Definition write_info (fs : filesystem) (dir filename : string) (info : info_file) : outcome filesystem :=
  names ← os_listdir fs dir;
  Done {| listdir := <[dir := add_name filename names]> (listdir fs);
          bundle_entries := bundle_entries fs;
          info_files := <[path_join dir filename := info]> (info_files fs);
          file_bytes := file_bytes fs |}.

Definition write_tree_hash (fs : filesystem) (pkg_root_dir : string) (pkg_num tree_size : Z)
    (root_hash : bytes) : outcome filesystem :=
  let filename := build_info_file_name pkg_num tree_size in
  write_info fs pkg_root_dir filename {| pkg_hash := root_hash; merkle_proof := [] |}.

(** The filtering loop of [get_pkg_hash_list] over the sorted names of the
    info files. *)
Fixpoint filter_info_file_list (tree_size : Z) (info_file_list : list string) : list string :=
  match info_file_list with
  | [] => []
  | cur :: rest =>
      let skip :=
        match rest with
        | nxt :: _ =>
            String.eqb (hash_group1 cur) (hash_group1 nxt)
            && (int_of_digits (hash_group2 nxt) <=? tree_size)
        | [] => false
        end in
      if skip then filter_info_file_list tree_size rest
      else if int_of_digits (hash_group2 cur) <=? tree_size
      then cur :: filter_info_file_list tree_size rest
      else filter_info_file_list tree_size rest
  end.

Definition read_info (fs : filesystem) (file_path : string) : outcome info_file :=
  match info_files fs !! file_path with
  | Some o => Done o
  | None => Raise OSError
  end.

Definition get_pkg_hash_list (fs : filesystem) (pkg_root_dir : string) (tree_size : Z) : outcome (list bytes) :=
  l ← os_listdir fs pkg_root_dir;
  let info_file_list := sorted (List.filter (re_match hash_name_re) l) in
  let filtered_info_file_lst := filter_info_file_list tree_size info_file_list in
  for_each filtered_info_file_lst
    (fun hash_list hash_file =>
       o ← read_info fs (path_join pkg_root_dir hash_file);
       Done (hash_list ++ [pkg_hash o]))
    [].

Definition write_proof (fs : filesystem) (pkg_root_dir : string) (tree_size pkg_num : Z)
    (proof_list : list bytes) : outcome filesystem :=
  let filename := build_info_file_name pkg_num tree_size in
  o ← read_info fs (path_join pkg_root_dir filename);
  write_info fs pkg_root_dir filename {| pkg_hash := pkg_hash o; merkle_proof := proof_list |}.

(** The variables of the [while] loop of [compute_proofs]. *)
Record proof_state := {
  mask : Z;
  mask_canceler : Z;
  cur : list (Z * bytes);
  proofs : gmap Z (list bytes)
}.

(** [for pkg_num in proofs.keys(): ...] before two elements are hashed: the
    packages that agree with the left element under the mask note the
    left or the right element, by their bit [mask_canceler]. *)
Definition note_pair (mask mask_canceler : Z) (left right : Z * bytes)
    (proofs : gmap Z (list bytes)) : gmap Z (list bytes) :=
  map_imap (fun pkg_num proof =>
    Some (if Z.land pkg_num mask =? Z.land left.1 mask
          then if negb (Z.land pkg_num mask_canceler =? 0)
               then proof ++ [left.2]
               else proof ++ [right.2]
          else proof)) proofs.

(** The [for i in range(0, max_loop, 2)] loop and the carry of the last
    element of an odd list: the new list and the proofs after it. *)
Fixpoint hash_pairs `{Pylib} (mask mask_canceler : Z) (cur : list (Z * bytes))
    (proofs : gmap Z (list bytes)) : list (Z * bytes) * gmap Z (list bytes) :=
  match cur with
  | a :: b :: rest =>
      let proofs1 := note_pair mask mask_canceler a b proofs in
      let dgst := node_hash a.2 b.2 in
      let (new, proofs2) := hash_pairs mask mask_canceler rest proofs1 in
      ((Z.land a.1 mask, dgst) :: new, proofs2)
  | [a] => ([a], proofs)
  | [] => ([], proofs)
  end.

Definition proof_step `{Pylib} (s : proof_state) : proof_state :=
  let mask1 := Z.lxor (mask s) (mask_canceler s) in
  let (new, proofs1) := hash_pairs mask1 (mask_canceler s) (cur s) (proofs s) in
  {| mask := mask1;
     mask_canceler := Z.shiftl (mask_canceler s) 1;
     cur := new;
     proofs := proofs1 |}.

(** [math.ceil(math.log(n) / math.log(2))]: the floating-point quotient
    rounds to the exact value for every [n] from 1 to 200000, far above the
    package numbers that a three-digit info file name can carry. *)
Definition ceil_log2 (n : Z) : Z := Z.log2_up n.

Definition initial_mask (last_package : Z) : Z :=
  if 0 <? last_package then Z.shiftl 1 (ceil_log2 last_package) - 1 else 1.

(** [range(a, b)]. *)
Definition range (a b : Z) : list Z := seqZ a (b - a).

(** [compute_proofs]: the disk after the info files are updated, and the
    value returned. The disk left behind by a run that raises is not
    tracked. *)
Definition compute_proofs `{Pylib} (fuel : nat) (fs : filesystem) (pkg_root_dir : string)
    (tree_size start_package last_package : Z) : outcome (filesystem * bytes) :=
  hash_list ← get_pkg_hash_list fs pkg_root_dir tree_size;
  let numbered_hash_list := imap (fun i h => (Z.of_nat i, h)) hash_list in
  let proofs0 : gmap Z (list bytes) :=
    list_to_map (map (fun i => (i, [])) (range start_package (last_package + 1))) in
  let s0 := {| mask := initial_mask last_package; mask_canceler := 1;
               cur := numbered_hash_list; proofs := proofs0 |} in
  match while fuel (fun s => (1 <? length (cur s))%nat) proof_step s0 with
  | None => OutOfFuel
  | Some s =>
      fs' ← for_each (range start_package (last_package + 1))
              (fun fs1 pkg_num =>
                 write_proof fs1 pkg_root_dir tree_size pkg_num (default [] (proofs s !! pkg_num)))
              fs;
      match cur s !! 0%nat with
      | Some root => Done (fs', b64encode root.2)
      | None => Raise IndexError
      end
  end.

(** [compute_package]: the disk after the info file of the package is
    written. *)
Definition compute_package `{Pylib} (fuel : nat) (fs : filesystem)
    (pkg_num : Z) (log_dir : string) (tree_size : Z) : outcome filesystem :=
  let package_dir := path_join log_dir (build_package_name pkg_num) in
  bundle_list ← get_bundle_list fs package_dir tree_size;
  partial_tree_hash_list ←
    for_each bundle_list
      (fun acc bndl =>
         let bndl_path := path_join package_dir bndl in
         leaf_hashes ← get_leaf_hashes fs bndl_path;
         h ← get_partial_tree_hash fuel leaf_hashes;
         Done (acc ++ [h]))
      [];
  tree_hash ← get_partial_tree_hash fuel partial_tree_hash_list;
  write_tree_hash fs log_dir pkg_num tree_size tree_hash.

End hashbundles.

(** * The json module of the Python library

    JSON values as Python objects, [json.dumps] with its default
    separators and [ensure_ascii], and [json.loads] on ASCII text. Numbers
    with a fraction or an exponent, escapes above [\u00ff] and non-ASCII
    text are outside the model: [loads] answers [None] for them, as it does
    for text that is not JSON. A character of a string value is the code
    point of that number, from 0 to 255. *)

Module json.

#[warnings="-register-all"]
Inductive value :=
| JNull
| JBool (b : bool)
| JInt (n : Z)
| JStr (s : string)
| JList (l : list value)
| JDict (d : list (string * value)).

(** [d[k] = v] on a [dict], which keeps the order of first insertion. *)
Fixpoint dict_set (k : string) (v : value) (d : list (string * value)) : list (string * value) :=
  match d with
  | [] => [(k, v)]
  | (k', v') :: rest =>
      if String.eqb k k' then (k, v) :: rest else (k', v') :: dict_set k v rest
  end.

Fixpoint dict_get (k : string) (d : list (string * value)) : option value :=
  match d with
  | [] => None
  | (k', v) :: rest => if String.eqb k k' then Some v else dict_get k rest
  end.

(** [o[k]] on a parsed object. *)
Definition getitem (o : value) (k : string) : outcome value :=
  match o with
  | JDict d =>
      match dict_get k d with
      | Some v => Done v
      | None => Raise KeyError
      end
  | _ => Raise TypeError
  end.

Definition hex_digit (n : nat) : ascii :=
  if (n <? 10)%nat then ascii_of_nat (48 + n) else ascii_of_nat (87 + n).

Definition quote_char : ascii := ascii_of_nat 34.
Definition backslash : ascii := ascii_of_nat 92.

(** The escape of one character in [json.dumps]. *)
Definition escape_char (c : ascii) : string :=
  let n := nat_of_ascii c in
  if (n =? 34)%nat then String backslash (String quote_char EmptyString)
  else if (n =? 92)%nat then String backslash (String backslash EmptyString)
  else if (n =? 10)%nat then String backslash "n"
  else if (n =? 13)%nat then String backslash "r"
  else if (n =? 9)%nat then String backslash "t"
  else if (n =? 8)%nat then String backslash "b"
  else if (n =? 12)%nat then String backslash "f"
  else if (32 <=? n)%nat && (n <=? 126)%nat then String c EmptyString
  else String backslash
         (String "u" (String "0" (String "0"
            (String (hex_digit (n / 16)) (String (hex_digit (n mod 16)) EmptyString))))).

Fixpoint escape (s : string) : string :=
  match s with
  | EmptyString => EmptyString
  | String c rest => escape_char c ++ escape rest
  end.

Definition dumps_str (s : string) : string :=
  String quote_char (escape s ++ String quote_char EmptyString).

Definition dumps_int (n : Z) : string :=
  if n <? 0 then String "-" (pretty (Z.to_N (- n))) else pretty (Z.to_N n).

(** [json.dumps(v)]. *)
Fixpoint dumps (v : value) : string :=
  match v with
  | JNull => "null"
  | JBool true => "true"
  | JBool false => "false"
  | JInt n => dumps_int n
  | JStr s => dumps_str s
  | JList l => "[" ++ str_join ", " (map dumps l) ++ "]"
  | JDict d =>
      "{" ++ str_join ", "
               (map (fun kv : string * value => (dumps_str kv.1 ++ ": " ++ dumps kv.2)%string) d) ++ "}"
  end.

Definition is_ws (c : ascii) : bool :=
  let n := nat_of_ascii c in
  (n =? 32)%nat || (n =? 9)%nat || (n =? 10)%nat || (n =? 13)%nat.

Fixpoint skip_ws (s : string) : string :=
  match s with
  | String c rest => if is_ws c then skip_ws rest else s
  | EmptyString => s
  end.

Definition hex_value (c : ascii) : option nat :=
  let n := nat_of_ascii c in
  if (48 <=? n)%nat && (n <=? 57)%nat then Some (n - 48)%nat
  else if (97 <=? n)%nat && (n <=? 102)%nat then Some (n - 87)%nat
  else if (65 <=? n)%nat && (n <=? 70)%nat then Some (n - 55)%nat
  else None.

(** The character that follows a backslash, for the one-letter escapes. *)
Definition simple_escape (e : ascii) : option ascii :=
  let n := nat_of_ascii e in
  if (n =? 34)%nat then Some quote_char
  else if (n =? 92)%nat then Some backslash
  else if (n =? 47)%nat then Some "/"%char
  else if (n =? 110)%nat then Some (ascii_of_nat 10)
  else if (n =? 114)%nat then Some (ascii_of_nat 13)
  else if (n =? 116)%nat then Some (ascii_of_nat 9)
  else if (n =? 98)%nat then Some (ascii_of_nat 8)
  else if (n =? 102)%nat then Some (ascii_of_nat 12)
  else None.

(** The content of a string after its opening quote, up to the closing
    quote: the characters read so far are in [acc], last first. *)
Fixpoint scan_string (s : string) (acc : string) : option (string * string) :=
  match s with
  | EmptyString => None
  | String c rest =>
      let n := nat_of_ascii c in
      if (n =? 34)%nat then Some (String.rev acc, rest)
      else if (n =? 92)%nat then
        match rest with
        | String e rest2 =>
            match simple_escape e with
            | Some ch => scan_string rest2 (String ch acc)
            | None =>
                if (nat_of_ascii e =? 117)%nat then
                  match rest2 with
                  | String h1 (String h2 (String h3 (String h4 rest3))) =>
                      match hex_value h1, hex_value h2, hex_value h3, hex_value h4 with
                      | Some 0%nat, Some 0%nat, Some a, Some b =>
                          scan_string rest3 (String (ascii_of_nat (16 * a + b)) acc)
                      | _, _, _, _ => None
                      end
                  | _ => None
                  end
                else None
            end
        | EmptyString => None
        end
      else if (n <? 32)%nat || (127 <? n)%nat then None
      else scan_string rest (String c acc)
  end.

Fixpoint span_digits (s : string) (acc : string) : string * string :=
  match s with
  | String c rest => if is_digit c then span_digits rest (String c acc) else (String.rev acc, s)
  | EmptyString => (String.rev acc, s)
  end.

(** What may follow an integer: not a fraction and not an exponent. *)
Definition no_fraction (rest : string) : bool :=
  match rest with
  | String d _ => negb (Ascii.eqb d "." || Ascii.eqb d "e" || Ascii.eqb d "E")
  | EmptyString => true
  end.

(** An integer without sign: either a single 0 or a run of digits that does
    not start with 0; it must not be followed by a fraction or an
    exponent. *)
Definition scan_unsigned (u : string) : option (Z * string) :=
  match u with
  | String c rest =>
      if Ascii.eqb c "0" then
        if no_fraction rest then Some (0, rest) else None
      else if is_digit c then
        let '(ds, rest1) := span_digits u EmptyString in
        if no_fraction rest1 then Some (int_of_digits ds, rest1) else None
      else None
  | EmptyString => None
  end.

(** An integer: an optional minus sign, then an integer without sign. *)
Definition scan_int (s : string) : option (Z * string) :=
  match s with
  | String c u =>
      if Ascii.eqb c "-" then
        match scan_unsigned u with
        | Some (n, rest) => Some (- n, rest)
        | None => None
        end
      else scan_unsigned s
  | EmptyString => None
  end.

(** [s] without the prefix [lit], when it starts with it. *)
Fixpoint strip_prefix (lit s : string) : option string :=
  match lit with
  | EmptyString => Some s
  | String c lit' =>
      match s with
      | String d s' => if Ascii.eqb c d then strip_prefix lit' s' else None
      | EmptyString => None
      end
  end.

Definition expect (lit : string) (v : value) (s : string) : option (value * string) :=
  match strip_prefix lit s with
  | Some rest => Some (v, rest)
  | None => None
  end.

(** A value at the start of [s], after white space; then the members of an
    object, from the quote of a key on, and the elements of an array. *)
Fixpoint scan_value (fuel : nat) (s : string) : option (value * string) :=
  match fuel with
  | O => None
  | Datatypes.S f =>
      match skip_ws s with
      | EmptyString => None
      | String c rest =>
          if Ascii.eqb c quote_char then
            match scan_string rest EmptyString with
            | Some (str, rest1) => Some (JStr str, rest1)
            | None => None
            end
          else if Ascii.eqb c "{" then
            match skip_ws rest with
            | String c1 rest1 =>
                if Ascii.eqb c1 "}" then Some (JDict [], rest1)
                else
                  match scan_members f (String c1 rest1) [] with
                  | Some (d, rest2) => Some (JDict d, rest2)
                  | None => None
                  end
            | EmptyString => None
            end
          else if Ascii.eqb c "[" then
            match skip_ws rest with
            | String c1 rest1 =>
                if Ascii.eqb c1 "]" then Some (JList [], rest1)
                else
                  match scan_elements f (String c1 rest1) [] with
                  | Some (l, rest2) => Some (JList l, rest2)
                  | None => None
                  end
            | EmptyString => None
            end
          else if Ascii.eqb c "n" then expect "null" JNull (String c rest)
          else if Ascii.eqb c "t" then expect "true" (JBool true) (String c rest)
          else if Ascii.eqb c "f" then expect "false" (JBool false) (String c rest)
          else
            match scan_int (String c rest) with
            | Some (z, rest1) => Some (JInt z, rest1)
            | None => None
            end
      end
  end
with scan_members (fuel : nat) (s : string) (d : list (string * value))
    : option (list (string * value) * string) :=
  match fuel with
  | O => None
  | Datatypes.S f =>
      match s with
      | String c rest =>
          if Ascii.eqb c quote_char then
            match scan_string rest EmptyString with
            | Some (k, rest1) =>
                match skip_ws rest1 with
                | String c2 rest2 =>
                    if Ascii.eqb c2 ":" then
                      match scan_value f rest2 with
                      | Some (v, rest3) =>
                          let d1 := dict_set k v d in
                          match skip_ws rest3 with
                          | String c4 rest4 =>
                              if Ascii.eqb c4 "}" then Some (d1, rest4)
                              else if Ascii.eqb c4 "," then scan_members f (skip_ws rest4) d1
                              else None
                          | EmptyString => None
                          end
                      | None => None
                      end
                    else None
                | EmptyString => None
                end
            | None => None
            end
          else None
      | EmptyString => None
      end
  end
with scan_elements (fuel : nat) (s : string) (l : list value) : option (list value * string) :=
  match fuel with
  | O => None
  | Datatypes.S f =>
      match scan_value f s with
      | Some (v, rest1) =>
          match skip_ws rest1 with
          | String c2 rest2 =>
              if Ascii.eqb c2 "]" then Some (l ++ [v], rest2)
              else if Ascii.eqb c2 "," then scan_elements f rest2 (l ++ [v])
              else None
          | EmptyString => None
          end
      | None => None
      end
  end.

(** [json.loads(s)]: one value, with nothing but white space after it. *)
Definition loads (s : string) : option value :=
  match scan_value (2 + String.length s) s with
  | Some (v, rest) =>
      match skip_ws rest with
      | EmptyString => Some v
      | _ => None
      end
  | None => None
  end.

(** The number of values in a value, itself included. *)
Fixpoint value_size (v : value) : nat :=
  match v with
  | JList l => Datatypes.S (list_sum (map (fun x => Datatypes.S (value_size x)) l))
  | JDict d => Datatypes.S (list_sum (map (fun kv : string * value => Datatypes.S (value_size kv.2)) d))
  | _ => 1
  end.

(** The objects that [loads] builds: no key occurs twice in a [dict]. *)
Fixpoint well_formed (v : value) : Prop :=
  match v with
  | JList l => fold_right (fun x P => well_formed x /\ P) True l
  | JDict d =>
      NoDup (map fst d)
      /\ fold_right (fun (kv : string * value) P => well_formed kv.2 /\ P) True d
  | _ => True
  end.

(** ** Notions used to reason about [loads] *)

(** A string of decimal digits. *)
Definition all_digits (s : string) : Prop :=
  Forall (fun c => is_digit c = true) (list_ascii_of_string s).

(** The value of the digits of [s], read after the value [acc]. *)
Definition value_from (acc : Z) (s : string) : Z :=
  fold_left (fun acc c => 10 * acc + digit_value c) (list_ascii_of_string s) acc.

(** What may follow an integer in a text: no digit, no fraction and no
    exponent. *)
Definition int_end (rest : string) : bool :=
  match rest with
  | String d _ => negb (is_digit d) && no_fraction rest
  | EmptyString => true
  end.

(** The characters that the text of a value written by [dumps] starts
    with. *)
Definition value_start (c : ascii) : bool :=
  is_digit c || Ascii.eqb c "-" || Ascii.eqb c quote_char || Ascii.eqb c "["
  || Ascii.eqb c "{" || Ascii.eqb c "n" || Ascii.eqb c "t" || Ascii.eqb c "f".

(** The text that [dumps] writes for [v], followed by [rest], is read back
    as [v], and [rest] is left. *)
Definition round_trips (v : value) : Prop :=
  forall (fuel : nat) (rest : string),
    (value_size v < fuel)%nat -> int_end rest = true ->
    scan_value fuel (dumps v ++ rest) = Some (v, rest).

Definition element_sizes (l : list value) : nat :=
  list_sum (map (fun x => Datatypes.S (value_size x)) l).

(** The text of a member of an object. *)
Definition dumps_member (kv : string * value) : string :=
  (dumps_str kv.1 ++ ": " ++ dumps kv.2)%string.

Definition member_sizes (d : list (string * value)) : nat :=
  list_sum (map (fun kv : string * value => Datatypes.S (value_size kv.2)) d).

End json.

(** * getct.py *)

Module getct.
Import utils.

(** [package_name_re = re.compile('^[0-9]{3}$')]. *)
Definition package_name_re : list atom := replicate 3 Digit.

Definition discover_start_index (fs : filesystem) (package_root_dir : string)
    (package_size bundle_size : Z) : outcome Z :=
  match listdir fs !! package_root_dir with
  | None => Done 0                      (* except OSError: return 0 *)
  | Some names =>
      let package_list := sorted (List.filter (re_match package_name_re) names) in
      match last package_list with
      | None => Done 0                  (* len(package_list) == 0 *)
      | Some last_package =>
          let last_package_dir := path_join package_root_dir last_package in
          names2 ← os_listdir fs last_package_dir;
          let bundle_list := sorted (List.filter (re_match bundle_name_re) names2) in
          match last bundle_list with
          | None =>
              (* int(package_root_dir.split(os.sep)[-1]) * package_size * bundle_size *)
              n ← py_int (default EmptyString (last (split os_sep package_root_dir)));
              Done (n * package_size * bundle_size)
          | Some last_bundle =>
              let bundle_start := int_of_digits (bundle_group1 last_bundle) in
              let bundle_end := int_of_digits (bundle_group2 last_bundle) in
              if bundle_end - bundle_start + 1 =? bundle_size
              then Done (bundle_end + 1)
              else Done bundle_start
          end
      end
  end.

(** ** Runs that talk to the log and write to the disk

    What [get_ct] does to the outside is recorded as a trace of events, in
    order. *)
Inductive event :=
| Mkdir (path : string)                    (* os.mkdir(path) *)
| HttpGet (url cmd : string)               (* a GET of command cmd to the log at url *)
| ReadFile (path : string)                 (* open(path, 'rb') and read *)
| WriteFile (path : string) (content : string).   (* open(path, 'wb') and write *)

Definition io (A : Type) : Type := list event * outcome A.

Definition io_ret {A : Type} (a : A) : io A := ([], Done a).
Definition io_raise {A : Type} (e : exn) : io A := ([], Raise e).
Definition io_emit (ev : event) : io unit := ([ev], Done tt).

Definition io_bind {A B : Type} (c : io A) (k : A -> io B) : io B :=
  match c with
  | (tr, Done a) => let (tr', r) := k a in (tr ++ tr', r)
  | (tr, Raise e) => (tr, Raise e)
  | (tr, OutOfFuel) => (tr, OutOfFuel)
  end.

Definition io_lift {A : Type} (c : outcome A) : io A := ([], c).

(** The parts of a run that are decided outside the sources:
    - [sth_response]: the status and the body of the answer of the log to
      [get-sth], or the exception of the connection;
    - [verify_sth]: [verify_sth(log_list_file, url, obj)], which looks the log
      up in the log list and checks the signature of the tree head with the
      cryptography library: it returns, or raises;
    - [fetch_entries]: the end of [get_ct] after the tree size is compared
      with the start index (the probe of the step size and the loop that
      fetches the entries and writes the bundles), with the events it
      produces, for the directory, the log, the start index, the step size,
      the package size, the bundle size and the tree size. *)
Record world := {
  sth_response : outcome (Z * string);
  verify_sth : string -> string -> json.value -> outcome unit;
  fetch_entries : string -> string -> Z -> Z -> Z -> Z -> Z -> io unit
}.

Definition get_sth (w : world) (url : string) : io json.value :=
  io_bind (io_emit (HttpGet url "get-sth")) (fun _ =>
  io_bind (io_lift (sth_response w)) (fun r =>
  let '(status, s) := r in
  if negb (status =? 200) then io_raise (Exception "Could not fetch STH")
  else match json.loads s with
       | Some o => io_ret o
       | None => io_raise ValueError
       end)).

(** [sth['tree_size']], used as an integer. *)
Definition tree_size_of (sth : json.value) : outcome Z :=
  v ← json.getitem sth "tree_size";
  match v with
  | json.JInt n => Done n
  | _ => Raise TypeError
  end.

Definition write_sth (log_dir : string) (sth : json.value) : io unit :=
  io_bind (io_lift (tree_size_of sth)) (fun tree_size =>
  let filename := build_sth_name tree_size in
  let file_path := path_join log_dir filename in
  io_emit (WriteFile file_path (json.dumps sth))).

Definition handle_new_sth (w : world) (sth : json.value)
    (package_root_dir log_list_file url : string) : io unit :=
  io_bind (io_emit (ReadFile log_list_file)) (fun _ =>
  io_bind (io_lift (verify_sth w log_list_file url sth)) (fun _ =>
  write_sth package_root_dir sth)).

(** [bundle_size > 0 and ((bundle_size & (bundle_size - 1)) == 0)]. *)
Definition bundle_size_ok (bundle_size : Z) : bool :=
  (0 <? bundle_size) && (Z.land bundle_size (bundle_size - 1) =? 0).

(** [get_ct] from its first statement after the check of [bundle_size]. *)
Definition get_ct_run (w : world) (pkg_root_dir url log_list_file : string)
    (start_index step_size package_size bundle_size : Z) : io json.value :=
  io_bind (io_emit (Mkdir pkg_root_dir)) (fun _ =>
  io_bind (get_sth w url) (fun sth =>
  io_bind (handle_new_sth w sth pkg_root_dir log_list_file url) (fun _ =>
  io_bind (io_lift (tree_size_of sth)) (fun tree_size =>
  if (0 <=? start_index) && (tree_size <=? start_index)
  then io_raise (Exception
         "Nothing to do. You already have the whole tree that can be fetched from this log (view).")
  else
    io_bind (fetch_entries w pkg_root_dir url start_index step_size package_size bundle_size
               tree_size) (fun _ =>
    io_ret sth))))).

Definition get_ct (w : world) (pkg_root_dir url log_list_file : string)
    (start_index step_size package_size bundle_size : Z) : io json.value :=
  if negb (bundle_size_ok bundle_size)
  then io_raise (Exception "bundle_size arg must be a power of 2")
  else get_ct_run w pkg_root_dir url log_list_file start_index step_size package_size bundle_size.

End getct.

(** * bittorrent.py *)

Module bittorrent.

(** An element of the [files] list of a torrent: [{'length': ..., 'path':
    [...]}]. *)
Record file_entry := {
  f_length : Z;
  f_path : list string
}.

(** The variables of the loop of [get_pieces] that reads one file: the bytes
    [s] not hashed yet, the bytes of the file not read yet, the last [buf]
    read and the digests yielded so far. *)
Record reader := {
  pending : bytes;
  unread : bytes;
  buf : bytes;
  yielded : list bytes
}.

Definition read_step `{Pylib} (piece_length : nat) (r : reader) : reader :=
  let s := pending r ++ buf r in
  let full := (piece_length <=? length s)%nat in
  {| pending := if full then drop piece_length s else s;
     unread := drop piece_length (unread r);
     buf := take piece_length (unread r);
     yielded := if full then yielded r ++ [sha1 (take piece_length s)] else yielded r |}.

(** The body of [for f in files] in [get_pieces], on the content of the
    file: [fd.read(piece_length)] returns the next [piece_length] bytes of
    the file, fewer at its end. *)
Definition read_file `{Pylib} (fuel : nat) (piece_length : nat) (content : bytes)
    (st : bytes * list bytes) : outcome (bytes * list bytes) :=
  let r0 := {| pending := st.1; unread := drop piece_length content;
               buf := take piece_length content; yielded := st.2 |} in
  match while fuel (fun r => negb (length (buf r) =? 0)%nat) (read_step piece_length) r0 with
  | None => OutOfFuel
  | Some r => Done (pending r, yielded r)
  end.

Definition open_rb (fs : filesystem) (file_path : string) : outcome bytes :=
  match file_bytes fs !! file_path with
  | Some content => Done content
  | None => Raise OSError
  end.

(** [list(get_pieces(pkg_root_dir, files, piece_length))]: the digests
    yielded, in order. *)
Definition get_pieces `{Pylib} (fuel : nat) (fs : filesystem) (pkg_root_dir : string)
    (files : list file_entry) (piece_length : nat) : outcome (list bytes) :=
  st ← for_each files
         (fun st f =>
            let file_path :=
              path_join pkg_root_dir (str_join (String os_sep EmptyString) (f_path f)) in
            content ← open_rb fs file_path;
            read_file fuel piece_length content st)
         ([], []);
  Done (st.2 ++ [sha1 (take piece_length st.1)]).

(** [total_size = sum([f['length'] for f in files])]. *)
Definition total_size (files : list file_entry) : Z :=
  fold_left Z.add (map f_length files) 0.

(** [piece_length = max(1 << 15, ((total_size//1500) >> 13) << 13)] of
    [create_torrent]. *)
Definition piece_length (files : list file_entry) : Z :=
  Z.max (Z.shiftl 1 15) (Z.shiftl (Z.shiftr (total_size files / 1500) 13) 13).

End bittorrent.

(** * RFC 6962, for comparison

    The definitions of this module follow the words of the RFC and of the
    specification, not the sources. *)

Module rfc6962.

(** The hash of a leaf, [SHA-256(0x00 || d)], and the hash of an inner node,
    [SHA-256(0x01 || left || right)] (RFC 6962, section 2.1). *)
Definition leaf_node `{Pylib} (d : bytes) : bytes := sha256 (x00 :: d).

Definition inner_node `{Pylib} (left right : bytes) : bytes := sha256 (x01 :: left ++ right).

(** The largest power of two smaller than [n], for [n] at least 2. *)
Definition split_point (n : nat) : nat := (2 ^ Nat.log2 (n - 1))%nat.

(** The Merkle Tree Hash of a list of leaf hashes: the hash of the empty
    string for no leaf, the leaf hash itself for one leaf, and for [n] leaves
    [H(0x01 || MTH(d[0:k]) || MTH(d[k:n]))], where [k] is the largest power
    of two smaller than [n]. *)
Equations? MTH `{Pylib} (d : list bytes) : bytes by wf (length d) lt :=
  MTH [] := sha256 [];
  MTH [x] := x;
  MTH (x :: y :: l) :=
    inner_node (MTH (take (split_point (length (x :: y :: l))) (x :: y :: l)))
              (MTH (drop (split_point (length (x :: y :: l))) (x :: y :: l))).
Proof.
  - rewrite length_take. simpl length. unfold split_point.
    pose proof (Nat.log2_spec (S (length l)) ltac:(lia)).
    replace (S (S (length l)) - 1)%nat with (S (length l)) by lia. lia.
  - rewrite length_drop. simpl length. unfold split_point.
    assert (0 < 2 ^ Nat.log2 (S (S (length l)) - 1))%nat
      by (apply Nat.neq_0_lt_0, Nat.pow_nonzero; lia).
    lia.
Qed.

(** The steps of the check of an audit path (RFC 6962, section 2.1.1; the
    algorithm is the one of RFC 9162, section 2.1.3.2): [fn] is the position
    of the node on the way to the root, [sn] the position of the last node
    of its level, and [r] the hash computed so far. *)
Fixpoint shift_to_right_child (fuel : nat) (fn sn : N) : N * N :=
  match fuel with
  | O => (fn, sn)
  | S f =>
      if N.odd fn || (fn =? 0)%N then (fn, sn)
      else shift_to_right_child f (N.shiftr fn 1) (N.shiftr sn 1)
  end.

Fixpoint fold_audit_path `{Pylib} (path : list bytes) (fn sn : N) (r : bytes) : option bytes :=
  match path with
  | [] => if (sn =? 0)%N then Some r else None
  | p :: rest =>
      if (sn =? 0)%N then None
      else if N.odd fn || (fn =? sn)%N then
        let r1 := inner_node p r in
        let (fn1, sn1) :=
          if N.odd fn then (fn, sn) else shift_to_right_child (N.size_nat fn) fn sn in
        fold_audit_path rest (N.shiftr fn1 1) (N.shiftr sn1 1) r1
      else
        fold_audit_path rest (N.shiftr fn 1) (N.shiftr sn 1) (inner_node r p)
  end.

(** The root rebuilt from the leaf hash of index [leaf_index] in a tree of
    [tree_size] leaves and its audit path; [None] when the path has not the
    length that the position asks for. *)
Definition root_from_audit_path `{Pylib} (leaf_index tree_size : N) (leaf : bytes)
    (path : list bytes) : option bytes :=
  if (tree_size <=? leaf_index)%N then None
  else fold_audit_path path leaf_index (tree_size - 1) leaf.

(** [PATH(m, D[n])] of RFC 6962, section 2.1.1, on leaf hashes. *)
Equations? PATH `{Pylib} (m : nat) (d : list bytes) : list bytes by wf (length d) lt :=
  PATH m [] := [];
  PATH m [x] := [];
  PATH m (x :: y :: l) :=
    if (m <? split_point (length (x :: y :: l)))%nat
    then PATH m (take (split_point (length (x :: y :: l))) (x :: y :: l))
         ++ [MTH (drop (split_point (length (x :: y :: l))) (x :: y :: l))]
    else PATH (m - split_point (length (x :: y :: l)))
              (drop (split_point (length (x :: y :: l))) (x :: y :: l))
         ++ [MTH (take (split_point (length (x :: y :: l))) (x :: y :: l))].
Proof.
  all: rewrite ?length_take, ?length_drop; simpl length; unfold split_point.
  all: pose proof (Nat.log2_spec (S (length l)) ltac:(lia)).
  all: replace (S (S (length l)) - 1)%nat with (S (length l)) by lia.
  all: assert (0 < 2 ^ Nat.log2 (S (length l)))%nat
         by (apply Nat.neq_0_lt_0, Nat.pow_nonzero; lia).
  all: lia.
Qed.

End rfc6962.

(** * The pieces of a torrent, for comparison

    The definitions of this module follow the words of BEP 3 and of the
    specification, not the sources. *)

Module bep3.

(** Piece [i] of the content of a torrent: the bytes from [i * piece_length]
    up to [(i + 1) * piece_length], fewer at the end of the content. *)
Definition piece (piece_length : nat) (data : bytes) (i : nat) : bytes :=
  take piece_length (drop (i * piece_length) data).

(** The digests of the pieces 0 to [n - 1]. *)
Definition digests `{Pylib} (piece_length : nat) (data : bytes) (n : nat) : list bytes :=
  map (fun i => sha1 (piece piece_length data i)) (seq 0 n).

(** What [get_pieces] holds after it has read the bytes [d]: the digests of
    the full pieces of [d], and the bytes of [d] after them. *)
Definition read_so_far `{Pylib} (piece_length : nat) (d : bytes) (st : bytes * list bytes) : Prop :=
  st.1 = drop (length d / piece_length * piece_length) d
  /\ st.2 = digests piece_length d (length d / piece_length).

End bep3.

(** * A library instance for examples

    Every digest is its input and [b64encode] changes nothing: a result
    computed with this instance shows which bytes were hashed together. *)

Definition plain_digests : Pylib :=
  {| sha256 := fun b => b; sha1 := fun b => b; b64encode := fun b => b |}.

(** * Disks, logs and answers used in the examples *)

Module examples.
Import bittorrent getct.

Definition no_files {A : Type} : gmap string A := ∅.

(** One package of two bundles, for bundles of four entries: a complete
    bundle and a tail of three entries. *)
Definition small_package_disk : filesystem :=
  {| listdir :=
       {[ "/log" := ["000"];
          "/log/000" := ["0000000000-0000000003.json.gz"; "0000000004-0000000006.json.gz"] ]};
     bundle_entries :=
       {[ "/log/000/0000000000-0000000003.json.gz" := [[x0a]; [x0b]; [x0c]; [x0d]];
          "/log/000/0000000004-0000000006.json.gz" := [[x0e]; [x0f]; [x10]] ]};
     info_files := no_files;
     file_bytes := no_files |}.

(** A package directory without any bundle: the listing holds a file that
    is not a bundle. *)
Definition no_bundle_disk : filesystem :=
  {| listdir := {[ "/log" := ["000"]; "/log/000" := ["notes.txt"] ]};
     bundle_entries := no_files;
     info_files := no_files;
     file_bytes := no_files |}.

(** The archive of a log under its usual name, left by a run that was
    killed just after it created the directory of package 1. *)
Definition empty_last_package_disk : filesystem :=
  {| listdir :=
       {[ "/tmp/ct.googleapis.com_pilot" := ["000"; "001"; "sth-0000001500.json"];
          "/tmp/ct.googleapis.com_pilot/000" := ["0000000000-0000001023.json.gz"];
          "/tmp/ct.googleapis.com_pilot/001" := [] ]};
     bundle_entries := no_files;
     info_files := no_files;
     file_bytes := no_files |}.

(** The same archive under a name that is a number. *)
Definition numeric_root_disk : filesystem :=
  {| listdir :=
       {[ "/srv/7" := ["000"; "001"];
          "/srv/7/000" := ["0000000000-0000001023.json.gz"];
          "/srv/7/001" := [] ]};
     bundle_entries := no_files;
     info_files := no_files;
     file_bytes := no_files |}.

(** A package in which the bundle that starts at 0 was written twice: with
    two entries when the log had two, with four later on. *)
Definition stale_bundle_disk : filesystem :=
  {| listdir :=
       {[ "/log/000" := ["0000000000-0000000003.json.gz"; "0000000000-0000000001.json.gz"] ]};
     bundle_entries := no_files;
     info_files := no_files;
     file_bytes := no_files |}.

(** Two packages of two bundles of 1024 entries; the last bundle of the
    last package is complete in the first disk, partial in the second. *)
Definition complete_bundle_disk : filesystem :=
  {| listdir :=
       {[ "/log" := ["001"; "sth-0000004096.json"; "000"];
          "/log/001" := ["0000003072-0000004095.json.gz"; "0000002048-0000003071.json.gz"] ]};
     bundle_entries := no_files;
     info_files := no_files;
     file_bytes := no_files |}.

Definition partial_bundle_disk : filesystem :=
  {| listdir :=
       {[ "/log" := ["001"; "sth-0000003501.json"; "000"];
          "/log/001" := ["0000003072-0000003500.json.gz"; "0000002048-0000003071.json.gz"] ]};
     bundle_entries := no_files;
     info_files := no_files;
     file_bytes := no_files |}.

(** A torrent of one file of four bytes. *)
Definition four_byte_disk : filesystem :=
  {| listdir := {[ "/log" := ["000"]; "/log/000" := ["data"] ]};
     bundle_entries := no_files;
     info_files := no_files;
     file_bytes := {[ "/log/000/data" := [x01; x02; x03; x04] ]} |}.

Definition four_byte_files : list file_entry :=
  [ {| f_length := 4; f_path := ["000"; "data"] |} ].

(** The info files of the packages 0 to [n - 1] of a log, hashed at a tree
    size of 5, with the given package hashes. *)
Definition info_name (pkg_num : Z) : string := utils.build_info_file_name pkg_num 5.

Definition packages_disk (hashes : list bytes) : filesystem :=
  {| listdir := {[ "/log" := imap (fun i _ => info_name (Z.of_nat i)) hashes ]};
     bundle_entries := no_files;
     info_files :=
       list_to_map
         (imap (fun i h => (path_join "/log" (info_name (Z.of_nat i)),
                            {| pkg_hash := h; merkle_proof := [] |})) hashes);
     file_bytes := no_files |}.

Definition quoted (s : string) : string :=
  String json.quote_char (s ++ String json.quote_char EmptyString).

(** A log list that names the log [ct.example/log] with its public key. *)
Definition log_list : string :=
  "{" ++ quoted "logs" ++ ":[{" ++ quoted "url" ++ ":" ++ quoted "ct.example/log" ++ ","
      ++ quoted "key" ++ ":"
      ++ quoted "MFkwEwYHKoZIzj0CAQYIKoZIzj0DAQcDQgAEy5nubqW5FXwtb1LqMj7C1rbgJ+3Rx1NVdPSvmq4g8xMWfOKPBMYjmNln2bO4FQm+SDncegAjwxsb9B3bLPm1Zg=="
      ++ "}]}".

(** The answer of a log to [get-sth], without white space, as the logs
    send it. Its [tree_head_signature] is well formed (hash algorithm 4,
    signature algorithm 3, a length of 72 and then 72 bytes) and is an ECDSA
    signature, with SHA-256 and the key of [log_list], of the bytes that
    [build_verified_data] packs for this tree head: [verify_sth] returns
    for this answer of the log [ct.example/log] and this log list. *)
Definition compact_sth : string :=
  "{" ++ quoted "tree_size" ++ ":1500,"
      ++ quoted "timestamp" ++ ":1478000000000,"
      ++ quoted "sha256_root_hash" ++ ":" ++ quoted "47DEQpj8HBSa+/TImW+5JCeuQeRkm5NMpJWZG3hSuFU=" ++ ","
      ++ quoted "tree_head_signature" ++ ":" ++ quoted "BAMASDBGAiEA7NJ7R38cY++9+W6s8mSUvNOPci54HnCclt2VjHSdc6MCIQD3kAMrmdEwfPpeynVWcF7HBhjWcREeT55xTWmo7MvmLA==" ++ "}".

(** A log that answers [get-sth] with [body], whose tree heads all verify,
    and where fetching the entries does nothing. *)
Definition log_answering (body : string) : world :=
  {| sth_response := Done (200, body);
     verify_sth := fun _ _ _ => Done tt;
     fetch_entries := fun _ _ _ _ _ _ _ => ([], Done tt) |}.

End examples.

(** * getct.py: the requests for entries and the bundles written *)

Module getct_entries.
Import utils.

(** [list(range(a, b, s))]: a step of 0 is a [ValueError]; the length is
    the one that CPython computes, [(b - a - 1) // s + 1] for a positive
    step when [a < b]. *)
Definition range_step (a b s : Z) : outcome (list Z) :=
  if s =? 0 then Raise ValueError
  else
    let n := if 0 <? s
             then (if a <? b then (b - a - 1) / s + 1 else 0)
             else (if b <? a then (a - b - 1) / (- s) + 1 else 0) in
    Done (map (fun k => a + k * s) (seqZ 0 n)).

(** The requests of [get_entries]: for every [i] of
    [range(start, tree_size, step_size)], in order, the values of [start] and
    [end] of the [get-entries] request, which is sent again until the log
    answers with the status 200. *)
Definition get_entries_requests (start step_size tree_size : Z) : outcome (list (Z * Z)) :=
  l ← range_step start tree_size step_size;
  Done (map (fun i => (i, Z.min (i + step_size - 1) (tree_size - 1))) l).

(** A call of [write_new_bundle], by its arguments. *)
Record bundle_write := {
  package_dir : string;
  bundle_start : Z;
  bundle_lst : list json.value
}.

(** What [write_new_bundle] does to the disk: the directory is created when
    [os.stat] cannot find it, then the file named after the first and the
    last index is written through [gzip] with the JSON text of
    [{'entries': bundle_lst}]. *)
Inductive disk_op :=
| EnsureDir (path : string)
| WriteGzip (path : string) (text : string).

Definition write_new_bundle (c : bundle_write) : list disk_op :=
  let bundle_end := bundle_start c + Z.of_nat (length (bundle_lst c)) - 1 in
  let new_file := path_join (package_dir c) (build_bundle_filename (bundle_start c) bundle_end) in
  let bundles_to_write := json.JDict [("entries"%string, json.JList (bundle_lst c))] in
  [EnsureDir (package_dir c); WriteGzip new_file (json.dumps bundles_to_write)].

(** The variables of the loop of [get_ct] over the answers of the log: the
    entries not written yet, the index of the first of them, and the calls
    of [write_new_bundle] made so far. *)
Record store := {
  pending_entries : list json.value;
  next_start : Z;
  written : list bundle_write
}.

(** The body of [for s in get_entries(...)], on [new_entries], the
    ['entries'] of the answer [s]. [bundle_size] is positive: [get_ct]
    checked it. *)
Definition store_entries (pkg_root_dir : string) (package_size bundle_size : Z)
    (st : store) (new_entries : list json.value) : store :=
  let lst := pending_entries st ++ new_entries in
  if bundle_size <=? Z.of_nat (length lst) then
    {| pending_entries := drop (Z.to_nat bundle_size) lst;
       next_start := next_start st + bundle_size;
       written := written st ++
         [{| package_dir := build_package_dir pkg_root_dir (next_start st) package_size bundle_size;
             bundle_start := next_start st;
             bundle_lst := take (Z.to_nat bundle_size) lst |}] |}
  else
    {| pending_entries := lst; next_start := next_start st; written := written st |}.

(** [get_ct] from the rounding of [start_index] on, for the lists of entries
    that the answers of the log hold, in order: the calls of
    [write_new_bundle]. *)
Definition get_ct_bundles (pkg_root_dir : string) (start_index package_size bundle_size : Z)
    (answers : list (list json.value)) : list bundle_write :=
  let start_index := (start_index / bundle_size) * bundle_size in
  let st := fold_left (store_entries pkg_root_dir package_size bundle_size) answers
              {| pending_entries := []; next_start := start_index; written := [] |} in
  if (0 <? length (pending_entries st))%nat
  then written st ++
         [{| package_dir := build_package_dir pkg_root_dir (next_start st) package_size bundle_size;
             bundle_start := next_start st;
             bundle_lst := pending_entries st |}]
  else written st.

(** ** What the loop keeps, for the proofs *)

(** The entries of the calls made so far. *)
Definition written_entries (st : store) : list json.value :=
  concat (map bundle_lst (written st)).

(** Every call starts at the index that follows the entries of the calls
    before it, goes to the directory of that index and holds an entry. *)
Definition calls_ok (pkg_root_dir : string) (package_size bundle_size : Z)
    (s0 : Z) (calls : list bundle_write) : Prop :=
  forall k c, calls !! k = Some c ->
    bundle_start c = s0 + Z.of_nat (length (concat (map bundle_lst (take k calls))))
    /\ package_dir c = build_package_dir pkg_root_dir (bundle_start c) package_size bundle_size
    /\ bundle_lst c <> [].

(** Every call made so far holds [bundle_size] entries, and fewer are
    left. *)
Definition full_bundles (bundle_size : Z) (st : store) : Prop :=
  Forall (fun c => Z.of_nat (length (bundle_lst c)) = bundle_size) (written st)
  /\ Z.of_nat (length (pending_entries st)) < bundle_size.

End getct_entries.

(** * utils.py: the URL of a log *)

Module urls.
Import utils.

(** [s.find(c)] for a character: the index of its first occurrence, [None]
    for the -1 of Python. *)
Fixpoint find (c : ascii) (s : string) : option nat :=
  match s with
  | EmptyString => None
  | String x rest => if Ascii.eqb x c then Some 0%nat else S <$> find c rest
  end.

(** [s[n:]]. *)
Fixpoint string_drop (n : nat) (s : string) : string :=
  match n, s with
  | O, _ => s
  | S m, String _ rest => string_drop m rest
  | S _, EmptyString => EmptyString
  end.

(** [s.lstrip(c)], [s.rstrip(c)] and [s.strip(c)] for a character. *)
Fixpoint lstrip (c : ascii) (s : string) : string :=
  match s with
  | String x rest => if Ascii.eqb x c then lstrip c rest else s
  | EmptyString => EmptyString
  end.

Fixpoint rstrip (c : ascii) (s : string) : string :=
  match s with
  | String x rest =>
      match rstrip c rest with
      | EmptyString => if Ascii.eqb x c then EmptyString else String x EmptyString
      | kept => String x kept
      end
  | EmptyString => EmptyString
  end.

Definition strip (c : ascii) (s : string) : string := rstrip c (lstrip c s).

Definition path_from_urlpath (urlpath : string) : list string :=
  split "/" (strip "/" urlpath).

Definition parse_url (url : string) : string * list string :=
  match find "/" url with
  | None => (url, [])
  | Some pos =>
      if (pos =? String.length url - 1)%nat then (url, [])
      else (String.substring 0 pos url, path_from_urlpath (string_drop pos url))
  end.

Definition build_log_name (dnsname : string) (path : list string) : string :=
  str_join "_" (dnsname :: path).

Definition build_package_root_dir (root_dir dnsname : string) (path : list string) : string :=
  path_join root_dir (build_log_name dnsname path).

(** [build_urlpath(path, cmd, params)]; [None] is the [None] of Python. *)
Definition build_urlpath (path : option (list string)) (cmd : string) (params : option string)
    : string :=
  let urlpath :=
    match path with
    | Some (seg :: segs) => "/"%string :: seg :: segs
    | _ => []
    end in
  let urlpath := urlpath ++ ["/ct/v1/"%string] in
  let urlpath := urlpath ++ [cmd] in
  let urlpath :=
    match params with
    | Some p => (urlpath ++ ["?"%string]) ++ [p]
    | None => urlpath
    end in
  str_join EmptyString urlpath.

Definition build_torrent_name (url : string) (pkg_num tree_size : Z) : string :=
  let (dnsname, path) := parse_url url in
  let log_name := build_log_name dnsname path in
  log_name ++ "_" ++ build_package_name pkg_num ++ "-" ++ format_0 10 tree_size ++ ".torrent".

Definition build_magnet_name (url : string) (pkg_num tree_size : Z) : string :=
  let (dnsname, path) := parse_url url in
  let log_name := build_log_name dnsname path in
  log_name ++ "_" ++ build_package_name pkg_num ++ "-" ++ format_0 10 tree_size ++ ".magnet".

(** A string without the character [/]. *)
Definition no_slash (s : string) : Prop :=
  Forall (fun c => Ascii.eqb c "/" = false) (list_ascii_of_string s).

End urls.

(** * The levels of [compute_proofs], for the proofs *)

Module proof_levels.

(** What the node [m] of a level is hashed with when the level is reduced:
    the node after it when [m] is even, the node before it when [m] is odd;
    nothing for the last node of a level of odd length, which is carried
    over. *)
Definition sibling (m : nat) (level : list bytes) : list bytes :=
  option_list (level !! (if Nat.even m then S m else Nat.pred m)).

(** The list [cur] of [compute_proofs] after [j] runs of its loop, for the
    hashes [level] of that level: the node [i] carries the number
    [i * 2 ^ j], the number of the first package below it. [i0] is the
    position of the first node of [level]. *)
Fixpoint numbered_from (j i0 : nat) (level : list bytes) : list (Z * bytes) :=
  match level with
  | [] => []
  | h :: rest => (Z.of_nat i0 * 2 ^ Z.of_nat j, h) :: numbered_from j (S i0) rest
  end.

(** The mask of [compute_proofs] before the run [j] of its loop, for a
    first mask of [c] bits: the bits [j] to [c - 1]. *)
Definition level_mask (c j : nat) : Z := Z.shiftl (Z.ones (Z.of_nat (c - j))) (Z.of_nat j).

(** The number of bits of the first mask. *)
Definition mask_bits (last_package : Z) : nat :=
  if 0 <? last_package then Z.to_nat (hashbundles.ceil_log2 last_package) else 1%nat.

(** The position, in the level of the run [j], of the node above the
    package [k]. *)
Definition position (j : nat) (k : Z) : nat := Z.to_nat (k / 2 ^ Z.of_nat j).

(** What the node at the position [q] is hashed with, in a level whose
    first node is at the position [i0]; nothing when [q] is not a position
    of the level. *)
Definition sibling_in (i0 : nat) (level : list bytes) (q : nat) : list bytes :=
  if (i0 <=? q)%nat && (q <? i0 + length level)%nat then sibling (q - i0) level else [].

End proof_levels.

(** * bittorrent.py: bencode *)

Module bencoding.

(** The objects that [bencode] is given: [Raw] objects, [bytes], [str]
    (the string of its code points, here all below 256), [int], lists, and
    dicts with [str] keys, as the list of their items, in any order and
    without two items for a key. [BOther] stands for an object of any other
    type ([None], a float, a tuple). *)
#[warnings="-register-all"]
Inductive bvalue :=
| BRaw (v : bytes)
| BBytes (b : bytes)
| BStr (s : string)
| BInt (n : Z)
| BList (l : list bvalue)
| BDict (d : list (string * bvalue))
| BOther.

(** The elements of the work list [l]. *)
Inductive item :=
| Value (v : bvalue)
| EndDict
| EndList.

(** [bytes(s, 'UTF-8')]: a code point below 128 is one byte, a code point
    [c] from 128 to 255 the two bytes [0xC0 | (c >> 6)] and
    [0x80 | (c & 0x3F)]. *)
Definition utf8_char (c : ascii) : bytes :=
  let n := N_of_ascii c in
  if (n <? 128)%N then [byte_of_ascii c]
  else [byte_of_ascii (ascii_of_N (N.lor 192 (N.shiftr n 6)));
        byte_of_ascii (ascii_of_N (N.lor 128 (N.land n 63)))].

Definition utf8 (s : string) : bytes := flat_map utf8_char (list_ascii_of_string s).

(** [str(n)] for an [int]. *)
Definition str_of_int (n : Z) : string := json.dumps_int n.

(** The order of [sorted(item.items())]: with no two items for a key, the
    items compare as their keys do. *)
Definition key_le {A : Type} (a b : string * A) : Prop := String.le a.1 b.1.

#[global] Instance key_le_dec {A : Type} : RelDecision (@key_le A).
Proof. intros a b. unfold key_le. apply _. Defined.

(** [new_l] for a dict: the keys and the values of its sorted items. *)
Definition dict_items (d : list (string * bvalue)) : list item :=
  flat_map (fun kv : string * bvalue => [Value (BStr kv.1); Value kv.2])
           (merge_sort key_le d).

(** [str(len(item))] for a [bytes] or a [str]. *)
Definition str_of_len (n : nat) : string := str_of_int (Z.of_nat n).

(** The body of the [while] loop of [bencode], on the work list [l] and the
    list [s] of the pieces of the result. *)
Definition bencode_step (st : list item * list bytes) : list item * list bytes :=
  let (l, s) := st in
  match l with
  | [] => (l, s)
  | it :: l =>
      match it with
      | Value (BRaw v) => (l, s ++ [v])
      | EndDict | EndList => (l, s ++ [utf8 "e"])
      | Value (BBytes b) => (l, s ++ [utf8 (str_of_len (length b)) ++ utf8 ":" ++ b])
      | Value (BStr x) => (l, s ++ [utf8 (str_of_len (String.length x) ++ ":" ++ x)])
      | Value (BInt n) => (l, s ++ [utf8 "i" ++ utf8 (str_of_int n) ++ utf8 "e"])
      | Value (BList items) => (map Value items ++ [EndList] ++ l, s ++ [utf8 "l"])
      | Value (BDict d) => (dict_items d ++ [EndDict] ++ l, s ++ [utf8 "d"])
      | Value BOther => (l, s)
      end
  end.

Definition bencode (fuel : nat) (obj : bvalue) : outcome bytes :=
  match while fuel (fun st : list item * list bytes => (0 <? length st.1)%nat) bencode_step
          ([Value obj], []) with
  | Some st => Done (concat st.2)
  | None => OutOfFuel
  end.

(** ** The encoding of BEP 3, for comparison

    Integers are [i], the number in base ten and [e]; strings are their
    length in base ten, a colon and the string, where a string is a string
    of bytes and its length the number of its bytes; lists are [l], their
    elements and [e]; dictionaries are [d], their keys and values in turn
    with the keys in sorted order, and [e]. A [Raw] object is its bytes, and
    an object of another type is nothing. *)
Definition byte_string (data : bytes) : bytes :=
  utf8 (str_of_int (Z.of_nat (length data))) ++ utf8 ":" ++ data.

Fixpoint encode (v : bvalue) : bytes :=
  match v with
  | BRaw b => b
  | BBytes b => byte_string b
  | BStr x => byte_string (utf8 x)
  | BInt n => utf8 "i" ++ utf8 (str_of_int n) ++ utf8 "e"
  | BList items => utf8 "l" ++ concat (map encode items) ++ utf8 "e"
  | BDict d =>
      utf8 "d"
      ++ concat (map (fun kv : string * bytes => byte_string (utf8 kv.1) ++ kv.2)
                     (merge_sort key_le (map (fun kv : string * bvalue => (kv.1, encode kv.2)) d)))
      ++ utf8 "e"
  | BOther => []
  end.

Definition encode_item (it : item) : bytes :=
  match it with
  | Value v => encode v
  | EndDict | EndList => utf8 "e"
  end.

(** The number of runs of the loop that an object takes. *)
Fixpoint weight (v : bvalue) : nat :=
  match v with
  | BList items => (2 + list_sum (map weight items))%nat
  | BDict d => (2 + list_sum (map (fun kv : string * bvalue => (1 + weight kv.2)%nat) d))%nat
  | _ => 1%nat
  end.

Definition item_weight (it : item) : nat :=
  match it with
  | Value v => weight v
  | EndDict | EndList => 1%nat
  end.

(** The objects whose [str] objects and keys hold ASCII characters only. *)
Definition is_ascii (c : ascii) : bool := (N_of_ascii c <? 128)%N.

Definition ascii_str (s : string) : bool := forallb is_ascii (list_ascii_of_string s).

Fixpoint ascii_only (v : bvalue) : bool :=
  match v with
  | BStr x => ascii_str x
  | BList items => forallb ascii_only items
  | BDict d => forallb (fun kv : string * bvalue => ascii_str kv.1 && ascii_only kv.2) d
  | _ => true
  end.

Definition item_ascii_only (it : item) : bool :=
  match it with
  | Value v => ascii_only v
  | EndDict | EndList => true
  end.

(** The [str] of one character, of code point 233. *)
Definition e_acute : string := String (ascii_of_N 233) EmptyString.

End bencoding.

(** * bittorrent.py: get_file_list *)

Module torrent_files.
Import utils bittorrent.

(** [os.stat(path).st_size]: the number of bytes of the file, [OSError]
    ([FileNotFoundError]) when there is no such file. *)
Definition st_size (fs : filesystem) (path : string) : outcome Z :=
  match file_bytes fs !! path with
  | Some content => Done (Z.of_nat (length content))
  | None => Raise OSError
  end.

Definition get_file_list (fs : filesystem) (pkg_root_dir : string) (pkg_num tree_size : Z) :
    outcome (list file_entry) :=
  let pkg_dir := path_join pkg_root_dir (build_package_name pkg_num) in
  bundle_list ← get_bundle_list fs pkg_dir tree_size;
  file_list ← for_each bundle_list
                 (fun file_list bundle =>
                    size ← st_size fs (path_join pkg_dir bundle);
                    let file_path := [build_package_name pkg_num; bundle] in
                    Done (file_list ++ [ {| f_length := size; f_path := file_path |} ]))
                 [];
  let sth_fn := build_sth_name tree_size in
  size ← st_size fs (path_join pkg_root_dir sth_fn);
  let file_list := file_list ++ [ {| f_length := size; f_path := [sth_fn] |} ] in
  let info_file_fn := build_info_file_name pkg_num tree_size in
  size ← st_size fs (path_join pkg_root_dir info_file_fn);
  Done (file_list ++ [ {| f_length := size; f_path := [info_file_fn] |} ]).

(** The entry of a file of the given content. *)
Definition file_of (path : list string) (content : bytes) : file_entry :=
  {| f_length := Z.of_nat (length content); f_path := path |}.

(** A log with one package of one bundle, its STH file and its info file,
    at the tree size 2. *)
Definition torrent_disk : filesystem :=
  {| listdir := {[ "/log/000" := ["0000000000-0000000001.json.gz"] ]};
     bundle_entries := ∅;
     info_files := ∅;
     file_bytes :=
       {[ "/log/000/0000000000-0000000001.json.gz" := [x01; x02; x03];
          "/log/sth-0000000002.json" := [x04];
          "/log/000-0000000002.info" := [x05; x06] ]} |}.

End torrent_files.

Import utils hashbundles getct bittorrent rfc6962 bep3.

(** * The level-by-level reduction and the Merkle Tree Hash *)

Section merkle_tree_hash.
Context `{Pylib}.

(** Facts on the quotient of [n + 1] by 2, for [lia]. *)
Ltac half n :=
  pose proof (Nat.div_mod_eq (n + 1) 2);
  pose proof (Nat.mod_upper_bound (n + 1) 2 ltac:(lia)).

Lemma reduce_level_length (l : list bytes) :
  length (reduce_level l) = ((length l + 1) / 2)%nat.
Proof.
  induction l as [l IH] using (induction_ltof1 _ (@length _)); unfold ltof in IH.
  destruct l as [|a [|b rest]]; try reflexivity.
  cbn [reduce_level length]. rewrite IH by (simpl; lia).
  replace (S (S (length rest)) + 1)%nat with (1 * 2 + (length rest + 1))%nat by lia.
  rewrite Nat.div_add_l by lia. lia.
Qed.

(** A level that is cut at an even position is reduced piece by piece. *)
Lemma reduce_level_app (l1 l2 : list bytes) :
  Nat.even (length l1) = true ->
  reduce_level (l1 ++ l2) = reduce_level l1 ++ reduce_level l2.
Proof.
  induction l1 as [l1 IH] using (induction_ltof1 _ (@length _)); unfold ltof in IH.
  destruct l1 as [|a [|b rest]]; simpl; intros Hev; try reflexivity; try discriminate.
  f_equal. apply IH; simpl; auto.
Qed.

(** [split_point n] is a power of two [k] with [k < n <= 2k]: it is smaller
    than [n], and the next power of two is not. *)
Lemma split_point_spec (n : nat) :
  (2 <= n)%nat -> (split_point n < n <= 2 * split_point n)%nat.
Proof.
  intros Hn. unfold split_point.
  pose proof (Nat.log2_spec (n - 1) ltac:(lia)) as Hs.
  rewrite Nat.pow_succ_r' in Hs. lia.
Qed.

Lemma pow2_between_unique (a b n : nat) :
  (2 ^ a < n <= 2 * 2 ^ a)%nat -> (2 ^ b < n <= 2 * 2 ^ b)%nat -> a = b.
Proof.
  intros Ha Hb.
  destruct (Nat.lt_trichotomy a b) as [Hlt|[Heq|Hgt]]; [exfalso| assumption |exfalso].
  - assert (2 ^ (S a) <= 2 ^ b)%nat by (apply Nat.pow_le_mono_r; lia).
    rewrite Nat.pow_succ_r' in *. lia.
  - assert (2 ^ (S b) <= 2 ^ a)%nat by (apply Nat.pow_le_mono_r; lia).
    rewrite Nat.pow_succ_r' in *. lia.
Qed.

(** No power of two lies strictly between [split_point n] and [n]. *)
Lemma split_point_largest (n e : nat) :
  (2 <= n)%nat -> (2 ^ e < n)%nat -> (2 ^ e <= split_point n)%nat.
Proof.
  intros Hn He. pose proof (split_point_spec n Hn) as Hk. unfold split_point in *.
  destruct (Nat.le_gt_cases e (Nat.log2 (n - 1))) as [Hle|Hgt].
  - apply Nat.pow_le_mono_r; lia.
  - assert (2 ^ S (Nat.log2 (n - 1)) <= 2 ^ e)%nat by (apply Nat.pow_le_mono_r; lia).
    rewrite Nat.pow_succ_r' in *. lia.
Qed.

(** The split point of a level of at least three elements is even, and its
    half is the split point of the next level. *)
Lemma split_point_half (n : nat) :
  (3 <= n)%nat ->
  exists p, split_point n = (2 * p)%nat /\ split_point ((n + 1) / 2) = p.
Proof.
  intros Hn.
  pose proof (split_point_spec n ltac:(lia)) as Hk.
  unfold split_point in *.
  destruct (Nat.log2 (n - 1)) as [|e] eqn:He.
  - simpl in Hk. lia.
  - rewrite Nat.pow_succ_r' in *. exists (2 ^ e)%nat. split; [reflexivity|].
    f_equal. half n.
    pose proof (Nat.log2_spec ((n + 1) / 2 - 1) ltac:(lia)) as Hs.
    rewrite Nat.pow_succ_r' in Hs.
    apply (pow2_between_unique _ _ ((n + 1) / 2)); lia.
Qed.

(** The digests of the code are the hashes of the RFC: the three [update]s
    of a node hash the byte 1, the left hash and the right hash, in this
    order, and the two [update]s of a leaf the byte 0 and the entry. *)
Lemma node_hash_inner_node (l r : bytes) : node_hash l r = inner_node l r.
Proof. unfold node_hash, inner_node. reflexivity. Qed.

Lemma leaf_hash_leaf_node (d : bytes) : leaf_hash d = leaf_node d.
Proof. unfold leaf_hash, leaf_node. reflexivity. Qed.

Lemma MTH_single (x : bytes) : MTH [x] = x.
Proof. now rewrite MTH_equation_2. Qed.

Lemma MTH_split (d : list bytes) :
  (2 <= length d)%nat ->
  MTH d = node_hash (MTH (take (split_point (length d)) d))
                    (MTH (drop (split_point (length d)) d)).
Proof.
  destruct d as [|x [|y l]]; simpl; intros; try lia.
  rewrite MTH_equation_3. symmetry. apply node_hash_inner_node.
Qed.

(** One reduction of a level keeps the Merkle Tree Hash. *)
Lemma MTH_reduce_level (l : list bytes) : MTH (reduce_level l) = MTH l.
Proof.
  induction l as [l IH] using (induction_ltof1 _ (@length _)); unfold ltof in IH.
  destruct (Nat.le_gt_cases (length l) 2) as [Hsmall|Hbig].
  - destruct l as [|a [|b [|c rest]]]; [reflexivity|reflexivity| |simpl in Hsmall; lia].
    cbn [reduce_level]. rewrite MTH_equation_3. cbn [length split_point].
    change (2 ^ Nat.log2 (2 - 1))%nat with 1%nat. cbn [take drop].
    now rewrite !MTH_equation_2.
  - destruct (split_point_half (length l) ltac:(lia)) as (p & Hk & Hp).
    pose proof (split_point_spec (length l) ltac:(lia)) as Hks.
    rewrite (MTH_split l) by lia.
    rewrite (MTH_split (reduce_level l)).
    2:{ rewrite reduce_level_length. half (length l). lia. }
    rewrite reduce_level_length, Hp, Hk.
    assert (Hlen : length (take (2 * p) l) = (2 * p)%nat) by (rewrite length_take; lia).
    assert (Hsplit : reduce_level l =
              reduce_level (take (2 * p) l) ++ reduce_level (drop (2 * p) l)).
    { rewrite <- reduce_level_app, take_drop; [reflexivity|].
      rewrite Hlen, Nat.even_mul. reflexivity. }
    assert (Hlp : length (reduce_level (take (2 * p) l)) = p).
    { rewrite reduce_level_length, Hlen.
      replace (2 * p + 1)%nat with (p * 2 + 1)%nat by lia.
      rewrite Nat.div_add_l by lia. simpl. lia. }
    rewrite Hsplit at 1. rewrite take_app_length' by (symmetry; exact Hlp).
    rewrite Hsplit at 1. rewrite drop_app_length' by (symmetry; exact Hlp).
    rewrite !IH; [reflexivity| |].
    + rewrite length_drop. lia.
    + rewrite Hlen. lia.
Qed.

(** With one unit of fuel per element, the loop of [get_partial_tree_hash]
    ends on a non-empty list, and returns its Merkle Tree Hash. *)
Lemma get_partial_tree_hash_MTH (fuel : nat) (l : list bytes) :
  l <> [] -> (length l <= fuel)%nat -> get_partial_tree_hash fuel l = Done (MTH l).
Proof.
  unfold get_partial_tree_hash.
  revert l. induction fuel as [|f IH]; intros l Hne Hlen.
  - destruct l; simpl in *; [congruence|lia].
  - simpl. destruct (Nat.eqb_spec (length l) 1) as [H1|H1]; simpl.
    + destruct l as [|x [|y r]]; simpl in *; try lia. now rewrite MTH_equation_2.
    + rewrite IH, MTH_reduce_level; [reflexivity| |].
      * destruct l as [|a [|b r]]; simpl; congruence.
      * rewrite reduce_level_length.
        assert (2 <= length l)%nat by (destruct l; simpl in *; [congruence|lia]).
        half (length l). lia.
Qed.

(** On the empty list the loop is still running after any number of
    iterations: the list stays empty and its length is never 1. *)
Lemma get_partial_tree_hash_nil (fuel : nat) :
  get_partial_tree_hash fuel [] = OutOfFuel.
Proof.
  unfold get_partial_tree_hash.
  induction fuel as [|f IH]; simpl; [reflexivity|exact IH].
Qed.

(** The loop of [compute_package] over the bundles of a package. *)
Lemma compute_package_bundle_hashes (fuel : nat) (fs : filesystem) (package_dir : string)
    (bundle_list : list string) (entries : list (list bytes)) (acc : list bytes) :
  Forall2 (fun bndl es =>
             bundle_entries fs !! path_join package_dir bndl = Some es
             /\ es <> [] /\ (length es <= fuel)%nat) bundle_list entries ->
  for_each bundle_list
    (fun acc bndl =>
       let bndl_path := path_join package_dir bndl in
       leaf_hashes ← get_leaf_hashes fs bndl_path;
       h ← get_partial_tree_hash fuel leaf_hashes;
       Done (acc ++ [h]))
    acc
  = Done (acc ++ map (fun es => MTH (map leaf_hash es)) entries).
Proof.
  intros HF. revert acc.
  induction HF as [|bndl es bl ess (Hfile & Hne & Hlen) _ IH]; intros acc; simpl.
  - now rewrite app_nil_r.
  - unfold get_leaf_hashes. rewrite Hfile. simpl.
    rewrite get_partial_tree_hash_MTH; simpl.
    + rewrite IH, <- app_assoc. reflexivity.
    + destruct es; simpl; congruence.
    + now rewrite length_map.
Qed.

(** C1. For every non-empty list of hashes, of any length (a power of two
    or not), [get_partial_tree_hash] returns the RFC 6962 Merkle Tree Hash
    of the list, in which a list of [n >= 2] hashes is split at the largest
    power of two smaller than [n] and hashed as
    [SHA-256(0x01 || MTH(left) || MTH(right))]; [MTH] is the one of the
    module [rfc6962], with the hashes of the RFC and none of the code. This
    holds for the leaf hashes [SHA-256(0x00 || entry)] of every
    bundle, the partial tail bundle included, and for the reduction of a
    package over its bundle hashes: the [pkg_hash] that [compute_package]
    writes is the Merkle Tree Hash of the Merkle Tree Hashes of its
    bundles. *)
Theorem get_partial_tree_hash_is_rfc6962_mth :
  (forall (fuel : nat) (hashes : list bytes),
      hashes <> [] -> (length hashes <= fuel)%nat ->
      get_partial_tree_hash fuel hashes = Done (MTH hashes)
      /\ (forall n e : nat, n = length hashes -> (2 <= n)%nat ->
            MTH hashes = sha256 ([x01] ++ MTH (take (split_point n) hashes)
                                       ++ MTH (drop (split_point n) hashes))
            /\ (exists e0, split_point n = 2 ^ e0)%nat
            /\ (split_point n < n)%nat
            /\ ((2 ^ e < n)%nat -> (2 ^ e <= split_point n)%nat)))
  /\ (forall (fuel : nat) (fs : filesystem) (pkg_num : Z) (log_dir : string) (tree_size : Z)
        (bundle_list : list string) (entries : list (list bytes)),
      get_bundle_list fs (path_join log_dir (build_package_name pkg_num)) tree_size
        = Done bundle_list ->
      bundle_list <> [] ->
      (length bundle_list <= fuel)%nat ->
      Forall2 (fun bndl es =>
                 bundle_entries fs !! path_join (path_join log_dir (build_package_name pkg_num)) bndl
                   = Some es
                 /\ es <> [] /\ (length es <= fuel)%nat) bundle_list entries ->
      is_Some (listdir fs !! log_dir) ->
      exists fs',
        compute_package fuel fs pkg_num log_dir tree_size = Done fs'
        /\ info_files fs' !! path_join log_dir (build_info_file_name pkg_num tree_size)
           = Some {| pkg_hash := MTH (map (fun es => MTH (map leaf_node es)) entries);
                     merkle_proof := [] |}).
Proof.
  split.
  - intros fuel hashes Hne Hlen. split; [now apply get_partial_tree_hash_MTH|].
    intros n e -> Hn. split; [now apply MTH_split|].
    pose proof (split_point_spec _ Hn). repeat split.
    + eexists. reflexivity.
    + lia.
    + now apply split_point_largest.
  - intros fuel fs pkg_num log_dir tree_size bundle_list entries Hbl Hne Hlen HF [names Hdir].
    unfold compute_package. rewrite Hbl. cbn [mbind outcome_bind].
    rewrite (compute_package_bundle_hashes _ _ _ _ entries) by exact HF.
    cbn [mbind outcome_bind app].
    pose proof (Forall2_length _ _ _ HF) as Hlens.
    rewrite get_partial_tree_hash_MTH.
    + cbn [mbind outcome_bind]. unfold write_tree_hash, write_info, os_listdir.
      rewrite Hdir. cbn [mbind outcome_bind]. eexists. split; [reflexivity|].
      cbn [info_files]. apply lookup_insert_eq.
    + destruct entries; [destruct bundle_list; simpl in *; congruence|simpl; congruence].
    + rewrite length_map. lia.
Qed.

(** C10. On every non-empty list [get_partial_tree_hash] terminates and
    returns one digest: with one unit of fuel per element the result no
    longer depends on the fuel. On the empty list the loop never ends, and so
    [compute_package] does not return for a package directory in which
    [get_bundle_list] finds no bundle. *)
Theorem get_partial_tree_hash_termination :
  (forall hashes : list bytes, hashes <> [] ->
      exists digest : bytes, forall fuel : nat, (length hashes <= fuel)%nat ->
        get_partial_tree_hash fuel hashes = Done digest)
  /\ (forall fuel : nat, get_partial_tree_hash fuel [] = OutOfFuel)
  /\ (forall (fuel : nat) (fs : filesystem) (pkg_num : Z) (log_dir : string) (tree_size : Z),
        get_bundle_list fs (path_join log_dir (build_package_name pkg_num)) tree_size = Done [] ->
        compute_package fuel fs pkg_num log_dir tree_size = OutOfFuel).
Proof.
  split; [|split].
  - intros hashes Hne. exists (MTH hashes). intros fuel Hlen.
    now apply get_partial_tree_hash_MTH.
  - apply get_partial_tree_hash_nil.
  - intros fuel fs pkg_num log_dir tree_size Hbl.
    unfold compute_package. rewrite Hbl. cbn [mbind outcome_bind for_each].
    now rewrite get_partial_tree_hash_nil.
Qed.

End merkle_tree_hash.

(** * The piece length of a torrent and the check of the bundle size *)

Lemma piece_length_div (files : list file_entry) :
  piece_length files = Z.max (2 ^ 15) (total_size files / 1500 / 2 ^ 13 * 2 ^ 13).
Proof.
  unfold piece_length.
  rewrite Z.shiftl_mul_pow2, Z.shiftr_div_pow2, Z.shiftl_mul_pow2 by lia.
  reflexivity.
Qed.

(** C8. The piece length chosen by [create_torrent] for a file list of
    total size [T] is [max(2^15, ((T // 1500) >> 13) << 13)] in exact integer
    arithmetic, the shifts being a division and a multiplication by [2^13];
    it is 32768 for [T = 3,000,000] and [T = 30,000,000], and 196608 for
    [T = 300,000,000]. *)
Theorem piece_length_formula :
  forall (files : list file_entry) (T : Z),
    total_size files = T ->
    piece_length files = Z.max (2 ^ 15) (Z.shiftl (Z.shiftr (T / 1500) 13) 13)
    /\ piece_length files = Z.max 32768 (T / 1500 / 8192 * 8192)
    /\ (T = 3000000 -> piece_length files = 32768)
    /\ (T = 30000000 -> piece_length files = 32768)
    /\ (T = 300000000 -> piece_length files = 196608).
Proof.
  intros files T HT. split; [|split].
  - unfold piece_length. rewrite HT. reflexivity.
  - rewrite piece_length_div, HT. reflexivity.
  - rewrite piece_length_div, HT. repeat split; intros ->; reflexivity.
Qed.

(** The test [bundle_size > 0 and bundle_size & (bundle_size - 1) == 0]
    holds of the powers of two and of nothing else. *)
Lemma bundle_size_ok_power_of_two (b : Z) :
  bundle_size_ok b = true <-> exists k : Z, 0 <= k /\ b = 2 ^ k.
Proof.
  unfold bundle_size_ok. rewrite andb_true_iff, Z.ltb_lt, Z.eqb_eq. split.
  - intros [Hpos Hland]. exists (Z.log2 b). split; [apply Z.log2_nonneg|].
    destruct (Z.log2_spec b Hpos) as [Hlo Hhi].
    destruct (Z.eq_dec b (2 ^ Z.log2 b)) as [|Hne]; [assumption|exfalso].
    assert (Hlog : Z.log2 (b - 1) = Z.log2 b).
    { apply Z.log2_unique; [apply Z.log2_nonneg|lia]. }
    assert (Hb1 : Z.testbit b (Z.log2 b) = true) by (apply Z.bit_log2; lia).
    assert (Hb2 : Z.testbit (b - 1) (Z.log2 b) = true).
    { rewrite <- Hlog. apply Z.bit_log2.
      pose proof (Z.pow_pos_nonneg 2 (Z.log2 b) ltac:(lia) (Z.log2_nonneg b)). lia. }
    assert (Hbit : Z.testbit (Z.land b (b - 1)) (Z.log2 b) = true)
      by (rewrite Z.land_spec, Hb1, Hb2; reflexivity).
    rewrite Hland, Z.bits_0 in Hbit. discriminate.
  - intros (k & Hk & ->). split.
    + apply Z.pow_pos_nonneg; lia.
    + replace (2 ^ k - 1) with (Z.ones k) by (rewrite Z.ones_equiv; lia).
      rewrite Z.land_ones by assumption. apply Z.mod_same.
      pose proof (Z.pow_pos_nonneg 2 k ltac:(lia) Hk). lia.
Qed.

(** The first thing [get_ct] does after the check is to create the
    directory of the log. *)
Lemma get_ct_run_starts_with_mkdir (w : world) (pkg_root_dir url log_list_file : string)
    (start_index step_size package_size bundle_size : Z) :
  exists tr r,
    get_ct_run w pkg_root_dir url log_list_file start_index step_size package_size bundle_size
    = (Mkdir pkg_root_dir :: tr, r).
Proof.
  unfold get_ct_run, io_bind at 1, io_emit.
  match goal with |- context [let (_, _) := ?c in _] => destruct c as [tr r] end.
  exists tr, r. reflexivity.
Qed.

(** C9. When [bundle_size] is not a positive power of two, [get_ct] raises
    the bundle-size exception and its trace is empty: no request was sent
    and nothing was written. When it is one, the check passes: [get_ct] is
    the rest of the function, which starts by creating the directory. *)
Theorem get_ct_bundle_size_guard (w : world) (pkg_root_dir url log_list_file : string)
    (start_index step_size package_size bundle_size : Z) :
  (~ (exists k : Z, 0 <= k /\ bundle_size = 2 ^ k) ->
     get_ct w pkg_root_dir url log_list_file start_index step_size package_size bundle_size
     = ([], Raise (Exception "bundle_size arg must be a power of 2")))
  /\ ((exists k : Z, 0 <= k /\ bundle_size = 2 ^ k) ->
      bundle_size_ok bundle_size = true
      /\ get_ct w pkg_root_dir url log_list_file start_index step_size package_size bundle_size
         = get_ct_run w pkg_root_dir url log_list_file start_index step_size package_size
             bundle_size
      /\ exists tr r,
          get_ct w pkg_root_dir url log_list_file start_index step_size package_size bundle_size
          = (Mkdir pkg_root_dir :: tr, r)).
Proof.
  unfold get_ct. split.
  - intros Hnot. destruct (bundle_size_ok bundle_size) eqn:Hok; [|reflexivity].
    exfalso. apply Hnot. now apply bundle_size_ok_power_of_two.
  - intros Hpow. apply bundle_size_ok_power_of_two in Hpow. rewrite Hpow.
    repeat split. apply get_ct_run_starts_with_mkdir.
Qed.

(** * Where a run resumes *)

Lemma sorted_elem_of (l : list string) (x : string) : x ∈ sorted l <-> x ∈ l.
Proof. unfold sorted. now rewrite merge_sort_Permutation. Qed.

Lemma StronglySorted_last_max (l : list string) (z : string) :
  StronglySorted String.le l -> last l = Some z -> forall y, y ∈ l -> String.le y z.
Proof.
  induction 1 as [|x l Hl IH Hall]; intros Hlast y Hy; [inversion Hy|].
  destruct l as [|x' l'].
  - simpl in Hlast. injection Hlast as <-. apply list_elem_of_singleton in Hy. subst. reflexivity.
  - change (last (x :: x' :: l')) with (last (x' :: l')) in Hlast.
    apply elem_of_cons in Hy as [->|Hy].
    + transitivity x'.
      * rewrite Forall_forall in Hall. apply Hall. left.
      * apply IH; [assumption|left].
    + now apply IH.
Qed.

(** The last name of a sorted and filtered listing is the greatest name of
    the listing that passes the filter. *)
Lemma last_sorted_filter (f : string -> bool) (l : list string) (x : string) :
  x ∈ l -> f x = true ->
  (forall y, y ∈ l -> f y = true -> String.le y x) ->
  last (sorted (List.filter f l)) = Some x.
Proof.
  intros Hx Hfx Hmax.
  assert (Hin : x ∈ sorted (List.filter f l)).
  { apply sorted_elem_of, list_elem_of_In, filter_In.
    split; [now apply list_elem_of_In|assumption]. }
  destruct (last (sorted (List.filter f l))) as [z|] eqn:Hlast.
  - f_equal. apply (anti_symm String.le).
    + assert (Hz : z ∈ sorted (List.filter f l)) by (apply last_Some_elem_of; assumption).
      apply sorted_elem_of, list_elem_of_In, filter_In in Hz as [Hz1 Hz2].
      apply Hmax; [now apply list_elem_of_In|assumption].
    + eapply StronglySorted_last_max; [|exact Hlast|exact Hin].
      apply Sorted_StronglySorted; [intros ? ? ? ? ?; etransitivity; eassumption|].
      unfold sorted. apply Sorted_merge_sort. apply _.
  - apply last_None in Hlast. rewrite Hlast in Hin. inversion Hin.
Qed.

Lemma last_sorted_filter_none (f : string -> bool) (l : list string) :
  (forall y, y ∈ l -> f y = false) -> last (sorted (List.filter f l)) = None.
Proof.
  intros Hnone. replace (List.filter f l) with (@nil string); [reflexivity|].
  symmetry. induction l as [|a l IH]; [reflexivity|]. simpl.
  rewrite (Hnone a) by left. apply IH. intros y Hy. apply Hnone. now right.
Qed.

(** C6. When the last package directory holds a bundle, and the last
    bundle name in lexicographic order spans [S] to [E] (the two numbers of
    its name), [discover_start_index] returns [E + 1] if the bundle is
    complete ([E - S + 1 = bundle_size]) and [S] if it is partial
    ([E - S + 1 < bundle_size]). *)
Theorem discover_start_index_resume (fs : filesystem) (package_root_dir : string)
    (package_size bundle_size : Z) (names bundle_names : list string)
    (last_package last_bundle : string) :
  listdir fs !! package_root_dir = Some names ->
  last_package ∈ names -> re_match package_name_re last_package = true ->
  (forall p, p ∈ names -> re_match package_name_re p = true -> String.le p last_package) ->
  listdir fs !! path_join package_root_dir last_package = Some bundle_names ->
  last_bundle ∈ bundle_names -> re_match bundle_name_re last_bundle = true ->
  (forall b, b ∈ bundle_names -> re_match bundle_name_re b = true -> String.le b last_bundle) ->
  let S := int_of_digits (bundle_group1 last_bundle) in
  let E := int_of_digits (bundle_group2 last_bundle) in
  (E - S + 1 = bundle_size ->
     discover_start_index fs package_root_dir package_size bundle_size = Done (E + 1))
  /\ (E - S + 1 < bundle_size ->
     discover_start_index fs package_root_dir package_size bundle_size = Done S).
Proof.
  intros Hroot Hp Hpre Hpmax Hdir Hb Hbre Hbmax S E.
  unfold discover_start_index. rewrite Hroot.
  rewrite (last_sorted_filter _ _ last_package) by assumption.
  unfold os_listdir. rewrite Hdir. cbn [mbind outcome_bind].
  rewrite (last_sorted_filter _ _ last_bundle) by assumption.
  fold S E. split; intros HSE.
  - now rewrite (proj2 (Z.eqb_eq _ _) HSE).
  - rewrite (proj2 (Z.eqb_neq _ _)) by lia. reflexivity.
Qed.

(** When the last package directory holds no bundle, the number that
    [discover_start_index] multiplies is read from the last component of
    [package_root_dir], the directory of the log: the name of the last
    package is not looked at. *)
Lemma discover_start_index_no_bundle (fs : filesystem) (package_root_dir : string)
    (package_size bundle_size : Z) (names bundle_names : list string) (last_package : string) :
  listdir fs !! package_root_dir = Some names ->
  last_package ∈ names -> re_match package_name_re last_package = true ->
  (forall p, p ∈ names -> re_match package_name_re p = true -> String.le p last_package) ->
  listdir fs !! path_join package_root_dir last_package = Some bundle_names ->
  (forall b, b ∈ bundle_names -> re_match bundle_name_re b = false) ->
  discover_start_index fs package_root_dir package_size bundle_size
  = (n ← py_int (default EmptyString (last (split os_sep package_root_dir)));
     Done (n * package_size * bundle_size)).
Proof.
  intros Hroot Hp Hpre Hpmax Hdir Hnone.
  unfold discover_start_index. rewrite Hroot.
  rewrite (last_sorted_filter _ _ last_package) by assumption.
  unfold os_listdir. rewrite Hdir. cbn [mbind outcome_bind].
  rewrite last_sorted_filter_none by assumption. reflexivity.
Qed.

(** C3. In the archive [/tmp/ct.googleapis.com_pilot], whose last package
    directory [001] is empty, [discover_start_index] does not return
    [1 * package_size * bundle_size]: it raises [ValueError], because it
    converts the name of the log directory. In an archive whose directory is
    named [7] it returns [7 * package_size * bundle_size] for the same
    package. *)
Theorem discover_start_index_empty_last_package :
  discover_start_index examples.empty_last_package_disk "/tmp/ct.googleapis.com_pilot" 1024 1024
    = Raise ValueError
  /\ discover_start_index examples.numeric_root_disk "/srv/7" 1024 1024
    = Done (7 * 1024 * 1024)
  /\ 7 * 1024 * 1024 <> 1 * 1024 * 1024.
Proof. repeat split; [vm_compute; reflexivity..|lia]. Qed.

(** * The bundles of a package *)

(** C5. With the two bundles [0000000000-0000000001] and
    [0000000000-0000000003] on the disk and a tree size of 2,
    [get_bundle_list] returns both names for the start index 0: the second
    one, whose end index 3 is above [tree_size - 1], is not left out. With a
    tree size of 4 it returns the second name alone. *)
Theorem get_bundle_list_keeps_stale_bundle :
  get_bundle_list examples.stale_bundle_disk "/log/000" 2
    = Done ["0000000000-0000000001.json.gz"; "0000000000-0000000003.json.gz"]
  /\ get_bundle_list examples.stale_bundle_disk "/log/000" 4
    = Done ["0000000000-0000000003.json.gz"].
Proof. split; vm_compute; reflexivity. Qed.

(** * The pieces of a torrent *)

Section pieces.
Context `{Pylib}.
Variable L : nat.
Hypothesis HL : (0 < L)%nat.

Lemma div_facts (a : nat) : (a = a / L * L + a mod L /\ a mod L < L)%nat.
Proof.
  split; [rewrite Nat.mul_comm; apply Nat.div_mod_eq|apply Nat.mod_upper_bound; lia].
Qed.

Lemma div_next (a b : nat) :
  (L <= a mod L + b)%nat -> (b <= L)%nat -> ((a + b) / L = a / L + 1)%nat.
Proof.
  intros H1 H2. destruct (div_facts a) as [Ha Hr].
  symmetry. apply (Nat.div_unique _ _ _ (a mod L + b - L)); nia.
Qed.

Lemma div_same (a b : nat) :
  (a mod L + b < L)%nat -> ((a + b) / L = a / L)%nat.
Proof.
  intros H1. destruct (div_facts a) as [Ha Hr].
  symmetry. apply (Nat.div_unique _ _ _ (a mod L + b)); nia.
Qed.

(** More bytes at the end do not change a piece that is already full. *)
Lemma piece_app (d b : bytes) (i : nat) :
  (i < length d / L)%nat -> piece L (d ++ b) i = piece L d i.
Proof.
  intros Hi. destruct (div_facts (length d)) as [Ha Hr]. unfold piece.
  rewrite drop_app_le by nia. apply take_app_le. rewrite length_drop. nia.
Qed.

Lemma digests_app (d b : bytes) (n : nat) :
  (n <= length d / L)%nat -> digests L (d ++ b) n = digests L d n.
Proof.
  intros Hn. unfold digests. apply map_ext_in. intros i Hi.
  apply in_seq in Hi. f_equal. apply piece_app. lia.
Qed.

(** One [s += buf] followed by the test [len(s) >= piece_length]. *)
Lemma read_so_far_step (d b p : bytes) (y : list bytes) :
  read_so_far L d (p, y) -> (length b <= L)%nat ->
  read_so_far L (d ++ b)
    (if (L <=? length (p ++ b))%nat then drop L (p ++ b) else p ++ b,
     if (L <=? length (p ++ b))%nat then y ++ [sha1 (take L (p ++ b))] else y).
Proof.
  intros [Hp Hy] Hb. simpl in Hp, Hy. destruct (div_facts (length d)) as [Ha Hr].
  assert (Hs : p ++ b = drop (length d / L * L) (d ++ b)).
  { rewrite drop_app_le by lia. now rewrite Hp. }
  assert (Hlen : length (p ++ b) = (length d mod L + length b)%nat).
  { rewrite length_app, Hp, length_drop. lia. }
  unfold read_so_far. rewrite (length_app d b). cbn [fst snd].
  destruct (Nat.leb_spec L (length (p ++ b))) as [Hfull|Hshort].
  - rewrite div_next by lia. split.
    + rewrite Hs, drop_drop. f_equal. lia.
    + unfold digests at 1. rewrite Nat.add_1_r, seq_S, map_app. cbn [map Nat.add].
      fold (digests L (d ++ b) (length d / L)). rewrite digests_app by lia.
      rewrite Hy, Hs. reflexivity.
  - rewrite div_same by lia. split; [exact Hs|].
    rewrite digests_app by lia. exact Hy.
Qed.

(** The loop that reads a file ends, with one unit of fuel per byte left
    and one more. *)
Lemma read_file_loop (fuel : nat) (d u : bytes) (r : reader) :
  read_so_far L d (pending r, yielded r) ->
  buf r = take L u -> unread r = drop L u ->
  (length u < fuel)%nat ->
  exists r', while fuel (fun r => negb (length (buf r) =? 0)%nat) (read_step L) r = Some r'
             /\ read_so_far L (d ++ u) (pending r', yielded r').
Proof.
  revert d u r. induction fuel as [|f IH]; intros d u r Hinv Hbuf Hun Hfuel; [lia|].
  cbn [while]. destruct (Nat.eqb_spec (length (buf r)) 0) as [Hz|Hnz]; cbn [negb].
  - exists r. split; [reflexivity|].
    assert (u = []) as ->.
    { rewrite Hbuf, length_take in Hz. destruct u; [reflexivity|simpl in Hz; lia]. }
    now rewrite app_nil_r.
  - replace (d ++ u) with ((d ++ take L u) ++ drop L u)
      by (now rewrite <- app_assoc, take_drop).
    apply (IH (d ++ take L u) (drop L u)).
    + unfold read_step. cbn [pending yielded]. rewrite Hbuf.
      apply read_so_far_step; [exact Hinv|]. rewrite length_take. lia.
    + unfold read_step. cbn [buf]. now rewrite Hun.
    + unfold read_step. cbn [unread]. now rewrite Hun.
    + rewrite length_drop. rewrite Hbuf, length_take in Hnz. lia.
Qed.

Lemma read_file_read_so_far (fuel : nat) (d content : bytes) (st : bytes * list bytes) :
  read_so_far L d st -> (length content < fuel)%nat ->
  exists st', read_file fuel L content st = Done st' /\ read_so_far L (d ++ content) st'.
Proof.
  intros Hinv Hfuel. unfold read_file.
  edestruct (read_file_loop fuel d content) as (r' & Hw & Hinv'); [| | |exact Hfuel|].
  4:{ rewrite Hw. eexists. split; [reflexivity|exact Hinv']. }
  - cbn [pending yielded]. now destruct st.
  - reflexivity.
  - reflexivity.
Qed.

Lemma get_pieces_loop (fuel : nat) (fs : filesystem) (pkg_root_dir : string)
    (files : list file_entry) (contents : list bytes) (d : bytes) (st : bytes * list bytes) :
  Forall2 (fun f content =>
             file_bytes fs !! path_join pkg_root_dir
                                 (str_join (String os_sep EmptyString) (f_path f))
             = Some content /\ (length content < fuel)%nat) files contents ->
  read_so_far L d st ->
  exists st',
    for_each files
      (fun st f =>
         let file_path :=
           path_join pkg_root_dir (str_join (String os_sep EmptyString) (f_path f)) in
         content ← open_rb fs file_path;
         read_file fuel L content st) st = Done st'
    /\ read_so_far L (d ++ concat contents) st'.
Proof.
  intros HF. revert d st.
  induction HF as [|f content fl cl [Hfile Hlen] _ IH]; intros d st Hinv.
  - exists st. simpl. rewrite app_nil_r. auto.
  - assert (Hopen : open_rb fs (path_join pkg_root_dir
                                 (str_join (String os_sep EmptyString) (f_path f)))
                    = Done content) by (unfold open_rb, bytes in *; now rewrite Hfile).
    cbn [for_each concat]. cbv beta zeta. rewrite Hopen. cbn [mbind outcome_bind].
    destruct (read_file_read_so_far fuel d content st Hinv Hlen) as (st1 & -> & Hinv1).
    cbn [mbind outcome_bind]. rewrite app_assoc. apply IH, Hinv1.
Qed.

(** For files of total size [T], [get_pieces] yields [T // piece_length + 1]
    digests, whatever [T] is: the digest of every full piece, then the
    digest of what is left, which is the empty string when [T] is a multiple
    of [piece_length]. *)
Lemma get_pieces_digests (fuel : nat) (fs : filesystem) (pkg_root_dir : string)
    (files : list file_entry) (contents : list bytes) :
  Forall2 (fun f content =>
             file_bytes fs !! path_join pkg_root_dir
                                 (str_join (String os_sep EmptyString) (f_path f))
             = Some content /\ (length content < fuel)%nat) files contents ->
  get_pieces fuel fs pkg_root_dir files L
  = Done (digests L (concat contents) (length (concat contents) / L + 1)).
Proof.
  intros HF. unfold get_pieces.
  destruct (get_pieces_loop fuel fs pkg_root_dir files contents [] ([], []) HF)
    as (st' & Hfor & [Hp Hy]).
  { split; cbn [fst snd length]; [now rewrite drop_nil|].
    rewrite Nat.Div0.div_0_l. reflexivity. }
  unfold bytes in *. rewrite Hfor.
  cbn [mbind outcome_bind]. simpl app in *. f_equal.
  unfold digests at 1. rewrite Nat.add_1_r, seq_S, map_app. cbn [map Nat.add].
  fold (digests L (concat contents) (length (concat contents) / L)).
  rewrite Hy, Hp. reflexivity.
Qed.

Lemma get_pieces_exact_multiple (data : bytes) (n : nat) :
  length data = (n * L)%nat ->
  digests L data (length data / L + 1) = digests L data n ++ [sha1 []]
  /\ length (digests L data (length data / L + 1)) = S n.
Proof.
  intros Hlen. rewrite Hlen, Nat.div_mul by lia. split.
  - unfold digests. rewrite Nat.add_1_r, seq_S, map_app. cbn [map Nat.add]. do 3 f_equal.
    unfold piece. rewrite drop_ge by lia. apply take_nil.
  - unfold digests. rewrite length_map, length_seq. lia.
Qed.

End pieces.

(** C4. For one file of four bytes and a piece length of 2, [get_pieces]
    yields three digests, not [ceil(4 / 2) = 2]: the digests of the two
    pieces, then the digest of the empty string. *)
Theorem get_pieces_extra_digest `{Pylib} :
  get_pieces 8 examples.four_byte_disk "/log" examples.four_byte_files 2
  = Done [sha1 [x01; x02]; sha1 [x03; x04]; sha1 []].
Proof. vm_compute. reflexivity. Qed.

(** * The inclusion proofs of the packages *)

(** C2. With two packages, of hashes [h0] and [h1], [compute_proofs] run
    for the packages 0 to 1 returns the root [H(0x01 || h0 || h1)] and
    writes the proof [[h1]] for package 0, but the empty proof for package
    1: the audit path of package 1 is [[h0]], and the empty list does not
    lead from [h1] to the root. *)
Theorem compute_proofs_two_packages `{Pylib} (h0 h1 : bytes) :
  match compute_proofs 8 (examples.packages_disk [h0; h1]) "/log" 5 0 1 with
  | Done (fs', root) =>
      root = b64encode (node_hash h0 h1)
      /\ info_files fs' !! "/log/000-0000000005.info"
         = Some {| pkg_hash := h0; merkle_proof := [h1] |}
      /\ info_files fs' !! "/log/001-0000000005.info"
         = Some {| pkg_hash := h1; merkle_proof := [] |}
  | _ => False
  end
  /\ PATH 1 [h0; h1] = [h0]
  /\ root_from_audit_path 1 2 h1 [h0] = Some (node_hash h0 h1)
  /\ root_from_audit_path 1 2 h1 [] = None.
Proof. vm_compute. repeat split; reflexivity. Qed.

(** With three packages the proof written for package 2 is [[h1]], where
    its audit path is [[H(0x01 || h0 || h1)]]; with four packages every
    proof written is the audit path. *)
Lemma compute_proofs_three_packages `{Pylib} (h0 h1 h2 : bytes) :
  match compute_proofs 8 (examples.packages_disk [h0; h1; h2]) "/log" 5 0 2 with
  | Done (fs', root) =>
      root = b64encode (node_hash (node_hash h0 h1) h2)
      /\ info_files fs' !! "/log/002-0000000005.info"
         = Some {| pkg_hash := h2; merkle_proof := [h1] |}
  | _ => False
  end
  /\ PATH 2 [h0; h1; h2] = [node_hash h0 h1].
Proof. vm_compute. repeat split; reflexivity. Qed.

Lemma compute_proofs_four_packages `{Pylib} (h0 h1 h2 h3 : bytes) :
  match compute_proofs 8 (examples.packages_disk [h0; h1; h2; h3]) "/log" 5 0 3 with
  | Done (fs', root) =>
      root = b64encode (MTH [h0; h1; h2; h3])
      /\ Forall (fun k : nat =>
           merkle_proof <$> info_files fs' !! path_join "/log" (examples.info_name (Z.of_nat k))
           = Some (PATH k [h0; h1; h2; h3])
           /\ root_from_audit_path (N.of_nat k) 4 (nth k [h0; h1; h2; h3] [])
                (PATH k [h0; h1; h2; h3])
              = Some (MTH [h0; h1; h2; h3])) [0; 1; 2; 3]%nat
  | _ => False
  end.
Proof. vm_compute. repeat constructor. Qed.

(** * The json module: reading back what [dumps] wrote *)

Section json_round_trip.
Import json.

Lemma string_app_assoc (a b c : string) : ((a ++ b) ++ c = a ++ (b ++ c))%string.
Proof.
  induction a as [|x a IH]; [reflexivity|].
  change (String x ((a ++ b) ++ c) = String x (a ++ (b ++ c)))%string. now rewrite IH.
Qed.

Lemma string_app_nil_r (a : string) : (a ++ EmptyString)%string = a.
Proof.
  induction a as [|x a IH]; [reflexivity|].
  change (String x (a ++ EmptyString) = String x a)%string. now rewrite IH.
Qed.

Lemma rev_app_rev_app (d acc t : string) :
  String.rev_app (String.rev_app d acc) t = String.rev_app acc (d ++ t)%string.
Proof.
  revert acc. induction d as [|c d IH]; intros acc; [reflexivity|].
  cbn [String.rev_app]. now rewrite IH.
Qed.

Lemma rev_rev_app (d acc : string) :
  String.rev (String.rev_app d acc) = String.rev_app acc d.
Proof. unfold String.rev. now rewrite rev_app_rev_app, string_app_nil_r. Qed.

(** ** Strings *)

Lemma scan_string_escape_char (c : ascii) (rest acc : string) :
  scan_string (escape_char c ++ rest) acc = scan_string rest (String c acc).
Proof. destruct c as [[] [] [] [] [] [] [] []]; reflexivity. Qed.

Lemma scan_string_escape (s rest acc : string) :
  scan_string (escape s ++ String quote_char rest) acc
  = Some (String.rev (String.rev_app s acc), rest).
Proof.
  revert acc. induction s as [|c s IH]; intros acc; [reflexivity|].
  cbn [escape]. rewrite string_app_assoc, scan_string_escape_char, IH. reflexivity.
Qed.

Lemma scan_string_dumps_str (s rest : string) :
  scan_string (escape s ++ String quote_char rest) EmptyString = Some (s, rest).
Proof. rewrite scan_string_escape, rev_rev_app. reflexivity. Qed.

(** ** Integers *)

Lemma pretty_N_char_digit (x : N) :
  (x < 10)%N -> is_digit (pretty_N_char x) = true /\ digit_value (pretty_N_char x) = Z.of_N x.
Proof.
  intros Hx.
  assert (x = 0 \/ x = 1 \/ x = 2 \/ x = 3 \/ x = 4 \/ x = 5 \/ x = 6 \/ x = 7 \/ x = 8 \/ x = 9)%N
    as Hc by lia.
  repeat (destruct Hc as [->|Hc]; [split; reflexivity|]). subst. split; reflexivity.
Qed.

Lemma pretty_N_go_digits (x : N) (s : string) :
  all_digits s -> all_digits (pretty_N_go x s).
Proof.
  revert s. induction (N.lt_wf_0 x) as [x _ IH]; intros s Hs.
  destruct (N.eq_dec x 0%N) as [->|Hx]; [now rewrite pretty_N_go_0|].
  rewrite pretty_N_go_step by lia. apply IH.
  - apply N.div_lt; lia.
  - constructor; [|exact Hs]. apply pretty_N_char_digit. apply N.mod_lt. lia.
Qed.

Lemma pretty_N_go_value (x : N) (s : string) :
  value_from 0 (pretty_N_go x s) = value_from (Z.of_N x) s.
Proof.
  revert s. induction (N.lt_wf_0 x) as [x _ IH]; intros s.
  destruct (N.eq_dec x 0%N) as [->|Hx]; [now rewrite pretty_N_go_0|].
  rewrite pretty_N_go_step by lia. rewrite IH by (apply N.div_lt; lia).
  unfold value_from. cbn [list_ascii_of_string fold_left]. f_equal.
  rewrite (proj2 (pretty_N_char_digit (x mod 10)%N ltac:(apply N.mod_lt; lia))).
  rewrite N2Z.inj_div, N2Z.inj_mod. change (Z.of_N 10) with 10.
  pose proof (Z.div_mod (Z.of_N x) 10 ltac:(lia)). lia.
Qed.

(** The first digit of a positive number is not 0. *)
Lemma pretty_N_go_first (x : N) (s : string) :
  (0 < x)%N ->
  exists c t, pretty_N_go x s = String c t /\ is_digit c = true /\ Ascii.eqb c "0" = false.
Proof.
  revert s. induction (N.lt_wf_0 x) as [x _ IH]; intros s Hx.
  rewrite pretty_N_go_step by lia.
  destruct (N.eq_dec (x / 10)%N 0%N) as [Hz|Hnz].
  - rewrite Hz, pretty_N_go_0. eexists _, _. split; [reflexivity|].
    assert (x < 10)%N.
    { pose proof (N.div_mod x 10 ltac:(lia)) as Hdm.
      pose proof (N.mod_lt x 10 ltac:(lia)). rewrite Hz in Hdm. lia. }
    rewrite N.mod_small by lia.
    assert (x = 1 \/ x = 2 \/ x = 3 \/ x = 4 \/ x = 5 \/ x = 6 \/ x = 7 \/ x = 8 \/ x = 9)%N
      as Hc by lia.
    repeat (destruct Hc as [->|Hc]; [split; reflexivity|]). subst. split; reflexivity.
  - apply IH; [apply N.div_lt; lia|now apply N.neq_0_lt_0].
Qed.

Lemma span_digits_all (d rest acc : string) :
  all_digits d -> int_end rest = true ->
  span_digits (d ++ rest) acc = (String.rev (String.rev_app d acc), rest).
Proof.
  intros Hd Hrest. revert acc. unfold all_digits in Hd.
  induction d as [|c d IH]; intros acc.
  - change (EmptyString ++ rest)%string with rest. cbn [String.rev_app].
    destruct rest as [|r rest]; [reflexivity|]. cbn [span_digits].
    cbn [int_end] in Hrest. apply andb_true_iff in Hrest as [Hr _].
    apply negb_true_iff in Hr. now rewrite Hr.
  - cbn [list_ascii_of_string] in Hd. apply Forall_cons in Hd as [Hc Hd].
    change (String c d ++ rest)%string with (String c (d ++ rest)).
    cbn [span_digits String.rev_app]. rewrite Hc. now apply IH.
Qed.

Lemma int_end_no_fraction (rest : string) : int_end rest = true -> no_fraction rest = true.
Proof.
  destruct rest; [reflexivity|]. cbn [int_end]. intros H. now apply andb_true_iff in H.
Qed.

Lemma scan_unsigned_pretty (x : N) (rest : string) :
  int_end rest = true ->
  scan_unsigned (pretty x ++ rest) = Some (Z.of_N x, rest).
Proof.
  intros Hrest. unfold pretty, pretty_N. destruct (decide (x = 0%N)) as [->|Hx].
  - change ("0" ++ rest)%string with (String "0" rest). cbn [scan_unsigned Ascii.eqb Bool.eqb].
    now rewrite int_end_no_fraction.
  - destruct (pretty_N_go_first x EmptyString ltac:(lia)) as (c & t & Hct & Hdig & Hnz).
    assert (Hall : all_digits (pretty_N_go x EmptyString))
      by (apply pretty_N_go_digits; constructor).
    pose proof (span_digits_all _ rest EmptyString Hall Hrest) as Hspan.
    rewrite rev_rev_app in Hspan. cbn [String.rev_app] in Hspan.
    pose proof (pretty_N_go_value x EmptyString) as Hval.
    revert Hspan Hval. rewrite Hct.
    change (String c t ++ rest)%string with (String c (t ++ rest)). intros Hspan Hval.
    unfold scan_unsigned. rewrite Hnz, Hdig, Hspan, int_end_no_fraction by assumption.
    unfold int_of_digits. unfold value_from in Hval. rewrite Hval. reflexivity.
Qed.

Lemma dumps_int_first (n : Z) (rest : string) :
  exists c t, (dumps_int n ++ rest)%string = String c t
              /\ (is_digit c = true \/ c = "-"%char).
Proof.
  unfold dumps_int. destruct (n <? 0).
  - eexists _, _. split; [reflexivity|]. now right.
  - unfold pretty, pretty_N. destruct (decide _).
    + eexists _, _. split; [reflexivity|]. now left.
    + destruct (pretty_N_go_first (Z.to_N n) EmptyString ltac:(lia)) as (c & t & -> & Hd & _).
      eexists _, _. split; [reflexivity|]. now left.
Qed.

Lemma scan_int_dumps_int (n : Z) (rest : string) :
  int_end rest = true -> scan_int (dumps_int n ++ rest) = Some (n, rest).
Proof.
  intros Hrest. unfold dumps_int. destruct (Z.ltb_spec n 0) as [Hneg|Hpos].
  - change (String "-" (pretty (Z.to_N (- n))) ++ rest)%string
      with (String "-" (pretty (Z.to_N (- n)) ++ rest)).
    cbn [scan_int Ascii.eqb Bool.eqb]. rewrite scan_unsigned_pretty by assumption.
    f_equal. f_equal. lia.
  - pose proof (scan_unsigned_pretty (Z.to_N n) rest Hrest) as Hscan.
    destruct (dumps_int_first n rest) as (c & t & Hct & Hc).
    unfold dumps_int in Hct. rewrite (proj2 (Z.ltb_ge n 0)) in Hct by lia.
    rewrite Hct in *. cbn [scan_int].
    assert (Hminus : Ascii.eqb c "-" = false).
    { destruct Hc as [Hd| ->].
      - destruct c as [[] [] [] [] [] [] [] []]; try discriminate Hd; reflexivity.
      - exfalso. cbn [scan_unsigned Ascii.eqb Bool.eqb is_digit] in Hscan. discriminate. }
    rewrite Hminus, Hscan. f_equal. f_equal. lia.
Qed.

(** ** Values *)

Lemma value_start_facts (c : ascii) :
  value_start c = true ->
  is_ws c = false /\ Ascii.eqb c "]" = false /\ Ascii.eqb c "}" = false.
Proof.
  destruct c as [[] [] [] [] [] [] [] []]; intros Hc; try discriminate Hc; repeat split.
Qed.

Lemma dumps_first (v : value) (rest : string) :
  exists c t, (dumps v ++ rest)%string = String c t /\ value_start c = true.
Proof.
  destruct v as [|[]|n|s|l|d]; try (eexists _, _; split; reflexivity).
  cbn [dumps]. destruct (dumps_int_first n rest) as (c & t & -> & [Hc| ->]).
  - exists c, t. split; [reflexivity|]. unfold value_start. now rewrite Hc.
  - eexists _, _. split; reflexivity.
Qed.

Lemma scan_value_space (fuel : nat) (s : string) :
  scan_value fuel (String " " s) = scan_value fuel s.
Proof. destruct fuel; reflexivity. Qed.

Lemma scan_value_int (fuel : nat) (c : ascii) (rest : string) :
  is_digit c = true \/ c = "-"%char ->
  scan_value (S fuel) (String c rest)
  = match scan_int (String c rest) with
    | Some (z, rest1) => Some (JInt z, rest1)
    | None => None
    end.
Proof.
  intros [Hc| ->]; [|reflexivity].
  destruct c as [[] [] [] [] [] [] [] []]; try discriminate Hc; reflexivity.
Qed.

Lemma skip_ws_comma (s : string) : skip_ws (String "," s) = String "," s.
Proof. reflexivity. Qed.

Lemma skip_ws_start (c : ascii) (s : string) :
  value_start c = true -> skip_ws (String c s) = String c s.
Proof.
  intros Hc. apply value_start_facts in Hc as (Hws & _). cbn [skip_ws]. now rewrite Hws.
Qed.

Lemma int_end_comma (s : string) : int_end (String "," s) = true.
Proof. reflexivity. Qed.

Lemma str_join_cons (sep x y : string) (l : list string) :
  str_join sep (x :: y :: l) = (x ++ sep ++ str_join sep (y :: l))%string.
Proof. reflexivity. Qed.

Lemma sizes_cons (v : value) (l : list value) : element_sizes (v :: l) = (S (value_size v) + element_sizes l)%nat.
Proof. reflexivity. Qed.

Lemma scan_elements_dumps (l : list value) :
  Forall round_trips l -> l <> [] ->
  forall (acc : list value) (fuel : nat) (rest s : string),
    (element_sizes l < fuel)%nat ->
    (let J := (str_join ", " (map dumps l) ++ String "]" rest)%string in
     s = J \/ s = String " " J) ->
    scan_elements fuel s acc = Some (acc ++ l, rest).
Proof.
  induction 1 as [|v l Hv Hl IH]; [congruence|]. intros _ acc fuel rest s Hfuel Hs.
  destruct fuel as [|f]; [lia|]. rewrite sizes_cons in Hfuel.
  cbn [scan_elements].
  assert (Hscan : forall tail, int_end tail = true ->
            s = (dumps v ++ tail)%string \/ s = String " " (dumps v ++ tail) ->
            scan_value f s = Some (v, tail)).
  { intros tail Htail [-> | ->]; [|rewrite scan_value_space]; apply Hv; (lia || assumption). }
  destruct l as [|v2 l2].
  - cbn [map str_join] in Hs. rewrite (Hscan (String "]" rest)) by (reflexivity || exact Hs).
    reflexivity.
  - cbn [map] in Hs. rewrite str_join_cons, string_app_assoc in Hs.
    change (", " ++ str_join ", " (dumps v2 :: map dumps l2))%string
      with (String "," (String " " (str_join ", " (map dumps (v2 :: l2))))) in Hs.
    change (String "," (String " " (str_join ", " (map dumps (v2 :: l2)))) ++ String "]" rest)%string
      with (String "," (String " " (str_join ", " (map dumps (v2 :: l2)) ++ String "]" rest))) in Hs.
    rewrite (Hscan _ (int_end_comma _) Hs).
    rewrite skip_ws_comma. cbv iota beta.
    change (Ascii.eqb "," "]") with false. change (Ascii.eqb "," ",") with true. cbv iota.
    rewrite (IH ltac:(discriminate) (acc ++ [v]) f rest _); [now rewrite <- app_assoc|lia|].
    right. reflexivity.
Qed.

Lemma dict_set_fresh (k : string) (v : value) (d : list (string * value)) :
  k ∉ map fst d -> dict_set k v d = d ++ [(k, v)].
Proof.
  induction d as [|[k' v'] d IH]; intros Hk; [reflexivity|].
  cbn [dict_set map fst] in *. apply not_elem_of_cons in Hk as [Hne Hk].
  rewrite (proj2 (String.eqb_neq k k')) by assumption. cbn [app]. now rewrite IH.
Qed.

Lemma member_sizes_cons (kv : string * value) (d : list (string * value)) :
  member_sizes (kv :: d) = (S (value_size kv.2) + member_sizes d)%nat.
Proof. reflexivity. Qed.

(** The text of a dumps_member, from the quote of its key on. *)
Lemma member_app (k : string) (v : value) (tail : string) :
  (dumps_member (k, v) ++ tail)%string
  = String quote_char (escape k ++ String quote_char (String ":" (String " " (dumps v ++ tail)))).
Proof.
  unfold dumps_member, dumps_str. cbn [fst snd].
  change (String quote_char (escape k ++ String quote_char EmptyString) ++ ": " ++ dumps v)%string
    with (String quote_char ((escape k ++ String quote_char EmptyString) ++ ": " ++ dumps v)).
  change (String quote_char ?a ++ tail)%string with (String quote_char (a ++ tail)).
  f_equal. rewrite !string_app_assoc. reflexivity.
Qed.

Lemma scan_members_dumps (d : list (string * value)) :
  Forall (fun kv => round_trips kv.2) d -> d <> [] ->
  forall (acc : list (string * value)) (fuel : nat) (rest : string),
    NoDup (map fst (acc ++ d)) ->
    (member_sizes d < fuel)%nat ->
    scan_members fuel (str_join ", " (map dumps_member d) ++ String "}" rest) acc
    = Some (acc ++ d, rest).
Proof.
  induction 1 as [|[k v] d Hv Hd IH]; [congruence|]. intros _ acc fuel rest Hnd Hfuel.
  destruct fuel as [|f]; [lia|]. rewrite member_sizes_cons in Hfuel. cbn [fst snd] in *.
  assert (Hfresh : dict_set k v acc = acc ++ [(k, v)]).
  { apply dict_set_fresh. rewrite map_app in Hnd. apply NoDup_app in Hnd as (_ & Hdisj & _).
    intros Hin. apply (Hdisj k Hin). cbn [map fst]. left. }
  assert (Hstep : forall tail : string,
            int_end tail = true ->
            scan_members (S f) (dumps_member (k, v) ++ tail) acc
            = match skip_ws tail with
              | String c4 rest4 =>
                  if Ascii.eqb c4 "}" then Some (acc ++ [(k, v)], rest4)
                  else if Ascii.eqb c4 "," then scan_members f (skip_ws rest4) (acc ++ [(k, v)])
                  else None
              | EmptyString => None
              end).
  { intros tail Htail. rewrite member_app. cbn [scan_members].
    change (Ascii.eqb quote_char quote_char) with true. cbv iota.
    rewrite scan_string_dumps_str.
    change (skip_ws (String ":" ?x)) with (String ":" x). cbv iota beta.
    change (Ascii.eqb ":" ":") with true. cbv iota.
    rewrite scan_value_space, Hv by (lia || assumption). now rewrite Hfresh. }
  destruct d as [|kv2 d2].
  - cbn [map str_join]. rewrite Hstep by reflexivity. reflexivity.
  - cbn [map]. rewrite str_join_cons, string_app_assoc.
    change (", " ++ str_join ", " (dumps_member kv2 :: map dumps_member d2))%string
      with (String "," (String " " (str_join ", " (map dumps_member (kv2 :: d2))))).
    change (String "," (String " " (str_join ", " (map dumps_member (kv2 :: d2)))) ++ String "}" rest)%string
      with (String "," (String " " (str_join ", " (map dumps_member (kv2 :: d2)) ++ String "}" rest))).
    rewrite Hstep by reflexivity. rewrite skip_ws_comma. cbv iota beta.
    change (Ascii.eqb "," "}") with false. change (Ascii.eqb "," ",") with true. cbv iota.
    assert (Hskip : forall x, skip_ws (String " " x) = skip_ws x) by reflexivity.
    rewrite Hskip.
    assert (Hq : forall tail, skip_ws (str_join ", " (map dumps_member (kv2 :: d2)) ++ tail)
                              = (str_join ", " (map dumps_member (kv2 :: d2)) ++ tail)%string).
    { intros tail. destruct kv2 as [k2 v2]. destruct d2 as [|kv3 d3].
      - cbn [map str_join]. rewrite member_app. reflexivity.
      - cbn [map]. rewrite str_join_cons, string_app_assoc, member_app. reflexivity. }
    rewrite Hq.
    rewrite (IH ltac:(discriminate) (acc ++ [(k, v)]) f rest); [now rewrite <- app_assoc| |lia].
    now rewrite <- app_assoc.
Qed.

Lemma well_formed_list (l : list value) :
  fold_right (fun x P => well_formed x /\ P) True l <-> Forall well_formed l.
Proof.
  induction l as [|x l IH]; cbn [fold_right]; [split; constructor|].
  rewrite IH. split; [intros [? ?]; now constructor|intros H; now apply Forall_cons in H].
Qed.

Lemma well_formed_dict (d : list (string * value)) :
  fold_right (fun (kv : string * value) P => well_formed kv.2 /\ P) True d
  <-> Forall (fun kv => well_formed kv.2) d.
Proof.
  induction d as [|x d IH]; cbn [fold_right]; [split; constructor|].
  rewrite IH. split; [intros [? ?]; now constructor|intros H; now apply Forall_cons in H].
Qed.

Lemma sizes_elem (l : list value) (x : value) : x ∈ l -> (value_size x < element_sizes l)%nat.
Proof.
  induction l as [|y l IH]; intros Hx; [inversion Hx|].
  rewrite sizes_cons. apply elem_of_cons in Hx as [->|Hx]; [lia|]. apply IH in Hx. lia.
Qed.

Lemma member_sizes_elem (d : list (string * value)) (kv : string * value) :
  kv ∈ d -> (value_size kv.2 < member_sizes d)%nat.
Proof.
  induction d as [|y d IH]; intros Hx; [inversion Hx|].
  rewrite member_sizes_cons. apply elem_of_cons in Hx as [->|Hx]; [lia|]. apply IH in Hx. lia.
Qed.

Lemma scan_value_dumps_bounded (n : nat) (v : value) :
  (value_size v <= n)%nat -> well_formed v -> round_trips v.
Proof.
  revert v. induction n as [|n IH]; intros v Hn Hwf.
  { destruct v; simpl in Hn; lia. }
  intros fuel rest Hfuel Hrest. destruct fuel as [|f]; [lia|].
  destruct v as [|b|z|s|l|d].
  - reflexivity.
  - destruct b; reflexivity.
  - cbn [dumps]. destruct (dumps_int_first z rest) as (c & t & Hct & Hc).
    pose proof (scan_int_dumps_int z rest Hrest) as Hint. rewrite Hct in *.
    rewrite scan_value_int by assumption. now rewrite Hint.
  - cbn [dumps]. unfold dumps_str.
    change (String quote_char (escape s ++ String quote_char EmptyString) ++ rest)%string
      with (String quote_char ((escape s ++ String quote_char EmptyString) ++ rest)).
    rewrite string_app_assoc.
    change (String quote_char EmptyString ++ rest)%string with (String quote_char rest).
    cbn [scan_value]. change (skip_ws (String quote_char ?x)) with (String quote_char x).
    cbv iota beta. change (Ascii.eqb quote_char quote_char) with true. cbv iota.
    now rewrite scan_string_dumps_str.
  - cbn [well_formed] in Hwf. apply well_formed_list in Hwf.
    cbn [value_size] in Hn, Hfuel. fold (element_sizes l) in Hn, Hfuel.
    assert (Hall : Forall round_trips l).
    { apply Forall_forall. intros x Hx. apply IH.
      - apply sizes_elem in Hx. lia.
      - rewrite Forall_forall in Hwf. now apply Hwf. }
    cbn [dumps].
    change ("[" ++ str_join ", " (map dumps l) ++ "]")%string
      with (String "[" (str_join ", " (map dumps l) ++ "]")).
    change (String "[" ?a ++ rest)%string with (String "[" (a ++ rest)).
    rewrite string_app_assoc. change ("]" ++ rest)%string with (String "]" rest).
    cbn [scan_value]. change (skip_ws (String "[" ?x)) with (String "[" x).
    cbv iota beta. change (Ascii.eqb "[" quote_char) with false.
    change (Ascii.eqb "[" "{") with false. change (Ascii.eqb "[" "[") with true. cbv iota.
    destruct l as [|x l'].
    + reflexivity.
    + pose proof (scan_elements_dumps (x :: l') Hall ltac:(discriminate) [] f rest _
                    ltac:(lia) (or_introl eq_refl)) as Hscan.
      revert Hscan. cbn [map]. 
      destruct (dumps_first x (match l' with [] => String "]" rest
                  | _ => (", " ++ str_join ", " (map dumps l') ++ String "]" rest)%string end))
        as (c & t & Hct & Hc).
      assert (Hstr : (str_join ", " (dumps x :: map dumps l') ++ String "]" rest)%string
                     = String c t).
      { rewrite <- Hct. destruct l' as [|y l'']; [reflexivity|].
        cbn [map]. now rewrite str_join_cons, !string_app_assoc. }
      rewrite Hstr. intros Hscan. rewrite skip_ws_start by assumption.
      destruct (value_start_facts c Hc) as (_ & Hb & _). rewrite Hb, Hscan. reflexivity.
  - cbn [well_formed] in Hwf. destruct Hwf as [Hnd Hwf]. apply well_formed_dict in Hwf.
    cbn [value_size] in Hn, Hfuel. fold (member_sizes d) in Hn, Hfuel.
    assert (Hall : Forall (fun kv => round_trips kv.2) d).
    { apply Forall_forall. intros x Hx. apply IH.
      - apply member_sizes_elem in Hx. lia.
      - rewrite Forall_forall in Hwf. now apply Hwf. }
    cbn [dumps]. fold dumps_member.
    change ("{" ++ str_join ", " (map dumps_member d) ++ "}")%string
      with (String "{" (str_join ", " (map dumps_member d) ++ "}")).
    change (String "{" ?a ++ rest)%string with (String "{" (a ++ rest)).
    rewrite string_app_assoc. change ("}" ++ rest)%string with (String "}" rest).
    cbn [scan_value]. change (skip_ws (String "{" ?x)) with (String "{" x).
    cbv iota beta. change (Ascii.eqb "{" quote_char) with false.
    change (Ascii.eqb "{" "{") with true. cbv iota.
    destruct d as [|[k x] d'].
    + reflexivity.
    + pose proof (scan_members_dumps ((k, x) :: d') Hall ltac:(discriminate) [] f rest
                    Hnd ltac:(lia)) as Hscan.
      revert Hscan.
      assert (Hstr : exists t, (str_join ", " (map dumps_member ((k, x) :: d')) ++ String "}" rest)%string
                     = String quote_char t).
      { destruct d' as [|y d'']; cbn [map].
        - cbn [str_join]. rewrite member_app. eexists. reflexivity.
        - rewrite str_join_cons, string_app_assoc, member_app. eexists. reflexivity. }
      destruct Hstr as [t Hstr]. rewrite Hstr. intros Hscan.
      change (skip_ws (String quote_char t)) with (String quote_char t). cbv iota beta.
      change (Ascii.eqb quote_char "}") with false. cbv iota.
      rewrite Hscan. reflexivity.
Qed.

(** ** The whole text *)

Lemma string_length_app (a b : string) :
  String.length (a ++ b) = (String.length a + String.length b)%nat.
Proof.
  induction a as [|x a IH]; [reflexivity|].
  change (String x a ++ b)%string with (String x (a ++ b)). cbn [String.length]. now rewrite IH.
Qed.

Lemma dumps_nonempty (v : value) : (1 <= String.length (dumps v))%nat.
Proof.
  destruct (dumps_first v EmptyString) as (c & t & Hct & _).
  rewrite string_app_nil_r in Hct. rewrite Hct. cbn [String.length]. lia.
Qed.

Lemma sizes_le_length (l : list value) :
  Forall (fun x => (value_size x <= String.length (dumps x))%nat) l ->
  (element_sizes l <= String.length (str_join ", " (map dumps l)) + 1)%nat.
Proof.
  induction 1 as [|x l Hx Hl IH]; [unfold element_sizes; simpl; lia|]. rewrite sizes_cons. cbv beta in Hx.
  destruct l as [|y l'].
  - cbn [map str_join]. change (element_sizes []) with 0%nat. lia.
  - cbn [map] in *. rewrite str_join_cons, !string_length_app.
    change (String.length ", ") with 2%nat. lia.
Qed.

Lemma member_sizes_le_length (d : list (string * value)) :
  Forall (fun kv : string * value => (value_size kv.2 <= String.length (dumps kv.2))%nat) d ->
  (member_sizes d <= String.length (str_join ", " (map dumps_member d)) + 1)%nat.
Proof.
  assert (Hm : forall kv : string * value,
            (value_size kv.2 <= String.length (dumps kv.2))%nat ->
            (S (value_size kv.2) <= String.length (dumps_member kv))%nat).
  { intros kv Hkv. unfold dumps_member. rewrite !string_length_app.
    change (String.length ": ") with 2%nat. lia. }
  induction 1 as [|x d Hx Hd IH]; [unfold member_sizes; simpl; lia|]. rewrite member_sizes_cons.
  apply Hm in Hx. cbv beta in Hx. destruct d as [|y d'].
  - cbn [map str_join]. change (member_sizes []) with 0%nat. lia.
  - cbn [map] in *. rewrite str_join_cons, !string_length_app.
    change (String.length ", ") with 2%nat. lia.
Qed.

Lemma size_le_length_bounded (n : nat) (v : value) :
  (value_size v <= n)%nat -> (value_size v <= String.length (dumps v))%nat.
Proof.
  revert v. induction n as [|n IH]; intros v Hn.
  { destruct v; simpl in Hn; lia. }
  destruct v as [|b|z|s|l|d]; try apply dumps_nonempty.
  - cbn [value_size] in *. fold (element_sizes l) in *. cbn [dumps].
    change ("[" ++ str_join ", " (map dumps l) ++ "]")%string
      with (String "[" (str_join ", " (map dumps l) ++ "]")).
    cbn [String.length]. rewrite string_length_app. change (String.length "]") with 1%nat.
    enough (element_sizes l <= String.length (str_join ", " (map dumps l)) + 1)%nat by lia.
    apply sizes_le_length, Forall_forall. intros x Hx. apply IH.
    apply sizes_elem in Hx. lia.
  - cbn [value_size] in *. fold (member_sizes d) in *. cbn [dumps]. fold dumps_member.
    change ("{" ++ str_join ", " (map dumps_member d) ++ "}")%string
      with (String "{" (str_join ", " (map dumps_member d) ++ "}")).
    cbn [String.length]. rewrite string_length_app. change (String.length "}") with 1%nat.
    enough (member_sizes d <= String.length (str_join ", " (map dumps_member d)) + 1)%nat by lia.
    apply member_sizes_le_length, Forall_forall. intros x Hx. apply IH.
    apply member_sizes_elem in Hx. lia.
Qed.

(** [json.loads(json.dumps(v))] is [v]. *)
Lemma loads_dumps (v : value) : well_formed v -> loads (dumps v) = Some v.
Proof.
  intros Hwf. unfold loads.
  pose proof (scan_value_dumps_bounded (value_size v) v (le_n _) Hwf
                (2 + String.length (dumps v))%nat EmptyString) as Hscan.
  rewrite string_app_nil_r in Hscan. rewrite Hscan; [reflexivity| |reflexivity].
  pose proof (size_le_length_bounded (value_size v) v (le_n _)). lia.
Qed.

(** ** What loads builds is well formed *)

Lemma dict_set_keys (k : string) (v : value) (d : list (string * value)) :
  map fst (dict_set k v d) = map fst d
  \/ ((k ∉ map fst d) /\ map fst (dict_set k v d) = map fst d ++ [k]).
Proof.
  induction d as [|[k' v'] d IH]; [right; split; [apply not_elem_of_nil|reflexivity]|].
  cbn [dict_set map fst]. destruct (String.eqb_spec k k') as [->|Hne]; [now left|].
  cbn [map fst]. destruct IH as [->|[Hk ->]]; [now left|right].
  split; [|reflexivity]. apply not_elem_of_cons. now split.
Qed.

Lemma dict_set_well_formed (k : string) (v : value) (d : list (string * value)) :
  well_formed v ->
  NoDup (map fst d) /\ Forall (fun kv => well_formed kv.2) d ->
  NoDup (map fst (dict_set k v d)) /\ Forall (fun kv => well_formed kv.2) (dict_set k v d).
Proof.
  intros Hv [Hnd Hall]. split.
  - destruct (dict_set_keys k v d) as [->|[Hk ->]]; [assumption|].
    apply NoDup_app. repeat split; [assumption| |apply NoDup_singleton].
    intros x Hx Hx'. apply list_elem_of_singleton in Hx'. now subst.
  - clear Hnd. induction Hall as [|[k' v'] d Hx Hd IH]; cbn [dict_set].
    + now repeat constructor.
    + destruct (String.eqb k k'); constructor; assumption.
Qed.

Lemma expect_value (lit : string) (v v' : value) (s r : string) :
  expect lit v s = Some (v', r) -> v' = v.
Proof. unfold expect. destruct (strip_prefix lit s); congruence. Qed.

Lemma scan_well_formed (fuel : nat) :
  (forall s v r, scan_value fuel s = Some (v, r) -> well_formed v)
  /\ (forall s d d' r,
        scan_members fuel s d = Some (d', r) ->
        NoDup (map fst d) /\ Forall (fun kv => well_formed kv.2) d ->
        NoDup (map fst d') /\ Forall (fun kv => well_formed kv.2) d')
  /\ (forall s l l' r,
        scan_elements fuel s l = Some (l', r) ->
        Forall well_formed l -> Forall well_formed l').
Proof.
  induction fuel as [|f (IHv & IHm & IHe)]; [split; [|split]; discriminate|].
  split; [|split].
  - intros s v r H. cbn [scan_value] in H.
    destruct (skip_ws s) as [|c rest]; [discriminate|].
    destruct (Ascii.eqb c quote_char).
    { destruct (scan_string rest EmptyString) as [[str r1]|]; [|discriminate].
      injection H as <- _. exact I. }
    destruct (Ascii.eqb c "{").
    { destruct (skip_ws rest) as [|c1 rest1]; [discriminate|].
      destruct (Ascii.eqb c1 "}"); [injection H as <- _; split; constructor|].
      destruct (scan_members f (String c1 rest1) []) as [[d r2]|] eqn:Hm; [|discriminate].
      injection H as <- _. apply IHm in Hm as [Hnd Hall]; [|split; constructor].
      cbn [well_formed]. split; [exact Hnd|]. now apply well_formed_dict. }
    destruct (Ascii.eqb c "[").
    { destruct (skip_ws rest) as [|c1 rest1]; [discriminate|].
      destruct (Ascii.eqb c1 "]"); [injection H as <- _; exact I|].
      destruct (scan_elements f (String c1 rest1) []) as [[l r2]|] eqn:He; [|discriminate].
      injection H as <- _. apply IHe in He; [|constructor].
      cbn [well_formed]. now apply well_formed_list. }
    destruct (Ascii.eqb c "n"); [apply expect_value in H as ->; exact I|].
    destruct (Ascii.eqb c "t"); [apply expect_value in H as ->; exact I|].
    destruct (Ascii.eqb c "f"); [apply expect_value in H as ->; exact I|].
    destruct (scan_int (String c rest)) as [[z r1]|]; [|discriminate].
    injection H as <- _. exact I.
  - intros s d d' r H. cbn [scan_members] in H.
    destruct s as [|c rest]; [discriminate|].
    destruct (Ascii.eqb c quote_char); [|discriminate].
    destruct (scan_string rest EmptyString) as [[k rest1]|]; [|discriminate].
    destruct (skip_ws rest1) as [|c2 rest2]; [discriminate|].
    destruct (Ascii.eqb c2 ":"); [|discriminate].
    destruct (scan_value f rest2) as [[v rest3]|] eqn:Hv; [|discriminate].
    apply IHv in Hv. cbv zeta in H.
    destruct (skip_ws rest3) as [|c4 rest4]; [discriminate|].
    destruct (Ascii.eqb c4 "}").
    { injection H as <- _. intros Hd. now apply dict_set_well_formed. }
    destruct (Ascii.eqb c4 ","); [|discriminate].
    intros Hd. apply IHm in H; [exact H|]. now apply dict_set_well_formed.
  - intros s l l' r H Hl. cbn [scan_elements] in H.
    destruct (scan_value f s) as [[v rest1]|] eqn:Hv; [|discriminate].
    apply IHv in Hv.
    assert (Hl1 : Forall well_formed (l ++ [v])) by (apply Forall_app; split; [assumption|now constructor]).
    destruct (skip_ws rest1) as [|c2 rest2]; [discriminate|].
    destruct (Ascii.eqb c2 "]"); [injection H as <- _; exact Hl1|].
    destruct (Ascii.eqb c2 ","); [|discriminate].
    now apply IHe in H.
Qed.

Lemma loads_well_formed (s : string) (v : value) : loads s = Some v -> well_formed v.
Proof.
  unfold loads. destruct (scan_value _ s) as [[v' r]|] eqn:Hscan; [|discriminate].
  destruct (skip_ws r); [|discriminate]. intros [= <-].
  eapply (proj1 (scan_well_formed _)), Hscan.
Qed.

(** What [json.dumps] writes of a parsed text parses to the same object. *)
Lemma loads_dumps_loads (s : string) (v : value) :
  loads s = Some v -> loads (dumps v) = Some v.
Proof. intros H. apply loads_dumps, (loads_well_formed s), H. Qed.

End json_round_trip.

(** * The tree head on the disk *)

(** C7, as stated, does not hold: for the answer [examples.compact_sth] of
    a log, written without spaces as the logs send it and with a signature
    that verifies, the content of the file of the tree head is not the
    answer: [json.dumps] puts a space after every colon and comma. The run
    starts at the index 1500 of a tree of 1500 entries, so it ends right
    after the file is written. *)
Lemma sth_file_not_verbatim :
  ~ (forall (w : world) (pkg_root_dir url log_list_file : string)
       (start_index step_size package_size bundle_size tree_size : Z)
       (response : string) (sth : json.value),
       bundle_size_ok bundle_size = true ->
       sth_response w = Done (200, response) ->
       json.loads response = Some sth ->
       tree_size_of sth = Done tree_size ->
       verify_sth w log_list_file url sth = Done tt ->
       forall content : string,
         WriteFile (path_join pkg_root_dir (build_sth_name tree_size)) content
           ∈ (get_ct w pkg_root_dir url log_list_file start_index step_size package_size
                bundle_size).1 ->
         content = response).
Proof.
  intros Hclaim.
  pose (sth := json.JDict
     [("tree_size"%string, json.JInt 1500);
      ("timestamp"%string, json.JInt 1478000000000);
      ("sha256_root_hash"%string, json.JStr "47DEQpj8HBSa+/TImW+5JCeuQeRkm5NMpJWZG3hSuFU=");
      ("tree_head_signature"%string, json.JStr "BAMASDBGAiEA7NJ7R38cY++9+W6s8mSUvNOPci54HnCclt2VjHSdc6MCIQD3kAMrmdEwfPpeynVWcF7HBhjWcREeT55xTWmo7MvmLA==")]).
  specialize (Hclaim (examples.log_answering examples.compact_sth)
                "/log"%string "ct.example/log"%string "log_list.json"%string
                1500 1024 1024 1024 1500 examples.compact_sth sth
                eq_refl eq_refl).
  specialize (Hclaim ltac:(vm_compute; reflexivity) eq_refl eq_refl (json.dumps sth)).
  assert (Hneq : json.dumps sth <> examples.compact_sth) by (vm_compute; discriminate).
  apply Hneq, Hclaim. apply list_elem_of_In. vm_compute. tauto.
Qed.

(** C7, amended. When the tree head verifies, [get_ct] creates the
    directory, asks the log for its tree head, reads the log list and then
    writes, to [sth-{tree_size:010}.json], [json.dumps] of the object that
    [json.loads] made of the answer: the tree head is serialized again, and
    the file is read back as the object that the answer was read as. *)
Theorem sth_file_is_reserialized (w : world) (pkg_root_dir url log_list_file : string)
    (start_index step_size package_size bundle_size tree_size : Z)
    (response : string) (sth : json.value) :
  bundle_size_ok bundle_size = true ->
  sth_response w = Done (200, response) ->
  json.loads response = Some sth ->
  tree_size_of sth = Done tree_size ->
  verify_sth w log_list_file url sth = Done tt ->
  exists tr r,
    get_ct w pkg_root_dir url log_list_file start_index step_size package_size bundle_size
    = ([Mkdir pkg_root_dir; HttpGet url "get-sth"; ReadFile log_list_file;
        WriteFile (path_join pkg_root_dir (build_sth_name tree_size)) (json.dumps sth)]
       ++ tr, r)
    /\ json.loads (json.dumps sth) = Some sth.
Proof.
  intros Hok Hresp Hloads Hts Hver.
  pose proof (loads_dumps_loads response sth Hloads) as Hback.
  unfold get_ct. rewrite Hok. cbn [negb].
  unfold get_ct_run, get_sth, handle_new_sth, write_sth, io_lift, io_emit, io_ret, io_raise.
  rewrite Hresp. cbn [io_bind negb Z.eqb Pos.eqb app]. rewrite Hloads.
  cbn [io_bind app]. rewrite Hver. cbn [io_bind app]. rewrite Hts. cbn [io_bind app].
  destruct ((0 <=? start_index) && (tree_size <=? start_index)).
  - eexists _, _. split; [reflexivity|exact Hback].
  - destruct (fetch_entries w _ _ _ _ _ _ _) as [tr1 [[]| |]]; cbn [io_bind app];
      eexists _, _; (split; [reflexivity|exact Hback]).
Qed.

(** * The theorems at work on the examples *)

(** The file written for the answer [compact_sth]. *)
Lemma sth_file_is_reserialized_witness :
  let w := examples.log_answering examples.compact_sth in
  let sth := json.JDict
     [("tree_size"%string, json.JInt 1500);
      ("timestamp"%string, json.JInt 1478000000000);
      ("sha256_root_hash"%string, json.JStr "47DEQpj8HBSa+/TImW+5JCeuQeRkm5NMpJWZG3hSuFU=");
      ("tree_head_signature"%string, json.JStr "BAMASDBGAiEA7NJ7R38cY++9+W6s8mSUvNOPci54HnCclt2VjHSdc6MCIQD3kAMrmdEwfPpeynVWcF7HBhjWcREeT55xTWmo7MvmLA==")] in
  bundle_size_ok 1024 = true
  /\ sth_response w = Done (200, examples.compact_sth)
  /\ json.loads examples.compact_sth = Some sth
  /\ tree_size_of sth = Done 1500
  /\ verify_sth w "log_list.json" "ct.example/log" sth = Done tt
  /\ exists tr r,
      get_ct w "/log" "ct.example/log" "log_list.json" 0 1024 1024 1024
      = ([Mkdir "/log"; HttpGet "ct.example/log" "get-sth"; ReadFile "log_list.json";
          WriteFile (path_join "/log" (build_sth_name 1500)) (json.dumps sth)] ++ tr, r)
      /\ json.loads (json.dumps sth) = Some sth.
Proof.
  intros w sth.
  assert (H1 : bundle_size_ok 1024 = true) by reflexivity.
  assert (H2 : sth_response w = Done (200, examples.compact_sth)) by reflexivity.
  assert (H3 : json.loads examples.compact_sth = Some sth) by (vm_compute; reflexivity).
  assert (H4 : tree_size_of sth = Done 1500) by reflexivity.
  assert (H5 : verify_sth w "log_list.json" "ct.example/log" sth = Done tt) by reflexivity.
  repeat (split; [assumption|]).
  exact (sth_file_is_reserialized w "/log" "ct.example/log" "log_list.json"
           0 1024 1024 1024 1500 examples.compact_sth sth H1 H2 H3 H4 H5).
Defined.

(** The Merkle Tree Hash of three leaf hashes, and of the package of
    [small_package_disk]. *)
Lemma get_partial_tree_hash_is_rfc6962_mth_witness :
  let hashes : list bytes := [[x0a]; [x0b]; [x0c]] in
  let entries : list (list bytes) := [[[x0a]; [x0b]; [x0c]; [x0d]]; [[x0e]; [x0f]; [x10]]] in
  (hashes <> [] /\ (length hashes <= 3)%nat
   /\ get_partial_tree_hash (H := plain_digests) 3 hashes = Done (MTH (H := plain_digests) hashes))
  /\ exists fs',
      compute_package (H := plain_digests) 4 examples.small_package_disk 0 "/log" 7 = Done fs'
      /\ info_files fs' !! path_join "/log" (build_info_file_name 0 7)
         = Some {| pkg_hash := MTH (H := plain_digests)
                                 (map (fun es => MTH (H := plain_digests)
                                                   (map (leaf_node (H := plain_digests)) es)) entries);
                   merkle_proof := [] |}.
Proof.
  intros hashes entries. split.
  - assert (Hne : hashes <> []) by discriminate.
    assert (Hlen : (length hashes <= 3)%nat) by (simpl; lia).
    split; [exact Hne|]. split; [exact Hlen|].
    exact (proj1 (proj1 (@get_partial_tree_hash_is_rfc6962_mth plain_digests) 3%nat hashes Hne Hlen)).
  - apply (proj2 (@get_partial_tree_hash_is_rfc6962_mth plain_digests) 4%nat
             examples.small_package_disk 0 "/log"%string 7
             ["0000000000-0000000003.json.gz"; "0000000004-0000000006.json.gz"]%string entries).
    + vm_compute. reflexivity.
    + discriminate.
    + simpl. lia.
    + repeat constructor; try discriminate; try (simpl; lia); vm_compute; reflexivity.
    + vm_compute. eexists. reflexivity.
Defined.

(** Termination on three hashes, and a package directory without bundles. *)
Lemma get_partial_tree_hash_termination_witness :
  let hashes : list bytes := [[x0a]; [x0b]; [x0c]] in
  hashes <> []
  /\ (exists digest : bytes, forall fuel : nat, (length hashes <= fuel)%nat ->
        get_partial_tree_hash (H := plain_digests) fuel hashes = Done digest)
  /\ get_bundle_list examples.no_bundle_disk (path_join "/log" (build_package_name 0)) 7 = Done []
  /\ compute_package (H := plain_digests) 100 examples.no_bundle_disk 0 "/log" 7 = OutOfFuel.
Proof.
  intros hashes.
  assert (Hne : hashes <> []) by discriminate.
  assert (Hbl : get_bundle_list examples.no_bundle_disk
                  (path_join "/log" (build_package_name 0)) 7 = Done [])
    by (vm_compute; reflexivity).
  split; [exact Hne|]. split.
  - exact (proj1 (@get_partial_tree_hash_termination plain_digests) hashes Hne).
  - split; [exact Hbl|].
    exact (proj2 (proj2 (@get_partial_tree_hash_termination plain_digests))
             100%nat examples.no_bundle_disk 0 "/log"%string 7 Hbl).
Defined.

(** The piece length for two files of 300,000,000 bytes in all. *)
Lemma piece_length_formula_witness :
  let files := [ {| f_length := 299000000; f_path := ["000"; "0000000000-0000001023.json.gz"] |};
                 {| f_length := 1000000; f_path := ["sth-0000001024.json"] |} ]%string in
  total_size files = 300000000 /\ piece_length files = 196608.
Proof.
  intros files.
  assert (HT : total_size files = 300000000) by reflexivity.
  split; [exact HT|].
  exact (proj2 (proj2 (proj2 (proj2 (piece_length_formula files 300000000 HT)))) eq_refl).
Defined.

(** The check of the bundle sizes 1000 and 1024. *)
Lemma get_ct_bundle_size_guard_witness :
  let w := examples.log_answering examples.compact_sth in
  (~ (exists k : Z, 0 <= k /\ 1000 = 2 ^ k)
   /\ get_ct w "/log" "ct.example/log" "log_list.json" 0 1024 1024 1000
      = ([], Raise (Exception "bundle_size arg must be a power of 2")))
  /\ ((exists k : Z, 0 <= k /\ 1024 = 2 ^ k)
      /\ exists tr r, get_ct w "/log" "ct.example/log" "log_list.json" 0 1024 1024 1024
                      = (Mkdir "/log" :: tr, r)).
Proof.
  intros w.
  assert (Hnot : ~ (exists k : Z, 0 <= k /\ 1000 = 2 ^ k)).
  { intros Hk. apply bundle_size_ok_power_of_two in Hk. vm_compute in Hk. discriminate. }
  assert (Hpow : exists k : Z, 0 <= k /\ 1024 = 2 ^ k) by (exists 10; split; [lia|reflexivity]).
  split; split; [exact Hnot| |exact Hpow|].
  - exact (proj1 (get_ct_bundle_size_guard w "/log" "ct.example/log" "log_list.json"
                    0 1024 1024 1000) Hnot).
  - exact (proj2 (proj2 (proj2 (get_ct_bundle_size_guard w "/log" "ct.example/log"
                    "log_list.json" 0 1024 1024 1024) Hpow))).
Defined.

Ltac names_cases H :=
  repeat (apply elem_of_cons in H as [->|H]); [..|inversion H].

(** Resuming after a complete and after a partial last bundle. *)
Lemma discover_start_index_resume_witness :
  discover_start_index examples.complete_bundle_disk "/log" 2 1024 = Done (4095 + 1)
  /\ discover_start_index examples.partial_bundle_disk "/log" 2 1024 = Done 3072.
Proof.
  split.
  - refine (proj1 (discover_start_index_resume examples.complete_bundle_disk "/log" 2 1024
              ["001"; "sth-0000004096.json"; "000"]%string
              ["0000003072-0000004095.json.gz"; "0000002048-0000003071.json.gz"]%string
              "001" "0000003072-0000004095.json.gz" _ _ _ _ _ _ _ _) _).
    + vm_compute. reflexivity.
    + apply list_elem_of_In. simpl. tauto.
    + vm_compute. reflexivity.
    + intros p Hp Hre. names_cases Hp; vm_compute in Hre |- *; try discriminate; exact I.
    + vm_compute. reflexivity.
    + apply list_elem_of_In. simpl. tauto.
    + vm_compute. reflexivity.
    + intros b Hb Hre. names_cases Hb; vm_compute in Hre |- *; try discriminate; exact I.
    + vm_compute. reflexivity.
  - refine (proj2 (discover_start_index_resume examples.partial_bundle_disk "/log" 2 1024
              ["001"; "sth-0000003501.json"; "000"]%string
              ["0000003072-0000003500.json.gz"; "0000002048-0000003071.json.gz"]%string
              "001" "0000003072-0000003500.json.gz" _ _ _ _ _ _ _ _) _).
    + vm_compute. reflexivity.
    + apply list_elem_of_In. simpl. tauto.
    + vm_compute. reflexivity.
    + intros p Hp Hre. names_cases Hp; vm_compute in Hre |- *; try discriminate; exact I.
    + vm_compute. reflexivity.
    + apply list_elem_of_In. simpl. tauto.
    + vm_compute. reflexivity.
    + intros b Hb Hre. names_cases Hb; vm_compute in Hre |- *; try discriminate; exact I.
    + vm_compute. reflexivity.
Defined.

Section package_hash.
Context `{Pylib}.

(** The first [k] chunks of a list of chunks of [B] elements each. *)
Lemma take_concat_chunks (B k : nat) (chunks : list (list bytes)) :
  Forall (fun c => length c = B) chunks ->
  take (k * B) (concat chunks) = concat (take k chunks)
  /\ drop (k * B) (concat chunks) = concat (drop k chunks).
Proof.
  intros HF. revert k. induction HF as [|c cs Hc _ IH]; intros k.
  - cbn [concat]. now rewrite !take_nil, !drop_nil.
  - destruct k as [|k]; [split; reflexivity|].
    destruct (IH k) as [IHt IHd]. cbn [concat take drop].
    replace (S k * B)%nat with (length c + k * B)%nat by lia.
    rewrite take_app_add, drop_app_add, IHt, IHd. split; reflexivity.
Qed.

Lemma length_concat_chunks (B : nat) (chunks : list (list bytes)) :
  Forall (fun c => length c = B) chunks ->
  length (concat chunks) = (length chunks * B)%nat.
Proof.
  induction 1 as [|c cs Hc _ IH]; [reflexivity|].
  cbn [concat length]. rewrite length_app. lia.
Qed.

(** The Merkle Tree Hash of a list cut in chunks of [2 ^ b] elements, the
    last chunk holding from one to [2 ^ b] elements, is the Merkle Tree
    Hash of the Merkle Tree Hashes of the chunks. *)
Lemma MTH_chunks (b : nat) (chunks : list (list bytes)) (tail : list bytes) :
  Forall (fun c => length c = (2 ^ b)%nat) chunks ->
  (1 <= length tail <= 2 ^ b)%nat ->
  MTH (map MTH (chunks ++ [tail])) = MTH (concat (chunks ++ [tail])).
Proof.
  revert tail.
  induction chunks as [chunks IH] using (induction_ltof1 _ (@length _)); unfold ltof in IH.
  intros tail HF Htail.
  destruct chunks as [|c0 cs0] eqn:Hchunks.
  { cbn [app map concat]. now rewrite MTH_single, app_nil_r. }
  rewrite <- Hchunks in *.
  assert (Hm : (1 <= length chunks)%nat) by (subst chunks; simpl; lia).
  clear Hchunks c0 cs0.
  set (m := S (length chunks)).
  pose proof (split_point_spec m ltac:(lia)) as Hp.
  assert (Hpow : exists e, split_point m = (2 ^ e)%nat) by (eexists; reflexivity).
  destruct Hpow as [e He].
  set (p := split_point m) in *.
  assert (HB : (0 < 2 ^ b)%nat) by (apply Nat.neq_0_lt_0, Nat.pow_nonzero; lia).
  pose proof (length_concat_chunks _ _ HF) as Hlc.
  assert (Hn : length (concat (chunks ++ [tail])) = (length chunks * 2 ^ b + length tail)%nat).
  { rewrite concat_app, length_app, Hlc. simpl. rewrite app_nil_r. reflexivity. }
  assert (Hsp : split_point (length (concat (chunks ++ [tail]))) = (p * 2 ^ b)%nat).
  { rewrite Hn, He, <- Nat.pow_add_r. unfold split_point at 1. f_equal.
    set (n := (length chunks * 2 ^ b + length tail)%nat).
    assert (Hn2 : (2 <= n)%nat) by (unfold n; nia).
    pose proof (Nat.log2_spec (n - 1) ltac:(lia)) as Hs.
    rewrite Nat.pow_succ_r' in Hs.
    apply (pow2_between_unique _ _ n); [lia|].
    rewrite Nat.pow_add_r, <- He. unfold n. fold p. unfold m in Hp. nia. }
  rewrite (MTH_split (concat (chunks ++ [tail]))) by (rewrite Hn; nia).
  rewrite Hsp.
  rewrite (MTH_split (map MTH (chunks ++ [tail])))
    by (rewrite length_map, length_app; simpl; lia).
  rewrite length_map, length_app. cbn [length].
  replace (length chunks + 1)%nat with m by (unfold m; lia). fold p.
  assert (Hple : (p <= length chunks)%nat) by (unfold m in Hp; lia).
  rewrite !firstn_map, !skipn_map.
  rewrite (take_app_le chunks [tail] p) by lia.
  rewrite (drop_app_le chunks [tail] p) by lia.
  rewrite concat_app.
  assert (Hpb : (p * 2 ^ b <= length (concat chunks))%nat) by (rewrite Hlc; nia).
  rewrite take_app_le, drop_app_le by lia.
  destruct (take_concat_chunks (2 ^ b) p chunks HF) as [-> ->].
  rewrite <- concat_app.
  f_equal.
  - (* the first [p] chunks: all of them are full *)
    assert (Hp1 : (1 <= p)%nat) by (rewrite He; apply Nat.neq_0_lt_0, Nat.pow_nonzero; lia).
    assert (Hlt : length (take p chunks) = p) by (rewrite length_take; lia).
    destruct (take p chunks) as [|x xs] eqn:Htk using rev_ind; [simpl in Hlt; lia|].
    assert (HFt : Forall (fun c => length c = (2 ^ b)%nat) (xs ++ [x])).
    { rewrite <- Htk. now apply Forall_take. }
    rewrite Forall_app, Forall_singleton in HFt. destruct HFt as [HFx HFl].
    apply IH; [|exact HFx|lia].
    rewrite length_app in Hlt. simpl in Hlt. lia.
  - apply IH; [|now apply Forall_drop|exact Htail].
    rewrite length_drop.
    assert (1 <= p)%nat by (rewrite He; apply Nat.neq_0_lt_0, Nat.pow_nonzero; lia). lia.
Qed.


(** X1. When every bundle of a package but the last holds [2 ^ b] entries, and
    the last from one to [2 ^ b], the [pkg_hash] that [compute_package]
    writes is the Merkle Tree Hash of RFC 6962 over the leaf hashes
    [SHA-256(0x00 || entry)] of all the entries of the package, in the
    order of the bundles: hashing bundle by bundle and then the bundle
    hashes gives the hash of the whole. [MTH] and [leaf_node] are those of
    the module [rfc6962]. *)
Theorem compute_package_hashes_all_entries (fuel : nat) (fs : filesystem) (pkg_num : Z)
    (log_dir : string) (tree_size : Z) (bundle_list : list string)
    (b : nat) (chunks : list (list bytes)) (tail : list bytes) :
  let package_dir := path_join log_dir (build_package_name pkg_num) in
  get_bundle_list fs package_dir tree_size = Done bundle_list ->
  Forall2 (fun bndl es => bundle_entries fs !! path_join package_dir bndl = Some es)
          bundle_list (chunks ++ [tail]) ->
  Forall (fun c => length c = (2 ^ b)%nat) chunks ->
  (1 <= length tail <= 2 ^ b)%nat ->
  (length bundle_list <= fuel)%nat ->
  (2 ^ b <= fuel)%nat ->
  is_Some (listdir fs !! log_dir) ->
  exists fs',
    compute_package fuel fs pkg_num log_dir tree_size = Done fs'
    /\ info_files fs' !! path_join log_dir (build_info_file_name pkg_num tree_size)
       = Some {| pkg_hash := MTH (map leaf_node (concat (chunks ++ [tail])));
                 merkle_proof := [] |}.
Proof.
  intros package_dir Hbl HF2 HF Htail Hlen Hfuel [names Hdir].
  assert (HB : (0 < 2 ^ b)%nat) by (apply Nat.neq_0_lt_0, Nat.pow_nonzero; lia).
  assert (Hall : Forall (fun es : list bytes => es <> [] /\ (length es <= fuel)%nat)
                        (chunks ++ [tail])).
  { rewrite Forall_app, Forall_singleton. split.
    - eapply Forall_impl; [exact HF|]. intros c Hc; simpl in Hc.
      split; [destruct c; simpl in *; [lia|congruence]|lia].
    - split; [destruct tail; simpl in *; [lia|congruence]|lia]. }
  assert (HF2' : Forall2 (fun bndl es =>
                   bundle_entries fs !! path_join package_dir bndl = Some es
                   /\ es <> [] /\ (length es <= fuel)%nat) bundle_list (chunks ++ [tail])).
  { clear -HF2 Hall. induction HF2 as [|bn es bl ess Hb _ IH]; [constructor|].
    apply Forall_cons in Hall as [Hes Hall]. constructor; auto. }
  pose proof (Forall2_length _ _ _ HF2) as Hlens.
  unfold compute_package. fold package_dir. rewrite Hbl. cbn [mbind outcome_bind].
  rewrite (compute_package_bundle_hashes _ _ _ _ (chunks ++ [tail])) by exact HF2'.
  cbn [mbind outcome_bind app].
  rewrite get_partial_tree_hash_MTH.
  - cbn [mbind outcome_bind]. unfold write_tree_hash, write_info, os_listdir.
    rewrite Hdir. cbn [mbind outcome_bind]. eexists. split; [reflexivity|].
    cbn [info_files]. rewrite lookup_insert_eq. do 2 f_equal.
    rewrite <- (map_map (map leaf_hash) MTH), map_app. cbn [map].
    rewrite (MTH_chunks b).
    + now rewrite concat_map, map_app.
    + clear -HF. induction HF; constructor; auto. now rewrite length_map.
    + now rewrite length_map.
  - rewrite map_app. simpl. now destruct (map _ chunks).
  - rewrite length_map. lia.
Qed.

(** ** The root that [compute_proofs] returns *)

(** The hashes of the new list of [hash_pairs] are one reduction of the
    hashes of the current list, whatever the mask. *)
Lemma hash_pairs_reduce_level (m c : Z) (cur : list (Z * bytes)) (proofs : gmap Z (list bytes)) :
  map snd (hash_pairs m c cur proofs).1 = reduce_level (map snd cur).
Proof.
  revert proofs.
  induction cur as [cur IH] using (induction_ltof1 _ (@length _)); unfold ltof in IH.
  intros proofs. destruct cur as [|a [|a' rest]]; try reflexivity.
  cbn [hash_pairs map reduce_level].
  specialize (IH rest ltac:(simpl; lia) (note_pair m c a a' proofs)).
  destruct (hash_pairs m c rest (note_pair m c a a' proofs)) as [new proofs2].
  cbn [fst map snd] in *. now rewrite IH.
Qed.

Lemma proof_step_cur (s : proof_state) :
  map snd (cur (proof_step s)) = reduce_level (map snd (cur s)).
Proof.
  unfold proof_step.
  pose proof (hash_pairs_reduce_level (Z.lxor (mask s) (mask_canceler s)) (mask_canceler s)
                (cur s) (proofs s)) as Hh.
  destruct (hash_pairs _ _ (cur s) (proofs s)) as [new proofs1]. exact Hh.
Qed.

(** The loop of [compute_proofs] ends on one element, which carries the
    Merkle Tree Hash of the hashes it started from. *)
Lemma compute_proofs_loop (fuel : nat) (s : proof_state) :
  cur s <> [] -> (length (cur s) <= fuel)%nat ->
  exists s' x,
    while fuel (fun s => (1 <? length (cur s))%nat) proof_step s = Some s'
    /\ cur s' = [x] /\ x.2 = MTH (map snd (cur s)).
Proof.
  revert s. induction fuel as [|f IH]; intros s Hne Hlen.
  - destruct (cur s); simpl in *; [congruence|lia].
  - cbn [while]. destruct (Nat.ltb_spec 1 (length (cur s))) as [Hlt|Hge].
    + pose proof (proof_step_cur s) as Hstep.
      assert (Hl : length (cur (proof_step s)) = ((length (cur s) + 1) / 2)%nat).
      { rewrite <- (length_map snd), Hstep, reduce_level_length, length_map. reflexivity. }
      pose proof (Nat.div_mod_eq (length (cur s) + 1) 2).
      pose proof (Nat.mod_upper_bound (length (cur s) + 1) 2 ltac:(lia)).
      destruct (IH (proof_step s)) as (s' & x & Hw & Hx & Hm).
      * intros Hnil. rewrite Hnil in Hl. cbn [length] in Hl. lia.
      * lia.
      * exists s', x. split; [exact Hw|]. split; [exact Hx|].
        now rewrite Hm, Hstep, MTH_reduce_level.
    + destruct (cur s) as [|x [|y r]] eqn:Hc; simpl in *; try congruence; try lia.
      exists s, x. rewrite Hc. split; [reflexivity|]. split; [reflexivity|].
      simpl. now rewrite MTH_single.
Qed.

Lemma map_snd_imap (l : list bytes) :
  map snd (imap (fun i h => (Z.of_nat i, h)) l) = l.
Proof.
  change (map snd) with (fmap (M:=list) (@snd Z bytes)).
  rewrite fmap_imap. unfold compose. simpl.
  induction l as [|x l IH]; [reflexivity|]. simpl. f_equal.
  rewrite <- IH at 2. apply imap_ext. reflexivity.
Qed.

(** X2. On a non-empty list of package hashes, [compute_proofs] is the loop
    that writes the proofs followed by the return of the base64 text of the
    Merkle Tree Hash of the package hashes: whatever the mask does to the
    proofs, and whatever packages the proofs are asked for, the root
    returned is the RFC 6962 root of the package hashes, [MTH] of the module
    [rfc6962] with its node hash [SHA-256(0x01 || left || right)]. *)
Theorem compute_proofs_returns_merkle_tree_hash (fuel : nat) (fs : filesystem)
    (pkg_root_dir : string) (tree_size start_package last_package : Z)
    (hash_list : list bytes) :
  get_pkg_hash_list fs pkg_root_dir tree_size = Done hash_list ->
  hash_list <> [] ->
  (length hash_list <= fuel)%nat ->
  (exists proofs : gmap Z (list bytes),
     compute_proofs fuel fs pkg_root_dir tree_size start_package last_package
     = (fs' ← for_each (range start_package (last_package + 1))
                (fun fs1 pkg_num =>
                   write_proof fs1 pkg_root_dir tree_size pkg_num
                     (default [] (proofs !! pkg_num)))
                fs;
        Done (fs', b64encode (MTH hash_list))))
  /\ (forall fs' root,
        compute_proofs fuel fs pkg_root_dir tree_size start_package last_package
        = Done (fs', root) ->
        root = b64encode (MTH hash_list)).
Proof.
  intros Hhl Hne Hlen.
  assert (Hex : exists proofs : gmap Z (list bytes),
     compute_proofs fuel fs pkg_root_dir tree_size start_package last_package
     = (fs' ← for_each (range start_package (last_package + 1))
                (fun fs1 pkg_num =>
                   write_proof fs1 pkg_root_dir tree_size pkg_num
                     (default [] (proofs !! pkg_num)))
                fs;
        Done (fs', b64encode (MTH hash_list)))).
  { unfold compute_proofs. rewrite Hhl. cbn [mbind outcome_bind].
    set (s0 := {| mask := _; mask_canceler := 1; cur := _; proofs := _ |}).
    destruct (compute_proofs_loop fuel s0) as (s' & x & Hw & Hx & Hm).
    - unfold s0. cbn [cur]. destruct hash_list; simpl; congruence.
    - unfold s0. cbn [cur]. now rewrite length_imap.
    - rewrite Hw. exists (proofs s').
      destruct (for_each _ _ fs) as [fs'| |]; cbn [mbind outcome_bind]; try reflexivity.
      rewrite Hx. cbn [lookup list_lookup]. rewrite Hm. unfold s0. cbn [cur].
      now rewrite map_snd_imap. }
  split; [exact Hex|].
  destruct Hex as [proofs Heq]. intros fs' root. rewrite Heq.
  destruct (for_each _ _ fs) as [fs1| |]; cbn [mbind outcome_bind]; congruence.
Qed.

Lemma write_proof_outcome (fs : filesystem) (pkg_root_dir : string) (tree_size pkg_num : Z)
    (proof_list : list bytes) :
  (exists fs', write_proof fs pkg_root_dir tree_size pkg_num proof_list = Done fs')
  \/ write_proof fs pkg_root_dir tree_size pkg_num proof_list = Raise OSError.
Proof.
  unfold write_proof, read_info, write_info, os_listdir.
  destruct (info_files fs !! _); cbn [mbind outcome_bind]; [|now right].
  destruct (listdir fs !! _); cbn [mbind outcome_bind]; [|now right].
  left. eexists. reflexivity.
Qed.

Lemma for_each_outcome {A S : Type} (body : S -> A -> outcome S) :
  (forall s x, (exists s', body s x = Done s') \/ body s x = Raise OSError) ->
  forall l s, (exists s', for_each l body s = Done s') \/ for_each l body s = Raise OSError.
Proof.
  intros Hbody. induction l as [|x l IH]; intros s; [left; eexists; reflexivity|].
  cbn [for_each]. destruct (Hbody s x) as [[s' ->]| ->]; cbn [mbind outcome_bind]; [|now right].
  apply IH.
Qed.

(** X3. When [get_pkg_hash_list] finds no package hash, [compute_proofs] never
    returns a root: it raises the [OSError] of the first info file that
    [write_proof] cannot open, or else [IndexError] at [cur[0]] after the
    proofs are written. *)
Theorem compute_proofs_without_package_hash (fuel : nat) (fs : filesystem)
    (pkg_root_dir : string) (tree_size start_package last_package : Z) :
  get_pkg_hash_list fs pkg_root_dir tree_size = Done [] ->
  (0 < fuel)%nat ->
  compute_proofs fuel fs pkg_root_dir tree_size start_package last_package = Raise IndexError
  \/ compute_proofs fuel fs pkg_root_dir tree_size start_package last_package = Raise OSError.
Proof.
  intros Hhl Hfuel. unfold compute_proofs. rewrite Hhl. cbn [mbind outcome_bind imap].
  destruct fuel as [|f]; [lia|]. cbn [while cur length]. cbn [Nat.ltb Nat.leb].
  cbn [cur proofs].
  set (body := fun fs1 pkg_num => write_proof fs1 pkg_root_dir tree_size pkg_num _).
  assert (Hloop : forall l fs0, (exists fs1, for_each l body fs0 = Done fs1)
                                \/ for_each l body fs0 = Raise OSError).
  { apply for_each_outcome. intros fs0 n. apply write_proof_outcome. }
  destruct (Hloop (range start_package (last_package + 1)) fs) as [[fs1 ->]| ->];
    cbn [mbind outcome_bind]; [left|right]; reflexivity.
Qed.

End package_hash.

(** * File names: what is written is what is looked for *)

Section file_names.
Import json.

Lemma pretty_N_go_length_ge (x : N) (s : string) :
  (String.length s <= String.length (pretty_N_go x s))%nat.
Proof.
  revert s. induction (N.lt_wf_0 x) as [x _ IH]; intros s.
  destruct (N.eq_dec x 0%N) as [->|Hx]; [now rewrite pretty_N_go_0|].
  rewrite pretty_N_go_step by lia.
  specialize (IH (x / 10)%N ltac:(apply N.div_lt; lia) (String (pretty_N_char (x mod 10)) s)).
  cbn [String.length] in IH. lia.
Qed.

Lemma div_10_lt (k : nat) (x : N) :
  (x < 10 ^ N.of_nat (S k))%N -> (x / 10 < 10 ^ N.of_nat k)%N.
Proof.
  intros Hx. apply N.Div0.div_lt_upper_bound.
  replace (N.of_nat (S k)) with (N.succ (N.of_nat k)) in Hx by lia.
  now rewrite N.pow_succ_r' in Hx.
Qed.

Lemma div_10_ge (k : nat) (x : N) :
  (10 ^ N.of_nat (S k) <= x)%N -> (10 ^ N.of_nat k <= x / 10)%N.
Proof.
  intros Hx. apply N.div_le_lower_bound; [lia|].
  replace (N.of_nat (S k)) with (N.succ (N.of_nat k)) in Hx by lia.
  now rewrite N.pow_succ_r' in Hx.
Qed.

(** The number of digits that [pretty] writes. *)
Lemma pretty_N_go_length_le (k : nat) (x : N) (s : string) :
  (x < 10 ^ N.of_nat k)%N ->
  (String.length (pretty_N_go x s) <= String.length s + k)%nat.
Proof.
  revert x s. induction k as [|k IH]; intros x s Hx.
  - change (10 ^ N.of_nat 0)%N with 1%N in Hx.
    replace x with 0%N by lia. rewrite pretty_N_go_0. lia.
  - destruct (N.eq_dec x 0%N) as [->|Hnz]; [rewrite pretty_N_go_0; lia|].
    rewrite pretty_N_go_step by lia.
    specialize (IH (x / 10)%N (String (pretty_N_char (x mod 10)) s) (div_10_lt k x Hx)).
    cbn [String.length] in IH. lia.
Qed.

Lemma pretty_N_go_length_gt (k : nat) (x : N) (s : string) :
  (10 ^ N.of_nat k <= x)%N ->
  (String.length s + k < String.length (pretty_N_go x s))%nat.
Proof.
  revert x s. induction k as [|k IH]; intros x s Hx.
  - change (10 ^ N.of_nat 0)%N with 1%N in Hx.
    rewrite pretty_N_go_step by lia.
    pose proof (pretty_N_go_length_ge (x / 10) (String (pretty_N_char (x mod 10)) s)) as Hge.
    cbn [String.length] in Hge. lia.
  - assert (0 < 10 ^ N.of_nat (S k))%N by (apply N.neq_0_lt_0, N.pow_nonzero; lia).
    rewrite pretty_N_go_step by lia.
    specialize (IH (x / 10)%N (String (pretty_N_char (x mod 10)) s) (div_10_ge k x Hx)).
    cbn [String.length] in IH. lia.
Qed.

Lemma pretty_digits (x : N) : all_digits (pretty x).
Proof.
  unfold pretty, pretty_N. destruct (decide (x = 0%N)).
  - repeat constructor.
  - apply pretty_N_go_digits. constructor.
Qed.

Lemma pretty_value (x : N) : int_of_digits (pretty x) = Z.of_N x.
Proof.
  unfold pretty, pretty_N. destruct (decide (x = 0%N)) as [->|Hx]; [reflexivity|].
  exact (pretty_N_go_value x EmptyString).
Qed.

Lemma pretty_length_le (k : nat) (x : N) :
  (1 <= k)%nat -> (x < 10 ^ N.of_nat k)%N -> (String.length (pretty x) <= k)%nat.
Proof.
  intros Hk Hx. unfold pretty, pretty_N. destruct (decide (x = 0%N)); [simpl; lia|].
  exact (pretty_N_go_length_le k x EmptyString Hx).
Qed.

Lemma pretty_length_gt (k : nat) (x : N) :
  (10 ^ N.of_nat k <= x)%N -> (k < String.length (pretty x))%nat.
Proof.
  intros Hx. assert (0 < 10 ^ N.of_nat k)%N by (apply N.neq_0_lt_0, N.pow_nonzero; lia).
  unfold pretty, pretty_N. destruct (decide (x = 0%N)); [lia|].
  exact (pretty_N_go_length_gt k x EmptyString Hx).
Qed.

Lemma all_digits_app (a b : string) : all_digits a -> all_digits b -> all_digits (a ++ b).
Proof.
  unfold all_digits. induction a as [|c a IH]; intros Ha Hb; [exact Hb|].
  change (String c a ++ b)%string with (String c (a ++ b)).
  cbn [list_ascii_of_string] in *. apply Forall_cons in Ha as [Hc Ha].
  constructor; auto.
Qed.

Lemma zeros_digits (n : nat) : all_digits (zeros n).
Proof. induction n; [constructor|]. constructor; [reflexivity|exact IHn]. Qed.

Lemma zeros_length (n : nat) : String.length (zeros n) = n.
Proof. induction n; simpl; congruence. Qed.

Lemma value_from_zeros (n : nat) (d : string) (acc : Z) :
  value_from acc (zeros n ++ d) = value_from (10 ^ Z.of_nat n * acc) d.
Proof.
  revert acc. induction n as [|n IH]; intros acc.
  - change (zeros 0 ++ d)%string with d. f_equal. lia.
  - change (zeros (S n) ++ d)%string with (String "0" (zeros n ++ d)).
    unfold value_from in *. cbn [list_ascii_of_string fold_left]. rewrite IH.
    f_equal. change (digit_value "0") with 0.
    rewrite Nat2Z.inj_succ, Z.pow_succ_r by lia. lia.
Qed.

(** ['{:0w}'.format(n)] for a number of at most [w] digits: [w] digits,
    whose value is [n]. *)
Lemma format_0_digits (w : nat) (n : Z) :
  (1 <= w)%nat -> 0 <= n < 10 ^ Z.of_nat w ->
  all_digits (format_0 w n) /\ String.length (format_0 w n) = w
  /\ int_of_digits (format_0 w n) = n.
Proof.
  intros Hw Hn. unfold format_0. rewrite (proj2 (Z.ltb_ge n 0)) by lia.
  rewrite Z.abs_eq by lia.
  assert (Hlen : (String.length (pretty (Z.to_N n)) <= w)%nat).
  { apply pretty_length_le; [exact Hw|].
    apply N2Z.inj_lt. rewrite N2Z.inj_pow, Z2N.id, nat_N_Z by lia.
    change (Z.of_N 10) with 10. lia. }
  split; [|split].
  - apply all_digits_app; [apply zeros_digits|apply pretty_digits].
  - rewrite string_length_app, zeros_length. lia.
  - change (int_of_digits ?s) with (value_from 0 s).
    rewrite value_from_zeros, Z.mul_0_r.
    change (value_from 0 ?s) with (int_of_digits s). rewrite pretty_value. lia.
Qed.

(** More digits than [w] for a larger number. *)
Lemma format_0_long (w : nat) (n : Z) :
  10 ^ Z.of_nat w <= n ->
  all_digits (format_0 w n) /\ (w < String.length (format_0 w n))%nat.
Proof.
  intros Hn. assert (0 < 10 ^ Z.of_nat w) by (apply Z.pow_pos_nonneg; lia).
  unfold format_0. rewrite (proj2 (Z.ltb_ge n 0)) by lia. rewrite Z.abs_eq by lia.
  split.
  - apply all_digits_app; [apply zeros_digits|apply pretty_digits].
  - rewrite string_length_app.
    assert (w < String.length (pretty (Z.to_N n)))%nat; [|lia].
    apply pretty_length_gt. apply N2Z.inj_le.
    rewrite N2Z.inj_pow, Z2N.id, nat_N_Z by lia. change (Z.of_N 10) with 10. lia.
Qed.

Lemma format_0_negative (w : nat) (n : Z) :
  n < 0 -> exists t, format_0 w n = String "-" t.
Proof.
  intros Hn. unfold format_0. rewrite (proj2 (Z.ltb_lt n 0)) by lia. eexists. reflexivity.
Qed.

(** ** Matching digits *)

Lemma match_digits (d rest : string) :
  all_digits d ->
  match_atoms (replicate (String.length d) Digit ++ []) (d ++ rest) = Some rest
  /\ forall p, match_atoms (replicate (String.length d) Digit ++ p) (d ++ rest)
               = match_atoms p rest.
Proof.
  unfold all_digits. induction d as [|c d IH]; intros Hd.
  - split; reflexivity.
  - cbn [list_ascii_of_string] in Hd. apply Forall_cons in Hd as [Hc Hd].
    destruct (IH Hd) as [IH1 IH2].
    change (String c d ++ rest)%string with (String c (d ++ rest)).
    cbn [String.length replicate app match_atoms atom_match]. rewrite Hc.
    split; [exact IH1|exact IH2].
Qed.

Lemma substring_prefix (a rest : string) :
  String.substring 0 (String.length a) (a ++ rest) = a.
Proof.
  induction a as [|c a IH]; [destruct rest; reflexivity|].
  change (String c a ++ rest)%string with (String c (a ++ rest)).
  cbn [String.length String.substring]. now rewrite IH.
Qed.

Lemma substring_skip (a rest : string) (n : nat) :
  String.substring (String.length a) n (a ++ rest) = String.substring 0 n rest.
Proof.
  induction a as [|c a IH]; [reflexivity|].
  change (String c a ++ rest)%string with (String c (a ++ rest)).
  cbn [String.length String.substring]. exact IH.
Qed.


(** A string of more than [w] digits starts with [w] digits and one more. *)
Lemma digits_split (w : nat) (d : string) :
  all_digits d -> (w < String.length d)%nat ->
  exists d1 c d2, d = (d1 ++ String c d2)%string /\ String.length d1 = w
                  /\ all_digits d1 /\ is_digit c = true.
Proof.
  unfold all_digits. revert d. induction w as [|w IH]; intros d Hd Hlen.
  - destruct d as [|c d]; [simpl in Hlen; lia|].
    cbn [list_ascii_of_string] in Hd. apply Forall_cons in Hd as [Hc _].
    exists EmptyString, c, d. repeat split; auto.
  - destruct d as [|c d]; [simpl in Hlen; lia|].
    cbn [list_ascii_of_string] in Hd. apply Forall_cons in Hd as [Hc Hd].
    destruct (IH d Hd ltac:(simpl in Hlen; lia)) as (d1 & c' & d2 & -> & Hl & Hd1 & Hc').
    exists (String c d1), c', d2. repeat split; auto.
    + simpl. now rewrite Hl.
    + cbn [list_ascii_of_string]. constructor; auto.
Qed.

Lemma digit_not (c x : ascii) :
  is_digit c = true -> is_digit x = false -> Ascii.eqb c x = false.
Proof.
  intros Hc Hx. destruct (Ascii.eqb_spec c x) as [->|]; [congruence|reflexivity].
Qed.

(** A pattern of [w] digits against the text of [format_0]. *)
Lemma match_format_0 (w : nat) (n : Z) (p : list atom) (rest : string) :
  (1 <= w)%nat -> 0 <= n < 10 ^ Z.of_nat w ->
  match_atoms (replicate w Digit ++ p) (format_0 w n ++ rest) = match_atoms p rest.
Proof.
  intros Hw Hn. destruct (format_0_digits w n Hw Hn) as (Hd & Hl & _).
  destruct (match_digits (format_0 w n) rest Hd) as [_ Hm]. rewrite Hl in Hm. apply Hm.
Qed.

Lemma match_format_0_negative (w : nat) (n : Z) (p : list atom) (rest : string) :
  (1 <= w)%nat -> n < 0 ->
  match_atoms (replicate w Digit ++ p) (format_0 w n ++ rest) = None.
Proof.
  intros Hw Hn. destruct (format_0_negative w n Hn) as [t ->].
  destruct w as [|w]; [lia|]. reflexivity.
Qed.

Lemma all_digits_inv (a b : string) : all_digits (a ++ b) -> all_digits b.
Proof.
  unfold all_digits. induction a as [|c a IH]; intros Hab; [exact Hab|].
  change (String c a ++ b)%string with (String c (a ++ b)) in Hab.
  cbn [list_ascii_of_string] in Hab. apply Forall_cons in Hab as [_ Hab]. auto.
Qed.

Lemma match_format_0_long (w : nat) (n : Z) (p : list atom) (rest : string) :
  10 ^ Z.of_nat w <= n ->
  exists c d2, is_digit c = true /\ all_digits d2
    /\ match_atoms (replicate w Digit ++ p) (format_0 w n ++ rest)
       = match_atoms p (String c (d2 ++ rest)).
Proof.
  intros Hge. destruct (format_0_long w n Hge) as [Hd Hl].
  destruct (digits_split w _ Hd Hl) as (d1 & c & d2 & Heq & Hl1 & Hd1 & Hc).
  exists c, d2. split; [exact Hc|]. split.
  - rewrite Heq in Hd. apply all_digits_inv in Hd. unfold all_digits in *.
    cbn [list_ascii_of_string] in Hd. now apply Forall_cons in Hd as [_ Hd].
  - rewrite Heq, string_app_assoc.
    destruct (match_digits d1 (String c d2 ++ rest) Hd1) as [_ Hm].
    rewrite Hl1 in Hm. apply Hm.
Qed.

Lemma re_match_empty_rest (p : list atom) (s : string) :
  match_atoms p s = Some EmptyString -> re_match p s = true.
Proof. unfold re_match. now intros ->. Qed.

Lemma re_match_none (p : list atom) (s : string) :
  match_atoms p s = None -> re_match p s = false.
Proof. unfold re_match. now intros ->. Qed.

Lemma in_range_dec (w : nat) (n : Z) :
  0 <= n < 10 ^ Z.of_nat w \/ n < 0 \/ 10 ^ Z.of_nat w <= n.
Proof. lia. Qed.

(** After one more digit than the pattern has, a digit or a dot follows:
    no letter. *)
Lemma match_letter_after_digits (x : ascii) (p : list atom) (d2 rest : string) :
  all_digits d2 -> is_digit x = false -> Ascii.eqb "." x = false ->
  match_atoms (Lit x :: p) (d2 ++ String "." rest) = None.
Proof.
  intros Hd Hx Hdot. destruct d2 as [|c d2].
  - change (EmptyString ++ String "." rest)%string with (String "." rest).
    cbn [match_atoms atom_match]. now rewrite Hdot.
  - unfold all_digits in Hd. cbn [list_ascii_of_string] in Hd.
    apply Forall_cons in Hd as [Hc _].
    change (String c d2 ++ String "." rest)%string with (String c (d2 ++ String "." rest)).
    cbn [match_atoms atom_match]. now rewrite (digit_not c x Hc Hx).
Qed.

(** X4. The names that [build_bundle_filename] gives to bundles, the pattern
    for bundles and the numbers read back from a name: the name is
    recognised exactly when both indices have at most ten digits and no
    sign, and then the two groups of the name are the two indices. *)
Theorem bundle_filename_round_trip (start end_ : Z) :
  (re_match bundle_name_re (build_bundle_filename start end_) = true
   <-> 0 <= start < 10 ^ 10 /\ 0 <= end_ < 10 ^ 10)
  /\ (0 <= start < 10 ^ 10 -> 0 <= end_ < 10 ^ 10 ->
      int_of_digits (bundle_group1 (build_bundle_filename start end_)) = start
      /\ int_of_digits (bundle_group2 (build_bundle_filename start end_)) = end_).
Proof.
  assert (Hin : 0 <= start < 10 ^ 10 -> 0 <= end_ < 10 ^ 10 ->
      re_match bundle_name_re (build_bundle_filename start end_) = true
      /\ int_of_digits (bundle_group1 (build_bundle_filename start end_)) = start
      /\ int_of_digits (bundle_group2 (build_bundle_filename start end_)) = end_).
  { intros Hs He.
    destruct (format_0_digits 10 start ltac:(lia) Hs) as (Hd1 & Hl1 & Hv1).
    destruct (format_0_digits 10 end_ ltac:(lia) He) as (Hd2 & Hl2 & Hv2).
    unfold build_bundle_filename, bundle_group1, bundle_group2. split; [|split].
    - apply re_match_empty_rest. unfold bundle_name_re.
      rewrite match_format_0 by (auto; lia).
      change ("-" ++ format_0 10 end_ ++ ".json.gz")%string
        with (String "-" (format_0 10 end_ ++ ".json.gz")).
      cbn [app match_atoms atom_match Ascii.eqb Bool.eqb].
      rewrite match_format_0 by (auto; lia). reflexivity.
    - rewrite <- Hl1 at 1. now rewrite substring_prefix.
    - pose proof (substring_skip (format_0 10 start ++ "-") (format_0 10 end_ ++ ".json.gz") 10)
        as Hsk.
      rewrite string_length_app, Hl1, string_app_assoc in Hsk.
      change (String.length "-") with 1%nat in Hsk. change (10 + 1)%nat with 11%nat in Hsk.
      rewrite Hsk. rewrite <- Hl2 at 1. now rewrite substring_prefix. }
  split; [|intros Hs He; now apply Hin].
  split; [|intros [Hs He]; now apply Hin].
  intros Hm. unfold build_bundle_filename, bundle_name_re in Hm.
  destruct (in_range_dec 10 start) as [Hs|[Hs|Hs]].
  - split; [exact Hs|].
    destruct (in_range_dec 10 end_) as [He|[He|He]]; [exact He |exfalso|exfalso].
    + rewrite re_match_none in Hm; [discriminate|].
      rewrite match_format_0 by (auto; lia).
      change ("-" ++ format_0 10 end_ ++ ".json.gz")%string
        with (String "-" (format_0 10 end_ ++ ".json.gz")).
      cbn [app match_atoms atom_match Ascii.eqb Bool.eqb].
      apply match_format_0_negative; lia.
    + rewrite re_match_none in Hm; [discriminate|].
      rewrite match_format_0 by (auto; lia).
      change ("-" ++ format_0 10 end_ ++ ".json.gz")%string
        with (String "-" (format_0 10 end_ ++ ".json.gz")).
      cbn [app match_atoms atom_match Ascii.eqb Bool.eqb].
      match goal with |- match_atoms (replicate 10 Digit ++ ?p) _ = _ =>
        destruct (match_format_0_long 10 end_ p ".json.gz" He) as (c & d2 & Hc & Hd2 & ->)
      end.
      cbn [app match_atoms atom_match].
      assert (Hnl : Ascii.eqb c newline = false) by (apply digit_not; auto).
      rewrite Hnl. cbn [negb].
      apply (match_letter_after_digits "j"); auto.
  - exfalso. rewrite re_match_none in Hm; [discriminate|].
    apply match_format_0_negative; lia.
  - exfalso. rewrite re_match_none in Hm; [discriminate|].
    match goal with |- match_atoms (replicate 10 Digit ++ ?p) (_ ++ ?r) = _ =>
      destruct (match_format_0_long 10 start p r Hs) as (c & d2 & Hc & Hd2 & ->)
    end.
    cbn [app match_atoms atom_match].
    now rewrite (digit_not c "-" Hc).
Qed.

(** X5. The name of a package directory is recognised by the pattern for
    package directories exactly for the packages 0 to 999: the directory of
    package 1000 has four digits. *)
Theorem package_name_recognised (i : Z) :
  re_match package_name_re (build_package_name i) = true <-> 0 <= i < 1000.
Proof.
  unfold build_package_name, package_name_re.
  rewrite <- (app_nil_r (replicate 3 Digit)), <- (string_app_nil_r (format_0 3 i)).
  destruct (in_range_dec 3 i) as [Hi|[Hi|Hi]].
  - split; [intros _; exact Hi|intros _].
    apply re_match_empty_rest. rewrite match_format_0 by (auto; lia). reflexivity.
  - split; [|lia]. rewrite re_match_none; [discriminate|].
    apply match_format_0_negative; lia.
  - change (10 ^ Z.of_nat 3) with 1000 in Hi. split; [|lia].
    unfold re_match.
    destruct (match_format_0_long 3 i [] EmptyString ltac:(exact Hi))
      as (c & d2 & Hc & Hd2 & ->).
    cbn [match_atoms]. cbn [String.eqb orb].
    rewrite (digit_not c newline Hc) by reflexivity. discriminate.
Qed.

(** X6. The names that [build_info_file_name] gives to info files, the pattern
    for info files and the groups read back from a name. *)
Theorem info_file_name_round_trip (pkg_num tree_size : Z) :
  (re_match hash_name_re (build_info_file_name pkg_num tree_size) = true
   <-> 0 <= pkg_num < 1000 /\ 0 <= tree_size < 10 ^ 10)
  /\ (0 <= pkg_num < 1000 -> 0 <= tree_size < 10 ^ 10 ->
      hash_group1 (build_info_file_name pkg_num tree_size) = build_package_name pkg_num
      /\ int_of_digits (hash_group2 (build_info_file_name pkg_num tree_size)) = tree_size).
Proof.
  assert (Hin : 0 <= pkg_num < 1000 -> 0 <= tree_size < 10 ^ 10 ->
      re_match hash_name_re (build_info_file_name pkg_num tree_size) = true
      /\ hash_group1 (build_info_file_name pkg_num tree_size) = build_package_name pkg_num
      /\ int_of_digits (hash_group2 (build_info_file_name pkg_num tree_size)) = tree_size).
  { intros Hp Ht.
    destruct (format_0_digits 3 pkg_num ltac:(lia) Hp) as (Hd1 & Hl1 & Hv1).
    destruct (format_0_digits 10 tree_size ltac:(lia) Ht) as (Hd2 & Hl2 & Hv2).
    unfold build_info_file_name, hash_group1, hash_group2, build_package_name.
    split; [|split].
    - apply re_match_empty_rest. unfold hash_name_re.
      rewrite match_format_0 by (auto; lia).
      change ("-" ++ format_0 10 tree_size ++ ".info")%string
        with (String "-" (format_0 10 tree_size ++ ".info")).
      cbn [app match_atoms atom_match Ascii.eqb Bool.eqb].
      rewrite match_format_0 by (auto; lia). reflexivity.
    - rewrite <- Hl1 at 1. now rewrite substring_prefix.
    - pose proof (substring_skip (format_0 3 pkg_num ++ "-") (format_0 10 tree_size ++ ".info") 10)
        as Hsk.
      rewrite string_length_app, Hl1, string_app_assoc in Hsk.
      change (String.length "-") with 1%nat in Hsk. change (3 + 1)%nat with 4%nat in Hsk.
      rewrite Hsk. rewrite <- Hl2 at 1. now rewrite substring_prefix. }
  split; [|intros Hp Ht; now apply Hin].
  split; [|intros [Hp Ht]; now apply Hin].
  intros Hm. unfold build_info_file_name, hash_name_re in Hm.
  destruct (in_range_dec 3 pkg_num) as [Hp|[Hp|Hp]].
  - split; [exact Hp|].
    destruct (in_range_dec 10 tree_size) as [Ht|[Ht|Ht]]; [exact Ht |exfalso|exfalso].
    + rewrite re_match_none in Hm; [discriminate|].
      rewrite match_format_0 by (auto; lia).
      change ("-" ++ format_0 10 tree_size ++ ".info")%string
        with (String "-" (format_0 10 tree_size ++ ".info")).
      cbn [app match_atoms atom_match Ascii.eqb Bool.eqb].
      apply match_format_0_negative; lia.
    + rewrite re_match_none in Hm; [discriminate|].
      rewrite match_format_0 by (auto; lia).
      change ("-" ++ format_0 10 tree_size ++ ".info")%string
        with (String "-" (format_0 10 tree_size ++ ".info")).
      cbn [app match_atoms atom_match Ascii.eqb Bool.eqb].
      match goal with |- match_atoms (replicate 10 Digit ++ ?p) _ = _ =>
        destruct (match_format_0_long 10 tree_size p ".info" Ht) as (c & d2 & Hc & Hd2 & ->)
      end.
      cbn [app match_atoms atom_match].
      assert (Hnl : Ascii.eqb c newline = false) by (apply digit_not; auto).
      rewrite Hnl. cbn [negb].
      apply (match_letter_after_digits "i"); auto.
  - exfalso. rewrite re_match_none in Hm; [discriminate|].
    apply match_format_0_negative; lia.
  - exfalso. rewrite re_match_none in Hm; [discriminate|].
    match goal with |- match_atoms (replicate 3 Digit ++ ?p) (_ ++ ?r) = _ =>
      destruct (match_format_0_long 3 pkg_num p r Hp) as (c & d2 & Hc & Hd2 & ->)
    end.
    cbn [app match_atoms atom_match].
    now rewrite (digit_not c "-" Hc).
Qed.

End file_names.

(** * What [get_ct] does before it fetches entries *)

(** X7. A tree head that the log does not deliver, or whose check raises, is
    not written: [get_ct] stops with the exception after the request, and
    after the log list is read, and nothing else has happened. *)
Theorem get_ct_stops_on_bad_sth (w : world) (pkg_root_dir url log_list_file : string)
    (start_index step_size package_size bundle_size : Z) :
  bundle_size_ok bundle_size = true ->
  (forall status body, sth_response w = Done (status, body) -> status <> 200 ->
     get_ct w pkg_root_dir url log_list_file start_index step_size package_size bundle_size
     = ([Mkdir pkg_root_dir; HttpGet url "get-sth"], Raise (Exception "Could not fetch STH")))
  /\ (forall body sth e, sth_response w = Done (200, body) -> json.loads body = Some sth ->
     verify_sth w log_list_file url sth = Raise e ->
     get_ct w pkg_root_dir url log_list_file start_index step_size package_size bundle_size
     = ([Mkdir pkg_root_dir; HttpGet url "get-sth"; ReadFile log_list_file], Raise e)).
Proof.
  intros Hb. unfold get_ct, get_ct_run, get_sth, handle_new_sth. rewrite Hb. cbn [negb].
  split.
  - intros status body Hr Hs. rewrite Hr. cbn.
    destruct (Z.eqb_spec status 200); [contradiction|]. reflexivity.
  - intros body sth e Hr Hl Hv. rewrite Hr. cbn. rewrite Hl. cbn. rewrite Hv. reflexivity.
Qed.

(** X8. When the log has no entry after [start_index], that is for
    [0 <= start_index] and [tree_size <= start_index], [get_ct] raises
    "Nothing to do" after it has checked the tree head and written its
    file, and before it asks the log for any entry. *)
Theorem get_ct_nothing_to_do (w : world) (pkg_root_dir url log_list_file : string)
    (start_index step_size package_size bundle_size : Z)
    (body : string) (sth : json.value) (tree_size : Z) :
  bundle_size_ok bundle_size = true ->
  sth_response w = Done (200, body) ->
  json.loads body = Some sth ->
  verify_sth w log_list_file url sth = Done tt ->
  tree_size_of sth = Done tree_size ->
  0 <= start_index ->
  tree_size <= start_index ->
  get_ct w pkg_root_dir url log_list_file start_index step_size package_size bundle_size
  = ([Mkdir pkg_root_dir; HttpGet url "get-sth"; ReadFile log_list_file;
      WriteFile (path_join pkg_root_dir (build_sth_name tree_size)) (json.dumps sth)],
     Raise (Exception
       "Nothing to do. You already have the whole tree that can be fetched from this log (view).")).
Proof.
  intros Hb Hr Hl Hv Hts H0 Hle.
  unfold get_ct, get_ct_run, get_sth, handle_new_sth, write_sth. rewrite Hb. cbn [negb].
  rewrite Hr. cbn. rewrite Hl. cbn. rewrite Hv. cbn. rewrite Hts. cbn.
  rewrite (proj2 (Z.leb_le 0 start_index)) by lia.
  rewrite (proj2 (Z.leb_le tree_size start_index)) by lia. reflexivity.
Qed.

(** * The pieces across the files of a torrent *)

(** X9. For any positive piece length, [get_pieces] hashes the files as one
    stream: digest [i] is the SHA-1 of the bytes [i * piece_length] to
    [(i + 1) * piece_length] of the contents of the files put end to end,
    whatever the sizes of the files, and there are [T // piece_length + 1]
    digests for [T] bytes. *)
Theorem get_pieces_hashes_concatenation `{Pylib} (fuel : nat) (fs : filesystem)
    (pkg_root_dir : string) (files : list file_entry) (contents : list bytes)
    (piece_length : nat) :
  (0 < piece_length)%nat ->
  Forall2 (fun f content =>
             file_bytes fs !! path_join pkg_root_dir
                                 (str_join (String os_sep EmptyString) (f_path f))
             = Some content /\ (length content < fuel)%nat) files contents ->
  exists pieces,
    get_pieces fuel fs pkg_root_dir files piece_length = Done pieces
    /\ length pieces = (length (concat contents) / piece_length + 1)%nat
    /\ forall i, (i <= length (concat contents) / piece_length)%nat ->
         pieces !! i
         = Some (sha1 (take piece_length (drop (i * piece_length) (concat contents)))).
Proof.
  intros HL HF. eexists. split; [exact (get_pieces_digests piece_length HL fuel fs _ _ _ HF)|].
  unfold digests. split.
  - now rewrite length_map, length_seq.
  - intros i Hi. rewrite list_lookup_fmap, lookup_seq_lt by lia. reflexivity.
Qed.

(** X10. A file of the list that cannot be opened makes [get_pieces] raise
    [OSError], whatever was hashed before. *)
Theorem get_pieces_missing_file `{Pylib} (fuel : nat) (fs : filesystem)
    (pkg_root_dir : string) (before after : list file_entry) (missing : file_entry)
    (contents : list bytes) (piece_length : nat) :
  (0 < piece_length)%nat ->
  Forall2 (fun f content =>
             file_bytes fs !! path_join pkg_root_dir
                                 (str_join (String os_sep EmptyString) (f_path f))
             = Some content /\ (length content < fuel)%nat) before contents ->
  file_bytes fs !! path_join pkg_root_dir
                      (str_join (String os_sep EmptyString) (f_path missing)) = None ->
  get_pieces fuel fs pkg_root_dir (before ++ missing :: after) piece_length = Raise OSError.
Proof.
  intros HL HF Hnone. unfold get_pieces.
  set (body := fun (st : bytes * list bytes) (f : file_entry) => _).
  assert (Happ : forall l1 l2 st, for_each (l1 ++ l2) body st
                                  = (st' ← for_each l1 body st; for_each l2 body st')).
  { induction l1 as [|x l1 IH]; intros l2 st; [reflexivity|].
    cbn [app for_each]. destruct (body st x); cbn [mbind outcome_bind]; auto. }
  rewrite Happ.
  destruct (get_pieces_loop piece_length HL fuel fs pkg_root_dir before contents [] ([], []) HF)
    as (st' & Hfor & _).
  { split; cbn [fst snd length]; [now rewrite drop_nil|].
    rewrite Nat.Div0.div_0_l. reflexivity. }
  change (for_each before body ([], []) = Done st') in Hfor.
  rewrite Hfor. cbn [mbind outcome_bind for_each].
  assert (Hb : body st' missing = Raise OSError).
  { unfold body, open_rb, bytes in *. cbv beta. now rewrite Hnone. }
  rewrite Hb. reflexivity.
Qed.

(** * The requests for entries and the bundles written *)

Import getct_entries.

Lemma seqZ_cons_shift (n : Z) :
  0 < n -> seqZ 0 n = 0 :: map (Z.add 1) (seqZ 0 (n - 1)).
Proof.
  intros Hn. rewrite (seqZ_cons 0 n) by lia. f_equal.
  replace (Z.pred n) with (n - 1) by lia.
  change (map (Z.add 1) (seqZ 0 (n - 1))) with (Z.add 1 <$> seqZ 0 (n - 1)).
  now rewrite fmap_add_seqZ.
Qed.

Lemma range_step_cons (a b s : Z) :
  0 < s -> a < b ->
  exists l, range_step (a + s) b s = Done l /\ range_step a b s = Done (a :: l).
Proof.
  intros Hs Hab. unfold range_step.
  rewrite (proj2 (Z.eqb_neq s 0)) by lia. rewrite (proj2 (Z.ltb_lt 0 s)) by lia.
  rewrite (proj2 (Z.ltb_lt a b)) by lia.
  eexists. split; [reflexivity|]. f_equal.
  assert (Hq : 0 <= (b - a - 1) / s) by (apply Z.div_pos; lia).
  rewrite seqZ_cons_shift by lia. cbn [map]. f_equal; [lia|].
  rewrite map_map.
  replace ((b - a - 1) / s + 1 - 1) with (if a + s <? b then (b - (a + s) - 1) / s + 1 else 0).
  - apply map_ext. intros k. lia.
  - destruct (Z.ltb_spec (a + s) b) as [Hlt|Hge].
    + replace (b - a - 1) with (b - (a + s) - 1 + 1 * s) by lia.
      rewrite Z.div_add by lia. lia.
    + rewrite Z.div_small by lia. lia.
Qed.

Lemma range_step_nil (a b s : Z) : 0 < s -> b <= a -> range_step a b s = Done [].
Proof.
  intros Hs Hab. unfold range_step.
  rewrite (proj2 (Z.eqb_neq s 0)) by lia. rewrite (proj2 (Z.ltb_lt 0 s)) by lia.
  rewrite (proj2 (Z.ltb_ge a b)) by lia. reflexivity.
Qed.

Lemma get_entries_requests_cover (n : nat) (start step_size tree_size : Z) :
  0 < step_size -> tree_size - start <= Z.of_nat n ->
  exists reqs,
    get_entries_requests start step_size tree_size = Done reqs
    /\ concat (map (fun r : Z * Z => seqZ r.1 (r.2 - r.1 + 1)) reqs)
       = seqZ start (tree_size - start)
    /\ Forall (fun r : Z * Z => start <= r.1 <= r.2 /\ r.2 < tree_size
                                /\ r.2 - r.1 + 1 <= step_size) reqs.
Proof.
  intros Hs. revert start. induction n as [|n IH]; intros start Hn.
  - exists []. unfold get_entries_requests. rewrite range_step_nil by lia.
    split; [reflexivity|]. split; [|constructor].
    cbn [map concat]. unfold seqZ. now replace (Z.to_nat (tree_size - start)) with 0%nat by lia.
  - destruct (Z.le_gt_cases tree_size start) as [Hle|Hlt].
    + exists []. unfold get_entries_requests. rewrite range_step_nil by lia.
      split; [reflexivity|]. split; [|constructor].
      cbn [map concat]. unfold seqZ.
      now replace (Z.to_nat (tree_size - start)) with 0%nat by lia.
    + destruct (range_step_cons start tree_size step_size Hs Hlt) as (l & Hl & Hcons).
      destruct (IH (start + step_size) ltac:(lia)) as (reqs & Hreqs & Hcov & Hall).
      unfold get_entries_requests in *. rewrite Hl in Hreqs. rewrite Hcons.
      cbn [mbind outcome_bind map] in *. injection Hreqs as <-.
      eexists. split; [reflexivity|]. cbn [map concat fst snd]. split.
      * rewrite Hcov. destruct (Z.le_gt_cases tree_size (start + step_size)) as [Hend|Hmore].
        -- rewrite Z.min_r by lia.
           replace (tree_size - (start + step_size)) with (- (start + step_size - tree_size))
             by lia.
           unfold seqZ at 2.
           replace (Z.to_nat (- (start + step_size - tree_size))) with 0%nat by lia.
           cbn [seq fmap list_fmap]. rewrite app_nil_r. f_equal. lia.
        -- rewrite Z.min_l by lia.
           replace (start + step_size - 1 - start + 1) with step_size by lia.
           replace (tree_size - start) with (step_size + (tree_size - (start + step_size)))
             by lia.
           rewrite (seqZ_app start step_size) by lia. reflexivity.
      * constructor; [cbn [fst snd]; lia|].
        eapply Forall_impl; [exact Hall|]. intros r. cbv beta. lia.
Qed.

(** X11. The ranges that [get_entries] asks the log for are the indices from
    [start] to [tree_size - 1], each one once, in order, at most
    [step_size] of them in a request. *)
Theorem get_entries_requests_partition (start step_size tree_size : Z) :
  0 < step_size ->
  exists reqs,
    get_entries_requests start step_size tree_size = Done reqs
    /\ concat (map (fun r : Z * Z => seqZ r.1 (r.2 - r.1 + 1)) reqs)
       = seqZ start (tree_size - start)
    /\ Forall (fun r : Z * Z => start <= r.1 <= r.2 /\ r.2 < tree_size
                                /\ r.2 - r.1 + 1 <= step_size) reqs.
Proof.
  intros Hs.
  apply (get_entries_requests_cover (Z.to_nat (tree_size - start))); [exact Hs|lia].
Qed.

(** ** The bundles *)

Section bundles.
Variables (pkg_root_dir : string) (package_size bundle_size : Z).
Hypothesis Hbundle : 0 < bundle_size.

Let step := store_entries pkg_root_dir package_size bundle_size.

Lemma calls_ok_snoc (s0 : Z) (calls : list bundle_write) (c : bundle_write) :
  calls_ok pkg_root_dir package_size bundle_size s0 calls ->
  bundle_start c = s0 + Z.of_nat (length (concat (map bundle_lst calls))) ->
  package_dir c = build_package_dir pkg_root_dir (bundle_start c) package_size bundle_size ->
  bundle_lst c <> [] ->
  calls_ok pkg_root_dir package_size bundle_size s0 (calls ++ [c]).
Proof.
  intros Hok Hs Hd Hne k c' Hk.
  destruct (Nat.lt_ge_cases k (length calls)) as [Hlt|Hge].
  - rewrite lookup_app_l in Hk by exact Hlt.
    rewrite take_app_le by lia. now apply Hok.
  - rewrite lookup_app_r in Hk by exact Hge.
    destruct (k - length calls)%nat as [|d] eqn:Hd'; [|now destruct d].
    injection Hk as <-. assert (k = length calls) as -> by lia.
    rewrite take_app_length. auto.
Qed.

Lemma store_entries_keeps (s0 : Z) (st : store) (new_entries : list json.value) :
  calls_ok pkg_root_dir package_size bundle_size s0 (written st) ->
  next_start st = s0 + Z.of_nat (length (written_entries st)) ->
  calls_ok pkg_root_dir package_size bundle_size s0 (written (step st new_entries))
  /\ next_start (step st new_entries)
     = s0 + Z.of_nat (length (written_entries (step st new_entries)))
  /\ written_entries (step st new_entries) ++ pending_entries (step st new_entries)
     = written_entries st ++ pending_entries st ++ new_entries.
Proof.
  intros Hok Hnext. unfold step, store_entries, written_entries in *.
  destruct (Z.leb_spec bundle_size (Z.of_nat (length (pending_entries st ++ new_entries))))
    as [Hfull|Hnot]; cbn [written next_start pending_entries].
  - assert (Hlen : length (take (Z.to_nat bundle_size) (pending_entries st ++ new_entries))
                   = Z.to_nat bundle_size) by (rewrite length_take; lia).
    split; [|split].
    + apply calls_ok_snoc; cbn [bundle_start package_dir bundle_lst]; auto.
      intros Hnil. rewrite Hnil in Hlen. simpl in Hlen. lia.
    + rewrite map_app, concat_app, length_app. cbn [map concat bundle_lst].
      rewrite app_nil_r, Hlen. lia.
    + rewrite map_app, concat_app. cbn [map concat bundle_lst].
      rewrite app_nil_r, <- app_assoc, take_drop. reflexivity.
  - auto.
Qed.

Lemma store_loop_keeps (s0 : Z) (answers : list (list json.value)) (st : store) :
  calls_ok pkg_root_dir package_size bundle_size s0 (written st) ->
  next_start st = s0 + Z.of_nat (length (written_entries st)) ->
  let st' := fold_left step answers st in
  calls_ok pkg_root_dir package_size bundle_size s0 (written st')
  /\ next_start st' = s0 + Z.of_nat (length (written_entries st'))
  /\ written_entries st' ++ pending_entries st'
     = written_entries st ++ pending_entries st ++ concat answers.
Proof.
  revert st. induction answers as [|a answers IH]; intros st Hok Hnext; cbn [fold_left concat].
  - now rewrite app_nil_r.
  - destruct (store_entries_keeps s0 st a Hok Hnext) as (Hok1 & Hnext1 & Hdata1).
    destruct (IH (step st a) Hok1 Hnext1) as (Hok2 & Hnext2 & Hdata2).
    split; [exact Hok2|]. split; [exact Hnext2|].
    rewrite Hdata2, app_assoc, Hdata1, <- !app_assoc. reflexivity.
Qed.

Lemma store_entries_full (st : store) (new_entries : list json.value) :
  Z.of_nat (length new_entries) <= bundle_size ->
  full_bundles bundle_size st -> full_bundles bundle_size (step st new_entries).
Proof.
  intros Hnew [Hall Hpend]. unfold step, store_entries, full_bundles.
  destruct (Z.leb_spec bundle_size (Z.of_nat (length (pending_entries st ++ new_entries))))
    as [Hfull|Hnot]; cbn [written next_start pending_entries].
  - rewrite length_app in Hfull. split.
    + apply Forall_app. split; [exact Hall|]. constructor; [|constructor].
      cbn [bundle_lst]. rewrite length_take, length_app. lia.
    + rewrite length_drop, length_app. lia.
  - split; [exact Hall|exact Hnot].
Qed.

Lemma store_loop_full (answers : list (list json.value)) (st : store) :
  Forall (fun a => Z.of_nat (length a) <= bundle_size) answers ->
  full_bundles bundle_size st -> full_bundles bundle_size (fold_left step answers st).
Proof.
  intros Hans. revert st. induction Hans as [|a answers Ha _ IH]; intros st Hst; [exact Hst|].
  cbn [fold_left]. apply IH. now apply store_entries_full.
Qed.

Lemma length_concat_full (calls : list bundle_write) :
  Forall (fun c => Z.of_nat (length (bundle_lst c)) = bundle_size) calls ->
  Z.of_nat (length (concat (map bundle_lst calls))) = Z.of_nat (length calls) * bundle_size.
Proof.
  induction 1 as [|c calls Hc _ IH]; [reflexivity|].
  cbn [map concat length]. rewrite length_app. lia.
Qed.

End bundles.

Lemma get_ct_bundles_calls_ok (pkg_root_dir : string)
    (start_index package_size bundle_size : Z) (answers : list (list json.value)) :
  0 < bundle_size ->
  let calls := get_ct_bundles pkg_root_dir start_index package_size bundle_size answers in
  concat (map bundle_lst calls) = concat answers
  /\ calls_ok pkg_root_dir package_size bundle_size
       (start_index / bundle_size * bundle_size) calls.
Proof.
  intros Hb calls. unfold calls, get_ct_bundles.
  set (s0 := start_index / bundle_size * bundle_size).
  set (st0 := {| pending_entries := []; next_start := s0; written := [] |}).
  destruct (store_loop_keeps pkg_root_dir package_size bundle_size Hb s0 answers st0)
    as (Hok & Hnext & Hdata).
  { intros k c Hk. discriminate. }
  { unfold written_entries. cbn. lia. }
  cbv zeta in *. set (st := fold_left _ answers st0) in *.
  unfold written_entries in *. cbn [written pending_entries st0 map concat app] in Hdata.
  destruct (Nat.ltb_spec 0 (length (pending_entries st))) as [Hlt|Hge].
  - split.
    + rewrite map_app, concat_app. cbn [map concat bundle_lst]. now rewrite app_nil_r.
    + apply calls_ok_snoc; cbn [bundle_start package_dir bundle_lst]; auto.
      intros Hnil. rewrite Hnil in Hlt. simpl in Hlt. lia.
  - split; [|exact Hok].
    destruct (pending_entries st); [|simpl in Hge; lia]. now rewrite app_nil_r in Hdata.
Qed.

(** X12. For a positive [bundle_size] and a [package_size] other than 0 (for
    which [build_package_dir] raises [ZeroDivisionError]), the calls of
    [write_new_bundle] that [get_ct] makes hold, put end to
    end, the entries of the answers of the log, in order, each once; every
    call starts at the index that follows the entries of the calls before
    it, counted from [start_index] rounded down to a multiple of
    [bundle_size], goes to the directory that [build_package_dir] gives for
    that index, and holds at least one entry. *)
Theorem get_ct_bundles_keep_entries (pkg_root_dir : string)
    (start_index package_size bundle_size : Z) (answers : list (list json.value)) :
  0 < bundle_size -> package_size <> 0 ->
  let calls := get_ct_bundles pkg_root_dir start_index package_size bundle_size answers in
  concat (map bundle_lst calls) = concat answers
  /\ forall k c, calls !! k = Some c ->
       bundle_start c
       = start_index / bundle_size * bundle_size
         + Z.of_nat (length (concat (map bundle_lst (take k calls))))
       /\ package_dir c = build_package_dir pkg_root_dir (bundle_start c) package_size bundle_size
       /\ bundle_lst c <> [].
Proof.
  intros Hb _.
  exact (get_ct_bundles_calls_ok pkg_root_dir start_index package_size bundle_size answers Hb).
Qed.

Lemma div_within_bundle (m j P B : Z) :
  0 < B -> 0 < P -> 0 <= j < B -> (m * B + j) / (P * B) = m * B / (P * B).
Proof.
  intros HB HP Hj. rewrite (Z.mul_comm P B), <- !Z.div_div by lia.
  rewrite Z.div_mul by lia. rewrite Z.div_add_l by lia. rewrite (Z.div_small j B) by lia.
  f_equal. lia.
Qed.

(** X13. When no answer of the log holds more than [bundle_size] entries, every
    bundle that [get_ct] writes starts at a multiple of [bundle_size] and
    holds [bundle_size] entries, except the last one, which holds from one
    to [bundle_size]; and every entry of a bundle has its index in the
    package whose directory the bundle is written to. *)
Theorem get_ct_bundles_complete (pkg_root_dir : string)
    (start_index package_size bundle_size : Z) (answers : list (list json.value)) :
  0 < bundle_size -> 0 < package_size ->
  Forall (fun a => Z.of_nat (length a) <= bundle_size) answers ->
  let calls := get_ct_bundles pkg_root_dir start_index package_size bundle_size answers in
  forall k c, calls !! k = Some c ->
    bundle_start c = (start_index / bundle_size + Z.of_nat k) * bundle_size
    /\ (S k < length calls -> Z.of_nat (length (bundle_lst c)) = bundle_size)%nat
    /\ 1 <= Z.of_nat (length (bundle_lst c)) <= bundle_size
    /\ forall j, 0 <= j < Z.of_nat (length (bundle_lst c)) ->
         build_package_dir pkg_root_dir (bundle_start c + j) package_size bundle_size
         = package_dir c.
Proof.
  intros Hb Hp Hans calls k c Hk.
  destruct (get_ct_bundles_calls_ok pkg_root_dir start_index package_size bundle_size answers Hb)
    as [_ Hcalls].
  fold calls in Hcalls. destruct (Hcalls k c Hk) as (Hstart & Hdir & Hne).
  assert (Hfull : Forall (fun c => Z.of_nat (length (bundle_lst c)) = bundle_size)
                         (take (length calls - 1) calls)
                  /\ forall c', last calls = Some c' ->
                       Z.of_nat (length (bundle_lst c')) <= bundle_size).
  { unfold calls, get_ct_bundles.
    set (s0 := start_index / bundle_size * bundle_size).
    set (st0 := {| pending_entries := []; next_start := s0; written := [] |}).
    destruct (store_loop_full pkg_root_dir package_size bundle_size Hb answers st0 Hans)
      as [Hall Hpend].
    { split; [constructor|]. cbn. lia. }
    cbv zeta. set (st := fold_left _ answers st0) in *.
    destruct (Nat.ltb_spec 0 (length (pending_entries st))) as [Hlt|Hge].
    - rewrite length_app. cbn [length]. rewrite Nat.add_sub, take_app_length.
      split; [exact Hall|]. intros c'. rewrite last_snoc. intros [= <-].
      cbn [bundle_lst]. lia.
    - split; [now apply Forall_take|].
      intros c' Hlast. apply last_Some_elem_of in Hlast.
      rewrite Forall_forall in Hall. rewrite (Hall c' Hlast). lia. }
  destruct Hfull as [Hfull Hlast].
  assert (Hklt : (k < length calls)%nat) by (eapply lookup_lt_Some; exact Hk).
  assert (Hbefore : Z.of_nat (length (concat (map bundle_lst (take k calls))))
                    = Z.of_nat k * bundle_size).
  { rewrite (length_concat_full bundle_size).
    - rewrite length_take. lia.
    - replace (take k calls) with (take k (take (length calls - 1) calls))
        by (rewrite take_take; f_equal; lia).
      now apply Forall_take. }
  assert (Hsize : Z.of_nat (length (bundle_lst c)) <= bundle_size
                  /\ ((S k < length calls)%nat -> Z.of_nat (length (bundle_lst c)) = bundle_size)).
  { destruct (Nat.lt_ge_cases (S k) (length calls)) as [Hin|Hend].
    - assert (Hc : take (length calls - 1) calls !! k = Some c)
        by (rewrite lookup_take_lt by lia; exact Hk).
      rewrite Forall_forall in Hfull.
      pose proof (Hfull c (list_elem_of_lookup_2 _ _ _ Hc)) as Heq. split; [lia|auto].
    - split; [|lia]. apply Hlast. rewrite last_lookup.
      replace (Nat.pred (length calls)) with k by lia. exact Hk. }
  assert (Hpos : 1 <= Z.of_nat (length (bundle_lst c)))
    by (destruct (bundle_lst c); [congruence|simpl; lia]).
  split; [rewrite Hstart, Hbefore; lia|]. split; [apply Hsize|]. split; [lia|].
  intros j Hj. rewrite Hdir. unfold build_package_dir. do 2 f_equal.
  rewrite Hstart, Hbefore.
  replace (start_index / bundle_size * bundle_size + Z.of_nat k * bundle_size)
    with ((start_index / bundle_size + Z.of_nat k) * bundle_size) by lia.
  apply div_within_bundle; lia.
Qed.

(** * The URL of a log *)

Section log_urls.
Import urls.

Lemma find_slash_app (h r : string) :
  no_slash h -> find "/" (h ++ String "/" r) = Some (String.length h).
Proof.
  unfold no_slash. induction h as [|c h IH]; intros Hh; [reflexivity|].
  cbn [list_ascii_of_string] in Hh. apply Forall_cons in Hh as [Hc Hh].
  change (String c h ++ String "/" r)%string with (String c (h ++ String "/" r)).
  cbn [find]. rewrite Hc, (IH Hh). reflexivity.
Qed.

Lemma find_slash_none (h : string) : no_slash h -> find "/" h = None.
Proof.
  unfold no_slash. induction h as [|c h IH]; intros Hh; [reflexivity|].
  cbn [list_ascii_of_string] in Hh. apply Forall_cons in Hh as [Hc Hh].
  cbn [find]. rewrite Hc, (IH Hh). reflexivity.
Qed.

Lemma string_drop_app (h r : string) : string_drop (String.length h) (h ++ r) = r.
Proof. induction h as [|c h IH]; [reflexivity|exact IH]. Qed.

(** A string that ends with a character other than [/]. *)
Lemma rstrip_kept (a : string) (x : ascii) :
  Ascii.eqb x "/" = false ->
  rstrip "/" (a ++ String x EmptyString) = (a ++ String x EmptyString)%string.
Proof.
  intros Hx. induction a as [|c a IH].
  - change (EmptyString ++ String x EmptyString)%string with (String x EmptyString).
    cbn [rstrip]. now rewrite Hx.
  - change (String c a ++ String x EmptyString)%string
      with (String c (a ++ String x EmptyString)).
    cbn [rstrip]. rewrite IH. now destruct a.
Qed.

Lemma rstrip_slash (s : string) : rstrip "/" (s ++ "/") = rstrip "/" s.
Proof.
  induction s as [|c s IH]; [reflexivity|].
  change (String c s ++ "/")%string with (String c (s ++ "/")).
  cbn [rstrip]. now rewrite IH.
Qed.

Lemma split_go_segment (s cur rest : string) :
  no_slash s ->
  split_go "/" cur (s ++ rest) = split_go "/" (String.rev_app s cur) rest.
Proof.
  unfold no_slash. revert cur. induction s as [|c s IH]; intros cur Hs; [reflexivity|].
  cbn [list_ascii_of_string] in Hs. apply Forall_cons in Hs as [Hc Hs].
  change (String c s ++ rest)%string with (String c (s ++ rest)).
  cbn [split_go String.rev_app]. rewrite Hc. now apply IH.
Qed.

Lemma split_join (segs : list string) :
  segs <> [] -> Forall no_slash segs -> split "/" (str_join "/" segs) = segs.
Proof.
  unfold split. induction segs as [|s segs IH]; intros Hne Hall; [congruence|].
  apply Forall_cons in Hall as [Hs Hall]. destruct segs as [|s' segs].
  - cbn [str_join]. rewrite <- (string_app_nil_r s) at 1.
    rewrite split_go_segment by exact Hs. cbn [split_go].
    now rewrite rev_rev_app.
  - change (str_join "/" (s :: s' :: segs))
      with (s ++ String "/" (str_join "/" (s' :: segs)))%string.
    rewrite split_go_segment by exact Hs. cbn [split_go Ascii.eqb Bool.eqb].
    rewrite rev_rev_app. cbn [String.rev_app]. f_equal. apply IH; [discriminate|exact Hall].
Qed.

(** The text of segments that are not empty starts and ends with a
    character other than [/]. *)
Lemma join_ends (segs : list string) :
  segs <> [] -> Forall (fun s => no_slash s /\ s <> EmptyString) segs ->
  (exists x t, str_join "/" segs = String x t /\ Ascii.eqb x "/" = false)
  /\ (exists a x, str_join "/" segs = (a ++ String x EmptyString)%string
                  /\ Ascii.eqb x "/" = false).
Proof.
  induction segs as [|s segs IH]; intros Hne Hall; [congruence|].
  apply Forall_cons in Hall as [[Hs Hsne] Hall].
  assert (Hfirst : forall rest, exists x t, (s ++ rest)%string = String x t
                                            /\ Ascii.eqb x "/" = false).
  { intros rest. destruct s as [|x s]; [congruence|]. exists x, (s ++ rest)%string.
    split; [reflexivity|]. unfold no_slash in Hs. cbn [list_ascii_of_string] in Hs.
    now apply Forall_cons in Hs as [Hx _]. }
  assert (Hlast : exists a x, s = (a ++ String x EmptyString)%string
                              /\ Ascii.eqb x "/" = false).
  { clear -Hs Hsne. unfold no_slash in Hs. induction s as [|c s IH]; [congruence|].
    cbn [list_ascii_of_string] in Hs. apply Forall_cons in Hs as [Hc Hs].
    destruct s as [|c' s].
    - exists EmptyString, c. auto.
    - destruct (IH Hs ltac:(discriminate)) as (a & x & Heq & Hx).
      exists (String c a), x. split; [|exact Hx].
      change (String c a ++ String x EmptyString)%string
        with (String c (a ++ String x EmptyString)). now rewrite <- Heq. }
  destruct segs as [|s' segs].
  - cbn [str_join]. split; [|exact Hlast].
    destruct (Hfirst EmptyString) as (x & t & Heq & Hx). rewrite string_app_nil_r in Heq. eauto.
  - change (str_join "/" (s :: s' :: segs))
      with (s ++ String "/" (str_join "/" (s' :: segs)))%string.
    split; [apply Hfirst|].
    destruct (IH ltac:(discriminate) Hall) as [_ (a & x & Heq & Hx)].
    exists (s ++ String "/" a)%string, x. split; [|exact Hx].
    rewrite Heq, string_app_assoc. reflexivity.
Qed.

Lemma str_join_empty_snoc (l : list string) (z : string) :
  str_join EmptyString (l ++ [z]) = (str_join EmptyString l ++ z)%string.
Proof.
  induction l as [|x l IH]; [reflexivity|]. destruct l as [|x' l].
  - cbn [app str_join]. reflexivity.
  - change (str_join EmptyString ((x :: x' :: l) ++ [z]))
      with (x ++ EmptyString ++ str_join EmptyString ((x' :: l) ++ [z]))%string.
    rewrite IH.
    change (str_join EmptyString (x :: x' :: l))
      with (x ++ EmptyString ++ str_join EmptyString (x' :: l))%string.
    change (EmptyString ++ ?w)%string with w. now rewrite string_app_assoc.
Qed.

(** X14. For a URL made of a host name and at least one path segment, none of
    them holding a [/] and no segment empty, [parse_url] returns the host
    name and the segments; the path of the requests that [build_urlpath]
    makes from them is [/], the segments one after the other without
    anything between them, [/ct/v1/] and the command. *)
Theorem parse_url_segments (host : string) (segs : list string) (cmd : string) :
  no_slash host -> segs <> [] ->
  Forall (fun s => no_slash s /\ s <> EmptyString) segs ->
  let url := (host ++ "/" ++ str_join "/" segs)%string in
  parse_url url = (host, segs)
  /\ parse_url (url ++ "/") = (host, segs)
  /\ build_urlpath (Some (parse_url url).2) cmd None
     = ("/" ++ str_join EmptyString segs ++ "/ct/v1/" ++ cmd)%string.
Proof.
  intros Hhost Hne Hall url.
  assert (Hns : Forall no_slash segs) by (eapply Forall_impl; [exact Hall|]; now intros s [? _]).
  destruct (join_ends segs Hne Hall) as [(x & t & Hjoin & Hx) (a & y & Hjoin' & Hy)].
  assert (Hparse : forall tail, rstrip "/" (str_join "/" segs ++ tail) = str_join "/" segs ->
            parse_url (host ++ "/" ++ (str_join "/" segs ++ tail)) = (host, segs)).
  { intros tail Htail. unfold parse_url.
    change (host ++ "/" ++ (str_join "/" segs ++ tail))%string
      with (host ++ String "/" (str_join "/" segs ++ tail))%string.
    rewrite find_slash_app by exact Hhost.
    rewrite string_length_app. cbn [String.length].
    rewrite Hjoin at 1.
    change (String x t ++ tail)%string with (String x (t ++ tail)). cbn [String.length].
    destruct (Nat.eqb_spec (String.length host)
                (String.length host + S (S (String.length (t ++ tail))) - 1)) as [Habs|_];
      [lia|].
    rewrite substring_prefix, string_drop_app. f_equal.
    unfold path_from_urlpath, strip. cbn [lstrip Ascii.eqb Bool.eqb].
    rewrite Hjoin at 1. change (String x t ++ tail)%string with (String x (t ++ tail)).
    cbn [lstrip]. rewrite Hx.
    change (String x (t ++ tail)) with (String x t ++ tail)%string.
    rewrite <- Hjoin, Htail. now apply split_join. }
  assert (H1 : parse_url url = (host, segs)).
  { unfold url. rewrite <- (string_app_nil_r (str_join "/" segs)) at 1.
    apply Hparse. rewrite string_app_nil_r, Hjoin'. now apply rstrip_kept. }
  split; [exact H1|]. split.
  - unfold url. rewrite !string_app_assoc. apply Hparse.
    rewrite rstrip_slash, Hjoin'. now apply rstrip_kept.
  - rewrite H1. cbn [snd]. unfold build_urlpath.
    destruct segs as [|s segs]; [congruence|].
    rewrite !str_join_empty_snoc.
    change (str_join EmptyString ("/"%string :: s :: segs))
      with ("/" ++ EmptyString ++ str_join EmptyString (s :: segs))%string.
    change (EmptyString ++ ?w)%string with w. now rewrite !string_app_assoc.
Qed.

(** X15. A URL without any [/] is a host name, with no path; a URL whose only
    [/] is its last character is returned as it is, with the [/], and no
    path. *)
Theorem parse_url_without_path (host : string) (cmd : string) :
  no_slash host ->
  parse_url host = (host, [])
  /\ parse_url (host ++ "/") = ((host ++ "/")%string, [])
  /\ build_urlpath (Some []) cmd None = ("/ct/v1/" ++ cmd)%string.
Proof.
  intros Hhost. split; [|split].
  - unfold parse_url. now rewrite find_slash_none.
  - unfold parse_url. rewrite find_slash_app by exact Hhost.
    rewrite string_length_app. cbn [String.length].
    replace (String.length host + 1 - 1)%nat with (String.length host) by lia.
    now rewrite Nat.eqb_refl.
  - reflexivity.
Qed.

End log_urls.

(** * The inclusion proofs that [compute_proofs] writes *)

Section audit_paths.
Context `{Pylib}.
Import proof_levels.

Lemma PATH_single (m : nat) (x : bytes) : PATH m [x] = [].
Proof. now rewrite PATH_equation_2. Qed.

Lemma PATH_split (m : nat) (d : list bytes) :
  (2 <= length d)%nat ->
  PATH m d =
    if (m <? split_point (length d))%nat
    then PATH m (take (split_point (length d)) d) ++ [MTH (drop (split_point (length d)) d)]
    else PATH (m - split_point (length d)) (drop (split_point (length d)) d)
         ++ [MTH (take (split_point (length d)) d)].
Proof.
  destruct d as [|x [|y l]]; simpl; intros; try lia.
  now rewrite PATH_equation_3.
Qed.

Lemma sibling_take (m k : nat) (l : list bytes) :
  Nat.even k = true -> (m < k)%nat -> sibling m (take k l) = sibling m l.
Proof.
  intros Hk Hm. unfold sibling.
  assert (Hidx : ((if Nat.even m then S m else Nat.pred m) < k)%nat).
  { destruct (Nat.even m) eqn:Hev; [|lia].
    assert (S m <> k); [|lia]. intros <-. rewrite Nat.even_succ in Hk.
    rewrite <- Nat.negb_even, Hev in Hk. discriminate. }
  now rewrite lookup_take_lt.
Qed.

Lemma sibling_drop (m k : nat) (l : list bytes) :
  Nat.even k = true -> (k <= m)%nat -> sibling (m - k) (drop k l) = sibling m l.
Proof.
  intros Hk Hm. unfold sibling. rewrite lookup_drop.
  assert (Hpar : Nat.even (m - k) = Nat.even m).
  { replace m with ((m - k) + k)%nat at 2 by lia. rewrite Nat.even_add, Hk.
    now destruct (Nat.even (m - k)). }
  rewrite Hpar.
  assert (Hidx : (k + (if Nat.even m then S (m - k) else Nat.pred (m - k))
                  = if Nat.even m then S m else Nat.pred m)%nat).
  { destruct (Nat.even m) eqn:Hev; [lia|].
    assert (m <> k) by (intros ->; congruence). lia. }
  now rewrite Hidx.
Qed.

(** The audit path of a node of a level is what the node is hashed
    with when the level is reduced, if anything, followed by the audit path
    of the node above it in the reduced level. *)
Lemma PATH_reduce_level (m : nat) (l : list bytes) :
  (2 <= length l)%nat -> (m < length l)%nat ->
  PATH m l = sibling m l ++ PATH (m / 2) (reduce_level l).
Proof.
  revert m. induction l as [l IH] using (induction_ltof1 _ (@length _)); unfold ltof in IH.
  intros m Hlen Hm.
  destruct (Nat.le_gt_cases (length l) 2) as [Hsmall|Hbig].
  - destruct l as [|a [|b [|c rest]]]; simpl in Hlen, Hsmall, Hm; try lia.
    rewrite PATH_equation_3. cbn [length reduce_level].
    change (split_point 2) with 1%nat. cbn [take drop].
    rewrite !PATH_single, !MTH_single.
    destruct m as [|[|m]]; [reflexivity|reflexivity|lia].
  - destruct (split_point_half (length l) ltac:(lia)) as (p & Hk & Hp).
    pose proof (split_point_spec (length l) ltac:(lia)) as Hks.
    assert (Hev : Nat.even (2 * p) = true) by (rewrite Nat.even_mul; reflexivity).
    assert (Hlen_take : length (take (2 * p) l) = (2 * p)%nat) by (rewrite length_take; lia).
    assert (Hsplit : reduce_level l =
              reduce_level (take (2 * p) l) ++ reduce_level (drop (2 * p) l)).
    { rewrite <- reduce_level_app, take_drop; [reflexivity|]. now rewrite Hlen_take. }
    assert (Hlp : length (reduce_level (take (2 * p) l)) = p).
    { rewrite reduce_level_length, Hlen_take.
      replace (2 * p + 1)%nat with (p * 2 + 1)%nat by lia.
      rewrite Nat.div_add_l by lia. simpl. lia. }
    assert (Hm2 : (m / 2 < p <-> m < 2 * p)%nat).
    { pose proof (Nat.div_mod_eq m 2). pose proof (Nat.mod_upper_bound m 2 ltac:(lia)). lia. }
    pose proof (Nat.div_mod_eq (length l + 1) 2) as Hd1.
    pose proof (Nat.mod_upper_bound (length l + 1) 2 ltac:(lia)) as Hd2.
    rewrite (PATH_split m l) by lia.
    rewrite (PATH_split (m / 2) (reduce_level l)) by (rewrite reduce_level_length; lia).
    rewrite reduce_level_length, Hp, Hk.
    assert (Htake : take p (reduce_level l) = reduce_level (take (2 * p) l))
      by (rewrite Hsplit; apply take_app_length'; symmetry; exact Hlp).
    assert (Hdrop : drop p (reduce_level l) = reduce_level (drop (2 * p) l))
      by (rewrite Hsplit; apply drop_app_length'; symmetry; exact Hlp).
    rewrite !Htake, !Hdrop, !MTH_reduce_level.
    destruct (Nat.ltb_spec m (2 * p)) as [Hlow|Hhigh].
    + rewrite (proj2 (Nat.ltb_lt (m / 2) p)) by (apply Hm2; exact Hlow).
      rewrite IH by (rewrite ?Hlen_take; lia).
      rewrite sibling_take by assumption. now rewrite <- app_assoc.
    + rewrite (proj2 (Nat.ltb_ge (m / 2) p)) by lia.
      assert (Hhalf : ((m - 2 * p) / 2 = m / 2 - p)%nat).
      { replace m with ((m - 2 * p) + p * 2)%nat at 2 by lia.
        rewrite Nat.div_add by lia. lia. }
      destruct (Nat.le_gt_cases (length (drop (2 * p) l)) 1) as [Hone|Hmore].
      * rewrite length_drop in Hone.
        assert (Hm' : m = (2 * p)%nat) by lia.
        destruct (drop (2 * p) l) as [|x [|y r]] eqn:Hdr.
        -- apply (f_equal (@length _)) in Hdr. rewrite length_drop in Hdr. simpl in Hdr. lia.
        -- cbn [reduce_level]. rewrite !PATH_single. cbn [app].
           unfold sibling. rewrite Hm', Hev, lookup_ge_None_2 by lia. reflexivity.
        -- apply (f_equal (@length _)) in Hdr. rewrite length_drop in Hdr. simpl in Hdr. lia.
      * rewrite length_drop in Hmore.
        rewrite IH by (rewrite length_drop; lia).
        rewrite sibling_drop by (assumption || lia). rewrite Hhalf.
        now rewrite <- app_assoc.
Qed.

End audit_paths.

(** ** The masks *)

Section masks.
Import proof_levels.

Lemma level_mask_bit (c j : nat) (i : Z) :
  0 <= i ->
  Z.testbit (level_mask c j) i = (Z.of_nat j <=? i) && (i <? Z.of_nat c).
Proof.
  intros Hi. unfold level_mask. rewrite Z.shiftl_spec by lia.
  destruct (Z.leb_spec (Z.of_nat j) i) as [Hji|Hij]; cbn [andb].
  - rewrite Z.testbit_ones_nonneg by lia.
    destruct (Z.ltb_spec (i - Z.of_nat j) (Z.of_nat (c - j))),
             (Z.ltb_spec i (Z.of_nat c)); try reflexivity; lia.
  - apply Z.testbit_neg_r. lia.
Qed.

(** [mask ^= mask_canceler] zeroes the bit [j] of the mask, as long as the
    mask has it. *)
Lemma level_mask_lxor (c j : nat) :
  (j < c)%nat ->
  Z.lxor (level_mask c j) (2 ^ Z.of_nat j) = level_mask c (S j).
Proof.
  intros Hj. apply Z.bits_inj'. intros i Hi.
  rewrite Z.lxor_spec, !level_mask_bit, Z.pow2_bits_eqb by lia.
  destruct (Z.leb_spec (Z.of_nat j) i), (Z.leb_spec (Z.of_nat (S j)) i),
           (Z.ltb_spec i (Z.of_nat c)), (Z.eqb_spec (Z.of_nat j) i);
    try reflexivity; lia.
Qed.

(** Under the mask of the run [j], a number below [2 ^ c] is rounded down
    to a multiple of [2 ^ (j + 1)]. *)
Lemma level_mask_land (c j : nat) (x : Z) :
  0 <= x < 2 ^ Z.of_nat c ->
  Z.land x (level_mask c (S j))
  = x / 2 ^ Z.of_nat (S j) * 2 ^ Z.of_nat (S j).
Proof.
  intros Hx. rewrite <- Z.shiftr_div_pow2, <- Z.shiftl_mul_pow2 by lia.
  apply Z.bits_inj'. intros i Hi.
  rewrite Z.land_spec, level_mask_bit, Z.shiftl_spec by lia.
  destruct (Z.leb_spec (Z.of_nat (S j)) i) as [Hji|Hij]; cbn [andb].
  - rewrite Z.shiftr_spec by lia. replace (i - Z.of_nat (S j) + Z.of_nat (S j)) with i by lia.
    destruct (Z.ltb_spec i (Z.of_nat c)) as [Hic|Hci];
      [now rewrite andb_true_r|rewrite andb_false_r].
    rewrite <- (Z.mod_small x (2 ^ Z.of_nat c)) by lia.
    symmetry. apply Z.mod_pow2_bits_high. lia.
  - rewrite andb_false_r. symmetry. apply Z.testbit_neg_r. lia.
Qed.

(** [pkg_num & mask_canceler != 0] tests the bit [j] of the number. *)
Lemma canceler_bit (j : nat) (k : Z) :
  negb (Z.land k (2 ^ Z.of_nat j) =? 0) = Z.odd (k / 2 ^ Z.of_nat j).
Proof.
  rewrite <- Z.shiftr_div_pow2, <- Z.testbit_odd by lia.
  destruct (Z.testbit k (Z.of_nat j)) eqn:Hb.
  - apply negb_true_iff, Z.eqb_neq. intros H0.
    apply (f_equal (fun z => Z.testbit z (Z.of_nat j))) in H0.
    rewrite Z.land_spec, Hb, Z.pow2_bits_true, Z.bits_0 in H0 by lia. discriminate.
  - apply negb_false_iff, Z.eqb_eq. apply Z.bits_inj'. intros i Hi.
    rewrite Z.land_spec, Z.bits_0, Z.pow2_bits_eqb by lia.
    destruct (Z.eqb_spec (Z.of_nat j) i) as [<-|]; [now rewrite Hb|apply andb_false_r].
Qed.

Lemma even_of_nat (n : nat) : Z.even (Z.of_nat n) = Nat.even n.
Proof.
  induction n as [|n IH]; [reflexivity|].
  rewrite Nat2Z.inj_succ, Z.even_succ, Nat.even_succ, <- Z.negb_even, <- Nat.negb_even.
  now rewrite IH.
Qed.

Lemma odd_of_nat (n : nat) : Z.odd (Z.of_nat n) = Nat.odd n.
Proof. now rewrite <- Z.negb_even, <- Nat.negb_even, even_of_nat. Qed.

Lemma initial_mask_level (last_package : Z) :
  initial_mask last_package = level_mask (mask_bits last_package) 0.
Proof.
  unfold initial_mask, level_mask, mask_bits, ceil_log2.
  rewrite Z.shiftl_0_r, Nat.sub_0_r.
  destruct (0 <? last_package); [|reflexivity].
  rewrite Z2Nat.id by apply Z.log2_up_nonneg. unfold Z.ones. lia.
Qed.

End masks.

(** ** One run of the loop *)

Section levels.
Context `{Pylib}.
Import proof_levels.
Variables (c j : nat).

Lemma note_pair_lookup (m1 : Z) (a b : Z * bytes) (proofs : gmap Z (list bytes)) (k : Z) :
  note_pair m1 (2 ^ Z.of_nat j) a b proofs !! k
  = (fun proof =>
       if Z.land k m1 =? Z.land a.1 m1
       then if Z.odd (k / 2 ^ Z.of_nat j) then proof ++ [a.2] else proof ++ [b.2]
       else proof) <$> proofs !! k.
Proof.
  unfold note_pair. rewrite map_lookup_imap.
  destruct (proofs !! k); cbn; [rewrite canceler_bit|]; reflexivity.
Qed.

(** The test [pkg_num & mask == cur[i][0] & mask] for the pair of nodes at
    the positions [2 * h] and [2 * h + 1]: the package is below one of the
    two. *)
Lemma pair_condition (h : nat) (k : Z) :
  0 <= k < 2 ^ Z.of_nat c ->
  Z.of_nat (2 * h) * 2 ^ Z.of_nat j < 2 ^ Z.of_nat c ->
  (Z.land k (level_mask c (S j))
   =? Z.land (Z.of_nat (2 * h) * 2 ^ Z.of_nat j) (level_mask c (S j)))
  = (2 * h <=? position j k)%nat && (position j k <? 2 * h + 2)%nat.
Proof.
  intros Hk He.
  assert (Hp : 0 < 2 ^ Z.of_nat j) by (apply Z.pow_pos_nonneg; lia).
  assert (HS : 2 ^ Z.of_nat (S j) = 2 ^ Z.of_nat j * 2)
    by (rewrite Nat2Z.inj_succ, Z.pow_succ_r by lia; lia).
  rewrite !level_mask_land by lia.
  replace (Z.of_nat (2 * h) * 2 ^ Z.of_nat j) with (Z.of_nat h * 2 ^ Z.of_nat (S j)) by lia.
  rewrite Z.div_mul by lia.
  rewrite HS at 1. rewrite <- Z.div_div by lia.
  unfold position. set (Q := k / 2 ^ Z.of_nat j).
  assert (HQ : 0 <= Q) by (apply Z.div_pos; lia).
  pose proof (Z.div_mod Q 2 ltac:(lia)) as Hdm.
  pose proof (Z.mod_pos_bound Q 2 ltac:(lia)) as Hmb.
  assert (HSp : 0 < 2 ^ Z.of_nat (S j)) by lia.
  destruct (Z.eqb_spec (Q / 2 * 2 ^ Z.of_nat (S j)) (Z.of_nat h * 2 ^ Z.of_nat (S j))) as [Heq|Hne].
  - apply Z.mul_cancel_r in Heq; [|lia]. symmetry. apply andb_true_iff.
    split; [apply Nat.leb_le|apply Nat.ltb_lt]; lia.
  - symmetry. apply andb_false_iff.
    destruct (Nat.leb_spec (2 * h) (Z.to_nat Q)) as [Hle|Hgt]; [right|now left].
    apply Nat.ltb_ge. assert (Q / 2 <> Z.of_nat h) by (intros Heq; apply Hne; now rewrite Heq).
    lia.
Qed.

Lemma sibling_in_pair (i0 : nat) (a b : bytes) (rest : list bytes) (q : nat) :
  Nat.even i0 = true ->
  sibling_in i0 (a :: b :: rest) q
  = (if (i0 <=? q)%nat && (q <? i0 + 2)%nat then (if Nat.odd q then [a] else [b]) else [])
    ++ sibling_in (i0 + 2) rest q.
Proof.
  intros Hev. unfold sibling_in. cbn [length].
  destruct (Nat.leb_spec i0 q) as [Hle|Hgt]; cbn [andb].
  - destruct (Nat.ltb_spec q (i0 + 2)) as [Hpair|Hlater].
    + rewrite (proj2 (Nat.ltb_lt q (i0 + S (S (length rest))))) by lia.
      rewrite (proj2 (Nat.leb_gt (i0 + 2) q)) by lia. cbn [andb]. rewrite app_nil_r.
      assert (q = i0 \/ q = S i0) as [-> | ->] by lia.
      * rewrite Nat.sub_diag. rewrite <- Nat.negb_even, Hev. reflexivity.
      * replace (S i0 - i0)%nat with 1%nat by lia.
        rewrite Nat.odd_succ, Hev. reflexivity.
    + rewrite (proj2 (Nat.leb_le (i0 + 2) q)) by lia. cbn [andb app].
      replace (q <? i0 + S (S (length rest)))%nat with (q <? i0 + 2 + length rest)%nat
        by (f_equal; lia).
      destruct (q <? i0 + 2 + length rest)%nat; [|reflexivity].
      replace (q - (i0 + 2))%nat with (q - i0 - 2)%nat by lia.
      symmetry. apply (sibling_drop (q - i0) 2 (a :: b :: rest)); [reflexivity|lia].
  - rewrite (proj2 (Nat.leb_gt (i0 + 2) q)) by lia. reflexivity.
Qed.

Lemma half_even (i0 : nat) : Nat.even i0 = true -> (2 * (i0 / 2))%nat = i0.
Proof.
  intros Hev. apply Nat.even_spec in Hev as [h ->].
  rewrite (Nat.mul_comm 2 h), Nat.div_mul by lia. lia.
Qed.

(** The loop over the pairs of a level: the new level is the reduced
    level, numbered for the next run, and every package below a node of a
    pair has noted the other node of the pair. *)
Lemma hash_pairs_numbered (level : list bytes) :
  forall (i0 : nat) (proofs : gmap Z (list bytes)),
  Nat.even i0 = true ->
  (Z.of_nat (i0 + length level) - 1) * 2 ^ Z.of_nat j < 2 ^ Z.of_nat c ->
  (hash_pairs (level_mask c (S j)) (2 ^ Z.of_nat j) (numbered_from j i0 level) proofs).1
  = numbered_from (S j) (i0 / 2) (reduce_level level)
  /\ forall k, 0 <= k < 2 ^ Z.of_nat c ->
       (hash_pairs (level_mask c (S j)) (2 ^ Z.of_nat j) (numbered_from j i0 level) proofs).2 !! k
       = (fun p => p ++ sibling_in i0 level (position j k)) <$> proofs !! k.
Proof.
  induction level as [level IH] using (induction_ltof1 _ (@length _)); unfold ltof in IH.
  intros i0 proofs Hev Hrange.
  assert (Hp : 0 < 2 ^ Z.of_nat j) by (apply Z.pow_pos_nonneg; lia).
  assert (HS : 2 ^ Z.of_nat (S j) = 2 ^ Z.of_nat j * 2)
    by (rewrite Nat2Z.inj_succ, Z.pow_succ_r by lia; lia).
  pose proof (half_even i0 Hev) as Hhalf.
  destruct level as [|a [|b rest]].
  - split; [reflexivity|]. intros k Hk. cbn [numbered_from hash_pairs snd].
    unfold sibling_in. cbn [length]. rewrite Nat.add_0_r.
    replace ((i0 <=? position j k)%nat && (position j k <? i0)%nat) with false
      by (symmetry; apply andb_false_iff;
          destruct (Nat.leb_spec i0 (position j k)); [right; apply Nat.ltb_ge; lia|now left]).
    destruct (proofs !! k); cbn; [now rewrite app_nil_r|reflexivity].
  - split.
    + cbn [numbered_from hash_pairs fst reduce_level]. do 2 f_equal. rewrite HS. lia.
    + intros k Hk. cbn [numbered_from hash_pairs snd].
      assert (Hnone : sibling_in i0 [a] (position j k) = []).
      { unfold sibling_in. destruct (_ && _) eqn:Hin; [|reflexivity].
        apply andb_true_iff in Hin as [Hle Hlt].
        apply Nat.leb_le in Hle. apply Nat.ltb_lt in Hlt. simpl in Hlt.
        replace (position j k - i0)%nat with 0%nat by lia. reflexivity. }
      rewrite Hnone. destruct (proofs !! k); cbn; [now rewrite app_nil_r|reflexivity].
  - cbn [length] in Hrange.
    assert (He : Z.of_nat (2 * (i0 / 2)) * 2 ^ Z.of_nat j < 2 ^ Z.of_nat c)
      by (rewrite Hhalf; nia).
    cbn [numbered_from hash_pairs].
    destruct (IH rest ltac:(simpl; lia) (S (S i0))
                (note_pair (level_mask c (S j)) (2 ^ Z.of_nat j)
                   (Z.of_nat i0 * 2 ^ Z.of_nat j, a) (Z.of_nat (S i0) * 2 ^ Z.of_nat j, b) proofs))
      as [IH1 IH2].
    { rewrite !Nat.even_succ. rewrite <- Nat.negb_even, Nat.even_succ.
      rewrite <- Nat.negb_even, Hev. reflexivity. }
    { nia. }
    destruct (hash_pairs (level_mask c (S j)) (2 ^ Z.of_nat j) (numbered_from j (S (S i0)) rest) _)
      as [new proofs2].
    cbn [fst snd] in *. split.
    + cbn [reduce_level numbered_from]. f_equal.
      * f_equal. rewrite level_mask_land by nia.
        replace (Z.of_nat i0 * 2 ^ Z.of_nat j) with (Z.of_nat (i0 / 2) * 2 ^ Z.of_nat (S j))
          by (rewrite HS; lia).
        now rewrite Z.div_mul by lia.
      * rewrite IH1. f_equal.
        replace (S (S i0)) with (i0 + 1 * 2)%nat by lia. rewrite Nat.div_add by lia. lia.
    + intros k Hk. rewrite (IH2 k Hk), note_pair_lookup. cbn [fst snd].
      pose proof (pair_condition (i0 / 2) k Hk He) as Hcond. rewrite Hhalf in Hcond.
      rewrite Hcond.
      rewrite (sibling_in_pair i0 a b rest (position j k) Hev).
      replace (S (S i0)) with (i0 + 2)%nat by lia.
      assert (Hodd : Z.odd (k / 2 ^ Z.of_nat j) = Nat.odd (position j k)).
      { unfold position.
        assert (0 <= k / 2 ^ Z.of_nat j) by (apply Z.div_pos; lia).
        rewrite <- (Z2Nat.id (k / 2 ^ Z.of_nat j)) at 1 by lia.
        now rewrite odd_of_nat. }
      rewrite Hodd.
      destruct (proofs !! k) as [p|]; cbn [fmap option_fmap option_map]; [|reflexivity].
      f_equal.
      destruct ((i0 <=? position j k)%nat && (position j k <? i0 + 2)%nat);
        [destruct (Nat.odd (position j k))|]; cbn [app]; now rewrite <- ?app_assoc.
Qed.

End levels.

(** ** The runs of the loop, and the proofs at its end *)

Section numbering.
Import proof_levels.

Lemma numbered_from_length (j i0 : nat) (level : list bytes) :
  length (numbered_from j i0 level) = length level.
Proof. revert i0. induction level as [|h t IH]; intros i0; simpl; auto. Qed.

Lemma imap_numbered (i0 : nat) (l : list bytes) :
  imap (fun i h => (Z.of_nat (i0 + i), h)) l = numbered_from 0 i0 l.
Proof.
  revert i0. induction l as [|h t IH]; intros i0; [reflexivity|].
  rewrite imap_cons. cbn [numbered_from]. f_equal.
  - f_equal. rewrite Nat.add_0_r. change (2 ^ Z.of_nat 0) with 1. lia.
  - rewrite <- IH. apply imap_ext. intros i x _. cbn. do 2 f_equal. lia.
Qed.

Lemma position_half (j : nat) (k : Z) :
  0 <= k -> position (S j) k = (position j k / 2)%nat.
Proof.
  intros Hk. unfold position.
  assert (Hp : 0 < 2 ^ Z.of_nat j) by (apply Z.pow_pos_nonneg; lia).
  rewrite Nat2Z.inj_succ, Z.pow_succ_r, (Z.mul_comm 2), <- Z.div_div by lia.
  rewrite Z2Nat.inj_div by (try apply Z.div_pos; lia). reflexivity.
Qed.

End numbering.

Section runs.
Context `{Pylib}.
Import proof_levels.
Variables (hash_list : list bytes) (c : nat) (wanted : Z -> Prop).
Hypothesis Hbits : Z.of_nat (length hash_list) <= 2 ^ Z.of_nat c.

Lemma compute_proofs_levels (fuel : nat) :
  forall (j : nat) (level : list bytes) (s : proof_state),
  cur s = numbered_from j 0 level ->
  mask s = level_mask c j ->
  mask_canceler s = 2 ^ Z.of_nat j ->
  level <> [] ->
  Z.of_nat (length hash_list) <= Z.of_nat (length level) * 2 ^ Z.of_nat j ->
  (Z.of_nat (length level) - 1) * 2 ^ Z.of_nat j < Z.of_nat (length hash_list) ->
  (length level <= fuel)%nat ->
  (forall k, 0 <= k < Z.of_nat (length hash_list) -> wanted k ->
     exists p, proofs s !! k = Some p
               /\ p ++ PATH (position j k) level = PATH (Z.to_nat k) hash_list) ->
  exists s',
    while fuel (fun s => (1 <? length (cur s))%nat) proof_step s = Some s'
    /\ forall k, 0 <= k < Z.of_nat (length hash_list) -> wanted k ->
         proofs s' !! k = Some (PATH (Z.to_nat k) hash_list).
Proof.
  induction fuel as [|f IH]; intros j level s Hcur Hmask Hcanc Hne Hcover Hlast Hfuel Hproofs.
  { destruct level; simpl in *; [congruence|lia]. }
  assert (Hp : 0 < 2 ^ Z.of_nat j) by (apply Z.pow_pos_nonneg; lia).
  assert (HS : 2 ^ Z.of_nat (S j) = 2 ^ Z.of_nat j * 2)
    by (rewrite Nat2Z.inj_succ, Z.pow_succ_r by lia; lia).
  cbn [while]. rewrite Hcur, numbered_from_length.
  destruct (Nat.ltb_spec 1 (length level)) as [Hlong|Hshort].
  - assert (Hj : (j < c)%nat).
    { apply Nat2Z.inj_lt. apply (Z.pow_lt_mono_r_iff 2); [lia|lia|]. nia. }
    destruct (hash_pairs_numbered c j level 0%nat (proofs s) eq_refl ltac:(simpl; nia))
      as [Hnew Hnoted].
    pose proof (reduce_level_length level) as Hlen'.
    pose proof (Nat.div_mod_eq (length level + 1) 2) as Hd1.
    pose proof (Nat.mod_upper_bound (length level + 1) 2 ltac:(lia)) as Hd2.
    apply (IH (S j) (reduce_level level)).
    + unfold proof_step. rewrite Hmask, Hcanc, level_mask_lxor, Hcur by exact Hj.
      destruct (hash_pairs _ _ _ _) as [new proofs1]. cbn [cur fst] in *. exact Hnew.
    + unfold proof_step. rewrite Hmask, Hcanc, level_mask_lxor, Hcur by exact Hj.
      destruct (hash_pairs _ _ _ _) as [new proofs1]. reflexivity.
    + unfold proof_step. rewrite Hmask, Hcanc, level_mask_lxor, Hcur by exact Hj.
      destruct (hash_pairs _ _ _ _) as [new proofs1]. cbn [mask_canceler].
      rewrite Z.shiftl_mul_pow2 by lia. rewrite HS. lia.
    + intros Hnil. rewrite Hnil in Hlen'. cbn [length] in Hlen'. lia.
    + rewrite Hlen', HS. nia.
    + rewrite Hlen', HS. nia.
    + rewrite Hlen'. lia.
    + intros k Hk Hw. destruct (Hproofs k Hk Hw) as (p & Hp0 & Hpath).
      assert (Hq : (position j k < length level)%nat).
      { unfold position. apply Nat2Z.inj_lt. rewrite Z2Nat.id by (apply Z.div_pos; lia).
        apply Z.div_lt_upper_bound; lia. }
      exists (p ++ sibling (position j k) level). split.
      * unfold proof_step. rewrite Hmask, Hcanc, level_mask_lxor, Hcur by exact Hj.
        specialize (Hnoted k ltac:(lia)).
        destruct (hash_pairs _ _ _ _) as [new proofs1]. cbn [proofs snd] in *.
        assert (Hsib : sibling_in 0 level (position j k) = sibling (position j k) level).
        { unfold sibling_in. rewrite Nat.sub_0_r.
          change (0 + length level)%nat with (length level).
          rewrite (proj2 (Nat.ltb_lt _ _) Hq). reflexivity. }
        rewrite Hnoted, Hp0, Hsib. reflexivity.
      * rewrite <- Hpath, <- app_assoc. f_equal.
        rewrite position_half by lia. symmetry. apply PATH_reduce_level; lia.
  - exists s. split; [reflexivity|]. intros k Hk Hw.
    destruct (Hproofs k Hk Hw) as (p & Hp0 & Hpath).
    destruct level as [|x [|y r]]; [congruence| |simpl in Hshort; lia].
    rewrite PATH_single, app_nil_r in Hpath. now rewrite Hp0, Hpath.
Qed.

End runs.

Lemma for_each_ext_in {A S : Type} (l : list A) (f g : S -> A -> outcome S) (s : S) :
  (forall s x, x ∈ l -> f s x = g s x) -> for_each l f s = for_each l g s.
Proof.
  revert s. induction l as [|x l IH]; intros s Hfg; [reflexivity|].
  cbn [for_each]. rewrite (Hfg s x) by constructor.
  destruct (g s x); cbn [mbind outcome_bind]; try reflexivity.
  apply IH. intros s' y Hy. apply Hfg. now constructor.
Qed.

Lemma initial_proofs_lookup (a b k : Z) :
  a <= k < b ->
  (list_to_map (map (fun i : Z => (i, @nil bytes)) (hashbundles.range a b)) : gmap Z (list bytes)) !! k
  = Some [].
Proof.
  intros Hk. apply elem_of_list_to_map.
  - change (map (fun i : Z => (i, [])) (hashbundles.range a b)).*1
      with (fst <$> ((fun i : Z => (i, @nil bytes)) <$> hashbundles.range a b)).
    rewrite <- list_fmap_compose. unfold compose. cbn [fst].
    rewrite list_fmap_id. apply NoDup_seqZ.
  - apply (list_elem_of_fmap_2 (fun i : Z => (i, @nil bytes))).
    unfold hashbundles.range. apply elem_of_seqZ. lia.
Qed.

(** The first mask numbers [last_package + 1] packages when
    [last_package] is not a power of two. *)
Lemma initial_mask_covers (last_package : Z) :
  0 < last_package -> (forall e, 0 <= e -> last_package <> 2 ^ e) ->
  last_package + 1 <= initial_mask last_package + 1.
Proof.
  intros Hpos Hnot. unfold initial_mask, ceil_log2.
  rewrite (proj2 (Z.ltb_lt 0 last_package)) by lia.
  rewrite Z.shiftl_1_l.
  assert (Hone : last_package <> 1) by (apply (Hnot 0); lia).
  pose proof (Z.log2_up_spec last_package ltac:(lia)) as Hspec.
  pose proof (Hnot (Z.log2_up last_package) (Z.log2_up_nonneg _)). lia.
Qed.

(** X16. When the package hashes are no more than the first mask can number
    ([initial_mask last_package + 1] of them), [compute_proofs] writes for
    every package from [start_package] to [last_package] its audit path of
    RFC 6962 in the tree of the package hashes, and returns the root of that
    tree. By [initial_mask_covers] the condition holds for the
    [last_package + 1] hashes of a log when [last_package] is not a power
    of two. [PATH] and [MTH] are those of the module [rfc6962], with its
    node hash [SHA-256(0x01 || left || right)]. *)
Theorem compute_proofs_writes_audit_paths `{Pylib} (fuel : nat) (fs : filesystem)
    (pkg_root_dir : string) (tree_size start_package last_package : Z)
    (hash_list : list bytes) :
  get_pkg_hash_list fs pkg_root_dir tree_size = Done hash_list ->
  hash_list <> [] ->
  (length hash_list <= fuel)%nat ->
  0 <= start_package ->
  last_package < Z.of_nat (length hash_list) ->
  Z.of_nat (length hash_list) <= initial_mask last_package + 1 ->
  compute_proofs fuel fs pkg_root_dir tree_size start_package last_package
  = (fs' ← for_each (hashbundles.range start_package (last_package + 1))
             (fun fs1 pkg_num =>
                write_proof fs1 pkg_root_dir tree_size pkg_num
                  (PATH (Z.to_nat pkg_num) hash_list))
             fs;
     Done (fs', b64encode (MTH hash_list))).
Proof.
  intros Hhl Hne Hfuel Hstart Hlast Hmask.
  unfold compute_proofs. rewrite Hhl. cbn [mbind outcome_bind].
  set (P0 := list_to_map _ : gmap Z (list bytes)).
  set (s0 := {| mask := _; mask_canceler := 1; cur := _; proofs := P0 |}).
  assert (Hcur0 : cur s0 = proof_levels.numbered_from 0 0 hash_list)
    by (unfold s0; cbn [cur]; apply (imap_numbered 0%nat)).
  assert (Hbits : Z.of_nat (length hash_list)
                  <= 2 ^ Z.of_nat (proof_levels.mask_bits last_package)).
  { rewrite initial_mask_level in Hmask. unfold proof_levels.level_mask in Hmask.
    rewrite Z.shiftl_0_r, Nat.sub_0_r, Z.ones_equiv in Hmask. lia. }
  destruct (compute_proofs_levels hash_list (proof_levels.mask_bits last_package)
              (fun k => start_package <= k <= last_package) Hbits fuel 0%nat hash_list s0)
    as (s' & Hwhile & Hpaths); try assumption.
  { unfold s0. cbn [mask]. apply initial_mask_level. }
  { reflexivity. }
  { change (2 ^ Z.of_nat 0) with 1. lia. }
  { change (2 ^ Z.of_nat 0) with 1. lia. }
  { intros k Hk Hw. exists []. split.
    - unfold s0. cbn [proofs]. unfold P0. apply initial_proofs_lookup. lia.
    - cbn [app]. unfold proof_levels.position. change (2 ^ Z.of_nat 0) with 1.
      now rewrite Z.div_1_r. }
  destruct (compute_proofs_loop fuel s0) as (s'' & x & Hwhile' & Hx & Hroot).
  { rewrite Hcur0. destruct hash_list; simpl; congruence. }
  { rewrite Hcur0, numbered_from_length. exact Hfuel. }
  rewrite Hwhile in Hwhile'. injection Hwhile' as <-. rewrite Hwhile.
  rewrite (for_each_ext_in _ _
             (fun fs1 pkg_num =>
                write_proof fs1 pkg_root_dir tree_size pkg_num
                  (PATH (Z.to_nat pkg_num) hash_list))).
  - destruct (for_each _ _ fs) as [fs'| |]; cbn [mbind outcome_bind]; try reflexivity.
    rewrite Hx. cbn [lookup list_lookup]. rewrite Hroot. unfold s0. cbn [cur].
    now rewrite map_snd_imap.
  - intros fs1 k Hk. unfold hashbundles.range in Hk. apply elem_of_seqZ in Hk.
    rewrite (Hpaths k) by lia. reflexivity.
Qed.

(** * The number of pieces of a torrent *)

(** X17. The piece length of [create_torrent] is a positive multiple of 8192,
    and it cuts the files in at most 1874 full pieces, and in at least 1500
    when the files hold 1500 pieces of 32768 bytes or more: with the last
    digest of [get_pieces], a torrent has from 1501 to 1875 pieces once it
    is large, and never more than 1875. *)
Theorem piece_length_piece_count (files : list file_entry) :
  0 <= total_size files ->
  32768 <= piece_length files
  /\ piece_length files mod 8192 = 0
  /\ total_size files / piece_length files <= 1874
  /\ (1500 * 32768 <= total_size files -> 1500 <= total_size files / piece_length files).
Proof.
  intros HT. rewrite piece_length_div. set (T := total_size files) in *.
  change (2 ^ 15) with 32768. change (2 ^ 13) with 8192.
  set (q := T / 1500 / 8192).
  pose proof (Z.div_mod T 1500 ltac:(lia)) as H1.
  pose proof (Z.mod_pos_bound T 1500 ltac:(lia)) as H2.
  pose proof (Z.div_mod (T / 1500) 8192 ltac:(lia)) as H3.
  pose proof (Z.mod_pos_bound (T / 1500) 8192 ltac:(lia)) as H4.
  fold q in H3.
  assert (Hq : 0 <= q) by (unfold q; apply Z.div_pos; [apply Z.div_pos|]; lia).
  destruct (Z.max_spec 32768 (q * 8192)) as [[Hlt ->]|[Hge ->]].
  - split; [lia|]. split; [apply Z.mod_mul; lia|]. split.
    + assert (T / (q * 8192) < 1875); [|lia].
      apply Z.div_lt_upper_bound; [lia|]. nia.
    + intros _. apply Z.div_le_lower_bound; [lia|]. nia.
  - split; [lia|]. split; [reflexivity|]. split.
    + assert (T / 32768 < 1875); [|lia].
      apply Z.div_lt_upper_bound; [lia|]. nia.
    + intros Hbig. apply Z.div_le_lower_bound; lia.
Qed.

(** Two files of 300,000,000 bytes in all. *)
Lemma piece_length_piece_count_witness :
  let files := [ {| f_length := 299000000; f_path := ["000"; "0000000000-0000001023.json.gz"] |};
                 {| f_length := 1000000; f_path := ["sth-0000001024.json"] |} ]%string in
  total_size files / piece_length files <= 1874
  /\ 1500 <= total_size files / piece_length files.
Proof.
  intros files.
  destruct (piece_length_piece_count files ltac:(vm_compute; discriminate))
    as (_ & _ & Hmax & Hmin).
  split; [exact Hmax|]. apply Hmin. vm_compute. discriminate.
Defined.

(** * bencode: the loop and the encoding of BEP 3 *)

Section bencode_loop.
Import bencoding.

(** Sorting the items of a dict by their keys, before or after their values
    are encoded. *)
Section sorted_items.
Context {A B : Type} (f : A -> B).

Let g (kv : string * A) : string * B := (kv.1, f kv.2).

Lemma list_merge_values (l1 l2 : list (string * A)) :
  list_merge key_le (map g l1) (map g l2) = map g (list_merge key_le l1 l2).
Proof.
  revert l2. induction l1 as [|x1 l1 IH1]; intros l2; [now destruct l2|].
  induction l2 as [|x2 l2 IH2]; [reflexivity|].
  cbn [map list_merge].
  destruct (decide (key_le (g x1) (g x2))) as [Hle|Hnle],
           (decide (key_le x1 x2)) as [Hle'|Hnle']; try (exfalso; tauto).
  - cbn [map]. f_equal. apply (IH1 (x2 :: l2)).
  - cbn [map]. f_equal. exact IH2.
Qed.

Lemma merge_list_to_stack_values (st : list (option (list (string * A))))
    (l : list (string * A)) :
  merge_list_to_stack key_le (map (option_map (map g)) st) (map g l)
  = map (option_map (map g)) (merge_list_to_stack key_le st l).
Proof.
  revert l. induction st as [|[l'|] st IH]; intros l; try reflexivity.
  cbn [map option_map merge_list_to_stack]. f_equal.
  rewrite list_merge_values. apply IH.
Qed.

Lemma merge_stack_values (st : list (option (list (string * A)))) :
  merge_stack key_le (map (option_map (map g)) st) = map g (merge_stack key_le st).
Proof.
  induction st as [|[l'|] st IH]; try reflexivity; cbn [map option_map merge_stack].
  - rewrite IH. apply list_merge_values.
  - exact IH.
Qed.

Lemma merge_sort_values (l : list (string * A)) :
  merge_sort key_le (map g l) = map g (merge_sort key_le l).
Proof.
  unfold merge_sort.
  change (@nil (option (list (string * B)))) with (map (option_map (map g)) []).
  generalize (@nil (option (list (string * A)))) as st.
  induction l as [|x l IH]; intros st; cbn [map merge_sort_aux].
  - apply merge_stack_values.
  - change [g x] with (map g [x]). rewrite merge_list_to_stack_values. apply IH.
Qed.

End sorted_items.

Lemma dict_items_weight (d : list (string * bvalue)) :
  list_sum (map item_weight (dict_items d))
  = list_sum (map (fun kv : string * bvalue => (1 + weight kv.2)%nat) d).
Proof.
  unfold dict_items.
  transitivity (list_sum (map (fun kv : string * bvalue => (1 + weight kv.2)%nat)
                              (merge_sort key_le d))).
  - induction (merge_sort key_le d) as [|kv l IH]; [reflexivity|].
    cbn [flat_map app map].
    change (list_sum (?a :: ?b :: ?r)) with (a + (b + list_sum r))%nat.
    rewrite IH. change (list_sum (?a :: ?r)) with (a + list_sum r)%nat.
    cbn [item_weight weight]. lia.
  - apply Permutation_list_sum. apply Permutation_map. apply merge_sort_Permutation.
Qed.

Lemma dict_items_encode (d : list (string * bvalue)) :
  concat (map encode_item (dict_items d))
  = concat (map (fun kv : string * bytes => byte_string (utf8 kv.1) ++ kv.2)
                (merge_sort key_le (map (fun kv : string * bvalue => (kv.1, encode kv.2)) d))).
Proof.
  rewrite (merge_sort_values encode). unfold dict_items.
  induction (merge_sort key_le d) as [|kv l IH]; [reflexivity|].
  cbn [flat_map app map concat encode_item fst snd]. rewrite IH.
  cbn [encode]. now rewrite <- !app_assoc.
Qed.

Lemma utf8_app (a b : string) : utf8 (a ++ b) = utf8 a ++ utf8 b.
Proof.
  unfold utf8. induction a as [|c a IH]; [reflexivity|].
  change (String c a ++ b)%string with (String c (a ++ b)).
  cbn [list_ascii_of_string flat_map]. now rewrite IH, app_assoc.
Qed.

(** A [str] of ASCII characters has as many bytes as characters. *)
Lemma utf8_ascii_length (x : string) :
  ascii_str x = true -> length (utf8 x) = String.length x.
Proof.
  unfold ascii_str, utf8. induction x as [|c x IH]; [reflexivity|].
  cbn [list_ascii_of_string forallb flat_map String.length].
  intros Hx. apply andb_true_iff in Hx as [Hc Hx].
  unfold utf8_char. unfold is_ascii in Hc. rewrite Hc.
  change (length ([byte_of_ascii c] ++ ?r)) with (S (length r)).
  f_equal. apply IH, Hx.
Qed.

Lemma dict_items_ascii (d : list (string * bvalue)) :
  forallb (fun kv : string * bvalue => ascii_str kv.1 && ascii_only kv.2) d = true ->
  Forall (fun it => item_ascii_only it = true) (dict_items d).
Proof.
  intros Hd. unfold dict_items.
  assert (Hs : Forall (fun kv : string * bvalue => ascii_str kv.1 && ascii_only kv.2 = true)
                      (merge_sort key_le d)).
  { apply Forall_forall. intros kv Hkv. rewrite merge_sort_Permutation in Hkv.
    rewrite forallb_forall in Hd. apply Hd. now apply list_elem_of_In. }
  induction Hs as [|kv l Hkv _ IH]; [constructor|].
  apply andb_true_iff in Hkv as [Hk Hv].
  cbn [flat_map app]. constructor; [exact Hk|]. constructor; [exact Hv|exact IH].
Qed.

(** With one unit of fuel per run, the loop empties the work list, and the
    pieces it adds are the encodings of the elements of the list, in
    order. *)
Lemma bencode_while (fuel : nat) :
  forall (l : list item) (s : list bytes),
  (list_sum (map item_weight l) < fuel)%nat ->
  Forall (fun it => item_ascii_only it = true) l ->
  exists s',
    while fuel (fun st : list item * list bytes => (0 <? length st.1)%nat) bencode_step (l, s)
    = Some ([], s')
    /\ concat s' = concat s ++ concat (map encode_item l).
Proof.
  induction fuel as [|f IH]; intros l s Hfuel Hascii; [lia|].
  destruct l as [|it l].
  { exists s. split; [reflexivity|]. cbn. now rewrite app_nil_r. }
  cbn [while fst length Nat.ltb Nat.leb]. cbn [map] in Hfuel.
  change (list_sum (?a :: ?r)) with (a + list_sum r)%nat in Hfuel.
  apply Forall_cons in Hascii as [Hit Hl].
  assert (Hsnoc : forall piece, concat (s ++ [piece]) = concat s ++ piece).
  { intros piece. rewrite concat_app. cbn. now rewrite app_nil_r. }
  destruct it as [[v|b|x|n|items|d|]| |];
    cbn [bencode_step item_weight weight item_ascii_only ascii_only] in *.
  - destruct (IH l (s ++ [v]) ltac:(lia) Hl) as (s' & Hw & Hs').
    exists s'. split; [exact Hw|]. rewrite Hs', Hsnoc. cbn [map concat encode_item encode].
    now rewrite <- app_assoc.
  - destruct (IH l (s ++ [utf8 (str_of_len (length b)) ++ utf8 ":" ++ b]) ltac:(lia) Hl)
      as (s' & Hw & Hs').
    exists s'. split; [exact Hw|]. rewrite Hs', Hsnoc. cbn [map concat encode_item encode].
    unfold byte_string, str_of_len. now rewrite <- !app_assoc.
  - destruct (IH l (s ++ [utf8 (str_of_len (String.length x) ++ ":" ++ x)]) ltac:(lia) Hl)
      as (s' & Hw & Hs').
    exists s'. split; [exact Hw|]. rewrite Hs', Hsnoc. cbn [map concat encode_item encode].
    unfold byte_string, str_of_len. rewrite !utf8_app, (utf8_ascii_length x Hit).
    now rewrite <- !app_assoc.
  - destruct (IH l (s ++ [utf8 "i" ++ utf8 (str_of_int n) ++ utf8 "e"]) ltac:(lia) Hl)
      as (s' & Hw & Hs').
    exists s'. split; [exact Hw|]. rewrite Hs', Hsnoc. cbn [map concat encode_item encode].
    now rewrite <- !app_assoc.
  - destruct (IH (map Value items ++ [EndList] ++ l) (s ++ [utf8 "l"])) as (s' & Hw & Hs').
    { rewrite !map_app, !list_sum_app. cbn [map item_weight].
      change (list_sum [1%nat]) with 1%nat.
      replace (map item_weight (map Value items)) with (map weight items)
        by (rewrite map_map; reflexivity).
      lia. }
    { apply Forall_app; split; [|constructor; [reflexivity|exact Hl]].
      apply Forall_forall. intros it Hin. apply list_elem_of_fmap in Hin as (v & -> & Hv).
      rewrite forallb_forall in Hit. apply Hit. now apply list_elem_of_In. }
    exists s'. split; [exact Hw|]. rewrite Hs', Hsnoc, !map_app, !concat_app.
    replace (map encode_item (map Value items)) with (map encode items)
      by (rewrite map_map; reflexivity).
    cbn [map concat encode_item encode].
    now rewrite <- !app_assoc.
  - destruct (IH (dict_items d ++ [EndDict] ++ l) (s ++ [utf8 "d"])) as (s' & Hw & Hs').
    { rewrite !map_app, !list_sum_app, dict_items_weight. cbn [map item_weight].
      change (list_sum [1%nat]) with 1%nat. lia. }
    { apply Forall_app; split; [now apply dict_items_ascii|constructor; [reflexivity|exact Hl]]. }
    exists s'. split; [exact Hw|]. rewrite Hs', Hsnoc, !map_app, !concat_app, dict_items_encode.
    cbn [map concat encode_item encode]. now rewrite <- !app_assoc.
  - destruct (IH l s ltac:(lia) Hl) as (s' & Hw & Hs').
    exists s'. split; [exact Hw|]. rewrite Hs'. reflexivity.
  - destruct (IH l (s ++ [utf8 "e"]) ltac:(lia) Hl) as (s' & Hw & Hs').
    exists s'. split; [exact Hw|]. rewrite Hs', Hsnoc. cbn [map concat encode_item].
    now rewrite <- app_assoc.
  - destruct (IH l (s ++ [utf8 "e"]) ltac:(lia) Hl) as (s' & Hw & Hs').
    exists s'. split; [exact Hw|]. rewrite Hs', Hsnoc. cbn [map concat encode_item].
    now rewrite <- app_assoc.
Qed.

(** A [str] with a character that is not ASCII is written with the number
    of its characters before the bytes of its UTF-8 text, which are more:
    the result is not the encoding of BEP 3. *)
Lemma bencode_counts_characters :
  bencode 2 (BStr e_acute) = Done (utf8 "1:" ++ [xc3; xa9])
  /\ encode (BStr e_acute) = utf8 "2:" ++ [xc3; xa9].
Proof. split; vm_compute; reflexivity. Qed.

(** X18. For an object whose [str] objects and dict keys hold ASCII
    characters only, and with enough fuel for its [weight], the work-list
    loop of [bencode] ends and returns the encoding of BEP 3 of the object:
    the elements of a list in order, the items of a dict in the order of
    their keys, the bytes of a [Raw] object as they are, and nothing for an
    object of a type that [bencode] does not know. *)
Theorem bencode_is_bep3_encoding (fuel : nat) (obj : bvalue) :
  (weight obj < fuel)%nat -> ascii_only obj = true ->
  bencode fuel obj = Done (encode obj).
Proof.
  intros Hfuel Hascii. unfold bencode.
  destruct (bencode_while fuel [Value obj] []) as (s' & -> & Hs').
  { cbn [map item_weight]. change (list_sum [?a]) with (a + 0)%nat. lia. }
  { constructor; [exact Hascii|constructor]. }
  cbn [snd]. rewrite Hs'. cbn [map concat encode_item app]. now rewrite app_nil_r.
Qed.

End bencode_loop.

(** * The order of the names and the files that are kept *)

Section name_order.
Import json.

Lemma ascii_compare_refl (c : ascii) : Ascii.compare c c = Eq.
Proof. unfold Ascii.compare. apply N.compare_refl. Qed.

(** The order of two strings is the order of what follows a prefix they
    share. *)
Lemma compare_app_prefix (p a b : string) :
  String.compare (p ++ a) (p ++ b) = String.compare a b.
Proof.
  induction p as [|c p IH]; [reflexivity|].
  change (String c p ++ a)%string with (String c (p ++ a)).
  change (String c p ++ b)%string with (String c (p ++ b)).
  cbn [String.compare]. now rewrite ascii_compare_refl.
Qed.

(** The prefixes of two strings in order are in order. *)
Lemma compare_prefix (n : nat) (a b : string) :
  String.compare a b <> Gt ->
  String.compare (String.substring 0 n a) (String.substring 0 n b) <> Gt.
Proof.
  revert a b. induction n as [|n IH]; intros a b Hab.
  - destruct a, b; cbn; discriminate.
  - destruct a as [|c a], b as [|d b]; cbn [String.substring String.compare] in *;
      try discriminate; try congruence.
    destruct (Ascii.compare c d); try congruence. now apply IH.
Qed.

Lemma value_from_acc (s : string) (acc : Z) :
  value_from acc s = acc * 10 ^ Z.of_nat (String.length s) + value_from 0 s.
Proof.
  revert acc. induction s as [|c s IH]; intros acc.
  - cbn. lia.
  - unfold value_from in *. cbn [list_ascii_of_string fold_left String.length].
    rewrite IH, (IH (10 * 0 + digit_value c)).
    rewrite Nat2Z.inj_succ, Z.pow_succ_r by lia. lia.
Qed.

Lemma digit_value_range (c : ascii) : is_digit c = true -> 0 <= digit_value c <= 9.
Proof.
  unfold is_digit, digit_value. intros Hc. apply andb_true_iff in Hc as [H1 H2].
  apply Nat.leb_le in H1, H2. lia.
Qed.

Lemma value_from_bound (s : string) :
  all_digits s -> 0 <= value_from 0 s < 10 ^ Z.of_nat (String.length s).
Proof.
  unfold all_digits. induction s as [|c s IH]; intros Hs; [cbn; lia|].
  cbn [list_ascii_of_string] in Hs. apply Forall_cons in Hs as [Hc Hs].
  specialize (IH Hs). pose proof (digit_value_range c Hc).
  unfold value_from in *. cbn [list_ascii_of_string fold_left String.length].
  fold (value_from (10 * 0 + digit_value c) s). rewrite value_from_acc.
  unfold value_from. rewrite Nat2Z.inj_succ, Z.pow_succ_r by lia. nia.
Qed.

Lemma digit_value_compare (c d : ascii) :
  Ascii.compare c d = (digit_value c ?= digit_value d).
Proof.
  unfold Ascii.compare, digit_value, nat_of_ascii.
  rewrite !N_nat_Z, <- N2Z.inj_compare.
  destruct (Z.compare_spec (Z.of_N (N_of_ascii c)) (Z.of_N (N_of_ascii d))),
           (Z.compare_spec (Z.of_N (N_of_ascii c) - 48) (Z.of_N (N_of_ascii d) - 48));
    try reflexivity; lia.
Qed.

(** Two strings of as many digits compare as their values do. *)
Lemma digits_compare (x y : string) :
  all_digits x -> all_digits y -> String.length x = String.length y ->
  String.compare x y = (value_from 0 x ?= value_from 0 y).
Proof.
  revert y. induction x as [|c x IH]; intros [|d y] Hx Hy Hlen; try discriminate.
  - reflexivity.
  - pose proof (value_from_bound x) as Hbx. pose proof (value_from_bound y) as Hby.
    unfold all_digits in *. cbn [list_ascii_of_string] in Hx, Hy.
    apply Forall_cons in Hx as [Hc Hx]. apply Forall_cons in Hy as [Hd Hy].
    injection Hlen as Hlen. specialize (Hbx Hx). specialize (Hby Hy).
    cbn [String.compare]. rewrite digit_value_compare.
    unfold value_from at 1 2. cbn [list_ascii_of_string fold_left].
    fold (value_from (10 * 0 + digit_value c) x). fold (value_from (10 * 0 + digit_value d) y).
    rewrite (value_from_acc x), (value_from_acc y), <- Hlen.
    rewrite <- Hlen in Hby.
    set (P := 10 ^ Z.of_nat (String.length x)) in *.
    destruct (Z.compare_spec (digit_value c) (digit_value d)) as [Heq|Hlt|Hgt].
    + rewrite (IH y Hx Hy Hlen), Heq. symmetry.
      apply Z.add_compare_mono_l.
    + symmetry. apply Z.compare_lt_iff. nia.
    + symmetry. apply Z.compare_gt_iff. nia.
Qed.

(** A pattern of [n] digits takes [n] digits off the subject. *)
Lemma match_digits_inv (n : nat) (p : list atom) (s r : string) :
  match_atoms (replicate n Digit ++ p) s = Some r ->
  exists d s', s = (d ++ s')%string /\ all_digits d /\ String.length d = n
               /\ match_atoms p s' = Some r.
Proof.
  revert s. induction n as [|n IH]; intros s Hm.
  - exists EmptyString, s. repeat split; [constructor|exact Hm].
  - cbn [replicate app match_atoms atom_match] in Hm.
    destruct s as [|c s]; [discriminate|]. destruct (is_digit c) eqn:Hc; [|discriminate].
    destruct (IH s Hm) as (d & s' & -> & Hd & Hl & Hp).
    exists (String c d), s'. repeat split; auto.
    + unfold all_digits. cbn [list_ascii_of_string]. constructor; auto.
    + simpl. now rewrite Hl.
Qed.

(** The order of two names made of [w1] digits, a character, and [w2]
    digits: the first numbers are in order, and when they are equal the
    values of the second numbers are in order. *)
Lemma name_order (w1 w2 : nat) (d1 d2 t e1 e2 u : string) (c : ascii) :
  String.length d1 = w1 -> String.length e1 = w1 ->
  all_digits d2 -> all_digits e2 -> String.length d2 = w2 -> String.length e2 = w2 ->
  String.le (d1 ++ String c (d2 ++ t)) (e1 ++ String c (e2 ++ u)) ->
  String.le d1 e1 /\ (d1 = e1 -> int_of_digits d2 <= int_of_digits e2).
Proof.
  intros Hd1 He1 Hd2 He2 Hl2 Hm2 Hle. unfold String.le, String.leb in *.
  assert (Hng : String.compare (d1 ++ String c (d2 ++ t)) (e1 ++ String c (e2 ++ u)) <> Gt)
    by (destruct (String.compare _ _); [discriminate|discriminate|contradiction]).
  split.
  - pose proof (compare_prefix w1 _ _ Hng) as Hp.
    rewrite <- Hd1 in Hp at 1. rewrite <- He1 in Hp. rewrite !substring_prefix in Hp.
    destruct (String.compare d1 e1); [exact I|exact I|congruence].
  - intros <-. rewrite compare_app_prefix in Hng. cbn [String.compare] in Hng.
    rewrite ascii_compare_refl in Hng.
    pose proof (compare_prefix w2 _ _ Hng) as Hp.
    rewrite <- Hl2 in Hp at 1. rewrite <- Hm2 in Hp. rewrite !substring_prefix in Hp.
    rewrite digits_compare in Hp by (auto; congruence).
    unfold int_of_digits. fold (value_from 0 d2). fold (value_from 0 e2).
    now apply Z.compare_le_iff.
Qed.

End name_order.

(** ** The info files that [get_pkg_hash_list] keeps *)

Section info_files_kept.
Import json.
Variable tree_size : Z.

Lemma hash_name_shape (a : string) :
  re_match hash_name_re a = true ->
  exists d1 d2 t, a = (d1 ++ String "-" (d2 ++ t))%string
    /\ String.length d1 = 3%nat /\ all_digits d2 /\ String.length d2 = 10%nat
    /\ hash_group1 a = d1 /\ hash_group2 a = d2.
Proof.
  unfold re_match, hash_name_re. intros Hm.
  destruct (match_atoms _ a) as [r|] eqn:Hma; [|discriminate]. clear Hm.
  apply match_digits_inv in Hma as (d1 & s1 & -> & Hd1 & Hl1 & Hma).
  cbn [app match_atoms atom_match] in Hma.
  destruct s1 as [|c s1]; [discriminate|].
  destruct (Ascii.eqb_spec c "-") as [->|]; [|discriminate].
  apply match_digits_inv in Hma as (d2 & s2 & -> & Hd2 & Hl2 & _).
  exists d1, d2, s2. repeat split; auto.
  - unfold hash_group1. rewrite <- Hl1. apply substring_prefix.
  - unfold hash_group2.
    pose proof (substring_skip (d1 ++ "-") (d2 ++ s2) 10) as Hsk.
    rewrite string_length_app, Hl1, string_app_assoc in Hsk.
    change (String.length "-") with 1%nat in Hsk. change (3 + 1)%nat with 4%nat in Hsk.
    change ("-" ++ d2 ++ s2)%string with (String "-" (d2 ++ s2)) in Hsk.
    rewrite Hsk. rewrite <- Hl2. apply substring_prefix.
Qed.

Lemma hash_name_le (a b : string) :
  re_match hash_name_re a = true -> re_match hash_name_re b = true -> String.le a b ->
  String.le (hash_group1 a) (hash_group1 b)
  /\ (hash_group1 a = hash_group1 b ->
      int_of_digits (hash_group2 a) <= int_of_digits (hash_group2 b)).
Proof.
  intros Ha Hb Hle.
  destruct (hash_name_shape a Ha) as (d1 & d2 & t & Ea & Hl1 & Hd2 & Hl2 & -> & ->).
  destruct (hash_name_shape b Hb) as (e1 & e2 & u & Eb & Hm1 & He2 & Hm2 & -> & ->).
  rewrite Ea, Eb in Hle. exact (name_order 3 10 d1 d2 t e1 e2 u "-" Hl1 Hm1 Hd2 He2 Hl2 Hm2 Hle).
Qed.

(** A later name of the same package that is not newer than [tree_size]
    makes the loop skip the name: the name after it is one. *)
Lemma info_file_skipped (cur nxt y : string) (rest : list string) :
  StronglySorted String.le (cur :: nxt :: rest) ->
  Forall (fun x => re_match hash_name_re x = true) (cur :: nxt :: rest) ->
  y ∈ nxt :: rest ->
  hash_group1 y = hash_group1 cur ->
  int_of_digits (hash_group2 y) <= tree_size ->
  String.eqb (hash_group1 cur) (hash_group1 nxt)
  && (int_of_digits (hash_group2 nxt) <=? tree_size) = true.
Proof.
  intros Hs Hm Hy Hg Ht.
  apply StronglySorted_inv in Hs as [Hs Hcur].
  apply StronglySorted_inv in Hs as [_ Hnxt].
  apply Forall_cons in Hm as [Mcur Hm]. pose proof Hm as Hm'.
  apply Forall_cons in Hm as [Mnxt Hm].
  assert (My : re_match hash_name_re y = true) by (rewrite Forall_forall in Hm'; auto).
  assert (Hcn : String.le cur nxt) by (apply Forall_cons in Hcur as [? _]; auto).
  assert (Hny : String.le nxt y).
  { apply elem_of_cons in Hy as [->|Hy]; [reflexivity|].
    rewrite Forall_forall in Hnxt. auto. }
  destruct (hash_name_le cur nxt Mcur Mnxt Hcn) as [H1 _].
  destruct (hash_name_le nxt y Mnxt My Hny) as [H2 H3].
  rewrite Hg in H2.
  assert (Heq : hash_group1 cur = hash_group1 nxt) by (apply (anti_symm String.le); auto).
  apply andb_true_iff. split; [now apply String.eqb_eq|].
  apply Z.leb_le. specialize (H3 ltac:(congruence)). lia.
Qed.

Lemma filter_info_cons (cur : string) (rest : list string) (x : string) :
  x ∈ filter_info_file_list tree_size (cur :: rest) ->
  (x = cur /\ int_of_digits (hash_group2 cur) <= tree_size
   /\ match rest with
      | nxt :: _ => String.eqb (hash_group1 cur) (hash_group1 nxt)
                    && (int_of_digits (hash_group2 nxt) <=? tree_size) = false
      | [] => True
      end)
  \/ x ∈ filter_info_file_list tree_size rest.
Proof.
  cbn [filter_info_file_list]. destruct rest as [|nxt rest'].
  - destruct (Z.leb_spec (int_of_digits (hash_group2 cur)) tree_size); [|now right].
    intros Hx. apply elem_of_cons in Hx as [->|Hx]; [left; auto|now right].
  - destruct (_ && _) eqn:Hskip; [now right|].
    destruct (Z.leb_spec (int_of_digits (hash_group2 cur)) tree_size); [|now right].
    intros Hx. apply elem_of_cons in Hx as [->|Hx]; [left; auto|now right].
Qed.

Lemma filter_info_tail (cur : string) (rest : list string) (x : string) :
  x ∈ filter_info_file_list tree_size rest ->
  x ∈ filter_info_file_list tree_size (cur :: rest).
Proof.
  intros Hx. cbn [filter_info_file_list].
  destruct (match rest with [] => false | _ => _ end); [exact Hx|].
  destruct (_ <=? _); [apply elem_of_cons; now right|exact Hx].
Qed.

Lemma filter_info_elem (names : list string) (x : string) :
  x ∈ filter_info_file_list tree_size names ->
  x ∈ names /\ int_of_digits (hash_group2 x) <= tree_size.
Proof.
  induction names as [|cur rest IH]; intros Hx; [inversion Hx|].
  apply filter_info_cons in Hx as [(-> & Ht & _)|Hx].
  - split; [constructor|exact Ht].
  - destruct (IH Hx). split; [now constructor|assumption].
Qed.

(** In the sorted names of the info files, the names kept are, for every
    package that has an info file not newer than [tree_size], the most
    recent of these, and nothing else. *)
Lemma filter_info_most_recent (names : list string) :
  StronglySorted String.le names ->
  Forall (fun x => re_match hash_name_re x = true) names ->
  (forall x, x ∈ filter_info_file_list tree_size names ->
     forall y, y ∈ names -> hash_group1 y = hash_group1 x ->
       int_of_digits (hash_group2 y) <= tree_size ->
       int_of_digits (hash_group2 y) <= int_of_digits (hash_group2 x))
  /\ (forall y, y ∈ names -> int_of_digits (hash_group2 y) <= tree_size ->
        exists x, x ∈ filter_info_file_list tree_size names
                  /\ hash_group1 x = hash_group1 y)
  /\ NoDup (map hash_group1 (filter_info_file_list tree_size names)).
Proof.
  induction names as [|cur rest IH]; intros Hs Hm.
  { split; [intros x Hx; inversion Hx|]. split; [intros y Hy; inversion Hy|constructor]. }
  pose proof Hs as Hs'. apply StronglySorted_inv in Hs' as [Hsr Hcur].
  pose proof Hm as Hm'. apply Forall_cons in Hm' as [Mcur Hmr].
  destruct (IH Hsr Hmr) as (IH1 & IH2 & IH3).
  assert (Hlater : forall y, y ∈ rest -> hash_group1 y = hash_group1 cur ->
            int_of_digits (hash_group2 y) <= tree_size ->
            match rest with
            | nxt :: _ => String.eqb (hash_group1 cur) (hash_group1 nxt)
                          && (int_of_digits (hash_group2 nxt) <=? tree_size) = false
            | [] => True
            end -> False).
  { intros y Hy Hg Ht Hkeep. destruct rest as [|nxt rest']; [inversion Hy|].
    rewrite (info_file_skipped cur nxt y rest' Hs Hm Hy Hg Ht) in Hkeep. discriminate. }
  split; [|split].
  - intros x Hx y Hy Hg Ht.
    apply filter_info_cons in Hx as [(-> & Hcurt & Hkeep)|Hx].
    + apply elem_of_cons in Hy as [->|Hy]; [lia|].
      exfalso. exact (Hlater y Hy Hg Ht Hkeep).
    + apply elem_of_cons in Hy as [->|Hy]; [|now apply (IH1 x Hx)].
      destruct (filter_info_elem rest x Hx) as [Hxr _].
      rewrite Forall_forall in Hcur, Hmr.
      destruct (hash_name_le cur x Mcur (Hmr x Hxr) (Hcur x Hxr)) as [_ Hle]. auto.
  - intros y Hy Ht. apply elem_of_cons in Hy as [->|Hy].
    + cbn [filter_info_file_list]. destruct rest as [|nxt rest'].
      * rewrite (proj2 (Z.leb_le _ _) Ht). exists cur. split; [constructor|reflexivity].
      * destruct (_ && _) eqn:Hskip.
        -- apply andb_true_iff in Hskip as [Hg Hn].
           apply String.eqb_eq in Hg. apply Z.leb_le in Hn.
           destruct (IH2 nxt ltac:(constructor) Hn) as (x & Hx & Hgx).
           exists x. split; [exact Hx|congruence].
        -- rewrite (proj2 (Z.leb_le _ _) Ht). exists cur. split; [constructor|reflexivity].
    + destruct (IH2 y Hy Ht) as (x & Hx & Hgx).
      exists x. split; [now apply filter_info_tail|exact Hgx].
  - cbn [filter_info_file_list].
    destruct (match rest with [] => false | _ => _ end) eqn:Hskip; [exact IH3|].
    destruct (Z.leb_spec (int_of_digits (hash_group2 cur)) tree_size) as [Ht|]; [|exact IH3].
    cbn [map]. constructor; [|exact IH3].
    intros Hin. apply list_elem_of_fmap in Hin as (x & Hg & Hx).
    destruct (filter_info_elem rest x Hx) as [Hxr Hxt].
    apply (Hlater x Hxr (eq_sym Hg) Hxt).
    destruct rest; [exact I|exact Hskip].
Qed.

End info_files_kept.

Lemma for_each_read_info (fs : filesystem) (pkg_root_dir : string) (names : list string) :
  forall acc hash_list,
  for_each names
    (fun hash_list hash_file =>
       o ← read_info fs (path_join pkg_root_dir hash_file);
       Done (hash_list ++ [pkg_hash o])) acc = Done hash_list ->
  exists hashes, hash_list = acc ++ hashes
    /\ Forall2 (fun x h => exists o, info_files fs !! path_join pkg_root_dir x = Some o
                                     /\ pkg_hash o = h) names hashes.
Proof.
  induction names as [|x names IH]; intros acc hash_list Hrun.
  - cbn [for_each] in Hrun. assert (hash_list = acc) as -> by congruence.
    exists []. split; [now rewrite app_nil_r|constructor].
  - cbn [for_each] in Hrun.
    destruct (read_info fs (path_join pkg_root_dir x)) as [o| |] eqn:Ho;
      cbn [mbind outcome_bind] in Hrun; try discriminate.
    unfold read_info in Ho.
    destruct (info_files fs !! path_join pkg_root_dir x) as [o'|] eqn:Ho'; [|discriminate].
    injection Ho as ->.
    destruct (IH _ _ Hrun) as (hashes & -> & HF).
    exists (pkg_hash o :: hashes). split; [now rewrite <- app_assoc|].
    constructor; [eauto|exact HF].
Qed.

(** X19. [get_pkg_hash_list] returns one hash for every package number that has
    an info file with a tree size of at most [tree_size], in the order of
    the package numbers: the [pkg_hash] of the info file of the package with
    the greatest such tree size. *)
Theorem get_pkg_hash_list_most_recent (fs : filesystem) (pkg_root_dir : string)
    (tree_size : Z) (listing : list string) (hash_list : list bytes) :
  listdir fs !! pkg_root_dir = Some listing ->
  get_pkg_hash_list fs pkg_root_dir tree_size = Done hash_list ->
  exists kept,
    Forall2 (fun x h => exists o, info_files fs !! path_join pkg_root_dir x = Some o
                                  /\ pkg_hash o = h) kept hash_list
    /\ StronglySorted String.le kept
    /\ NoDup (map hash_group1 kept)
    /\ (forall x, x ∈ kept ->
          x ∈ listing /\ re_match hash_name_re x = true
          /\ int_of_digits (hash_group2 x) <= tree_size
          /\ forall y, y ∈ listing -> re_match hash_name_re y = true ->
               hash_group1 y = hash_group1 x ->
               int_of_digits (hash_group2 y) <= tree_size ->
               int_of_digits (hash_group2 y) <= int_of_digits (hash_group2 x))
    /\ (forall y, y ∈ listing -> re_match hash_name_re y = true ->
          int_of_digits (hash_group2 y) <= tree_size ->
          exists x, x ∈ kept /\ hash_group1 x = hash_group1 y).
Proof.
  intros Hdir Hrun. unfold get_pkg_hash_list, os_listdir in Hrun. rewrite Hdir in Hrun.
  cbn [mbind outcome_bind] in Hrun.
  set (names := sorted (List.filter (re_match hash_name_re) listing)) in *.
  assert (Hnames : forall x, x ∈ names <-> x ∈ listing /\ re_match hash_name_re x = true).
  { intros x. unfold names. rewrite sorted_elem_of, !list_elem_of_In, filter_In. reflexivity. }
  assert (Hsorted : StronglySorted String.le names).
  { unfold names, sorted. apply StronglySorted_merge_sort; apply _. }
  assert (Hmatch : Forall (fun x => re_match hash_name_re x = true) names).
  { apply Forall_forall. intros x Hx. now apply Hnames. }
  destruct (filter_info_most_recent tree_size names Hsorted Hmatch) as (H1 & H2 & H3).
  destruct (for_each_read_info fs pkg_root_dir _ _ _ Hrun) as (hashes & -> & HF).
  exists (filter_info_file_list tree_size names). cbn [app].
  split; [exact HF|]. split; [|split; [exact H3|split]].
  - clear -Hsorted. induction Hsorted as [|cur rest Hs IH Hcur]; [constructor|].
    cbn [filter_info_file_list].
    assert (Hins : StronglySorted String.le (cur :: filter_info_file_list tree_size rest)).
    { constructor; [exact IH|]. apply Forall_forall. intros x Hx.
      apply filter_info_elem in Hx as [Hx _]. rewrite Forall_forall in Hcur. auto. }
    destruct (match rest with [] => false | _ => _ end); [exact IH|].
    destruct (_ <=? _); [exact Hins|exact IH].
  - intros x Hx. destruct (filter_info_elem tree_size names x Hx) as [Hxn Hxt].
    apply Hnames in Hxn as [Hxl Hxm]. repeat split; auto.
    intros y Hy Hym. apply (H1 x Hx). now apply Hnames.
  - intros y Hy Hym Hyt. apply H2; [now apply Hnames|exact Hyt].
Qed.

(** ** The bundles that [get_bundle_list] keeps *)

Section bundles_kept.
Import json.
Variable tree_size : Z.

Lemma bundle_name_shape (a : string) :
  re_match bundle_name_re a = true ->
  exists d1 d2 t, a = (d1 ++ String "-" (d2 ++ t))%string
    /\ String.length d1 = 10%nat /\ all_digits d2 /\ String.length d2 = 10%nat
    /\ bundle_group1 a = d1 /\ bundle_group2 a = d2.
Proof.
  unfold re_match, bundle_name_re. intros Hm.
  destruct (match_atoms _ a) as [r|] eqn:Hma; [|discriminate]. clear Hm.
  apply match_digits_inv in Hma as (d1 & s1 & -> & Hd1 & Hl1 & Hma).
  cbn [app match_atoms atom_match] in Hma.
  destruct s1 as [|c s1]; [discriminate|].
  destruct (Ascii.eqb_spec c "-") as [->|]; [|discriminate].
  apply match_digits_inv in Hma as (d2 & s2 & -> & Hd2 & Hl2 & _).
  exists d1, d2, s2. repeat split; auto.
  - unfold bundle_group1. rewrite <- Hl1. apply substring_prefix.
  - unfold bundle_group2.
    pose proof (substring_skip (d1 ++ "-") (d2 ++ s2) 10) as Hsk.
    rewrite string_length_app, Hl1, string_app_assoc in Hsk.
    change (String.length "-") with 1%nat in Hsk. change (10 + 1)%nat with 11%nat in Hsk.
    change ("-" ++ d2 ++ s2)%string with (String "-" (d2 ++ s2)) in Hsk.
    rewrite Hsk. rewrite <- Hl2. apply substring_prefix.
Qed.

Lemma bundle_name_le (a b : string) :
  re_match bundle_name_re a = true -> re_match bundle_name_re b = true -> String.le a b ->
  String.le (bundle_group1 a) (bundle_group1 b)
  /\ (bundle_group1 a = bundle_group1 b ->
      int_of_digits (bundle_group2 a) <= int_of_digits (bundle_group2 b)).
Proof.
  intros Ha Hb Hle.
  destruct (bundle_name_shape a Ha) as (d1 & d2 & t & Ea & Hl1 & Hd2 & Hl2 & -> & ->).
  destruct (bundle_name_shape b Hb) as (e1 & e2 & u & Eb & Hm1 & He2 & Hm2 & -> & ->).
  rewrite Ea, Eb in Hle.
  exact (name_order 10 10 d1 d2 t e1 e2 u "-" Hl1 Hm1 Hd2 He2 Hl2 Hm2 Hle).
Qed.

Lemma bundle_skipped (cur nxt y : string) (rest : list string) :
  StronglySorted String.le (cur :: nxt :: rest) ->
  Forall (fun x => re_match bundle_name_re x = true
                   /\ int_of_digits (bundle_group2 x) < tree_size) (cur :: nxt :: rest) ->
  y ∈ nxt :: rest ->
  bundle_group1 y = bundle_group1 cur ->
  String.eqb (bundle_group1 cur) (bundle_group1 nxt)
  && (int_of_digits (bundle_group2 nxt) <? tree_size) = true.
Proof.
  intros Hs Hm Hy Hg.
  apply StronglySorted_inv in Hs as [Hs Hcur].
  apply StronglySorted_inv in Hs as [_ Hnxt].
  apply Forall_cons in Hm as [[Mcur _] Hm]. pose proof Hm as Hm'.
  apply Forall_cons in Hm as [[Mnxt Tnxt] Hm].
  assert (My : re_match bundle_name_re y = true)
    by (rewrite Forall_forall in Hm'; now apply Hm').
  assert (Hcn : String.le cur nxt) by (apply Forall_cons in Hcur as [? _]; auto).
  assert (Hny : String.le nxt y).
  { apply elem_of_cons in Hy as [->|Hy]; [reflexivity|].
    rewrite Forall_forall in Hnxt. auto. }
  destruct (bundle_name_le cur nxt Mcur Mnxt Hcn) as [H1 _].
  destruct (bundle_name_le nxt y Mnxt My Hny) as [H2 _].
  rewrite Hg in H2.
  assert (Heq : bundle_group1 cur = bundle_group1 nxt) by (apply (anti_symm String.le); auto).
  apply andb_true_iff. split; [now apply String.eqb_eq|now apply Z.ltb_lt].
Qed.

Lemma filter_bundle_cons (cur : string) (rest : list string) (x : string) :
  x ∈ filter_bundle_list tree_size (cur :: rest) ->
  (x = cur
   /\ match rest with
      | nxt :: _ => String.eqb (bundle_group1 cur) (bundle_group1 nxt)
                    && (int_of_digits (bundle_group2 nxt) <? tree_size) = false
      | [] => True
      end)
  \/ x ∈ filter_bundle_list tree_size rest.
Proof.
  cbn [filter_bundle_list]. destruct rest as [|nxt rest'].
  - intros Hx. apply elem_of_cons in Hx as [->|Hx]; [left; auto|now right].
  - destruct (_ && _) eqn:Hskip; [now right|].
    intros Hx. apply elem_of_cons in Hx as [->|Hx]; [left; auto|now right].
Qed.

Lemma filter_bundle_tail (cur : string) (rest : list string) (x : string) :
  x ∈ filter_bundle_list tree_size rest ->
  x ∈ filter_bundle_list tree_size (cur :: rest).
Proof.
  intros Hx. cbn [filter_bundle_list].
  destruct (match rest with [] => false | _ => _ end); [exact Hx|].
  apply elem_of_cons; now right.
Qed.

Lemma filter_bundle_elem (names : list string) (x : string) :
  x ∈ filter_bundle_list tree_size names -> x ∈ names.
Proof.
  induction names as [|cur rest IH]; intros Hx; [inversion Hx|].
  apply filter_bundle_cons in Hx as [(-> & _)|Hx]; [constructor|].
  apply elem_of_cons; right; auto.
Qed.

Lemma filter_bundle_most_complete (names : list string) :
  StronglySorted String.le names ->
  Forall (fun x => re_match bundle_name_re x = true
                   /\ int_of_digits (bundle_group2 x) < tree_size) names ->
  (forall x, x ∈ filter_bundle_list tree_size names ->
     forall y, y ∈ names -> bundle_group1 y = bundle_group1 x ->
       int_of_digits (bundle_group2 y) <= int_of_digits (bundle_group2 x))
  /\ (forall y, y ∈ names ->
        exists x, x ∈ filter_bundle_list tree_size names
                  /\ bundle_group1 x = bundle_group1 y)
  /\ NoDup (map bundle_group1 (filter_bundle_list tree_size names)).
Proof.
  induction names as [|cur rest IH]; intros Hs Hm.
  { split; [intros x Hx; inversion Hx|]. split; [intros y Hy; inversion Hy|constructor]. }
  pose proof Hs as Hs'. apply StronglySorted_inv in Hs' as [Hsr Hcur].
  pose proof Hm as Hm'. apply Forall_cons in Hm' as [[Mcur Tcur] Hmr].
  destruct (IH Hsr Hmr) as (IH1 & IH2 & IH3).
  assert (Hlater : forall y, y ∈ rest -> bundle_group1 y = bundle_group1 cur ->
            match rest with
            | nxt :: _ => String.eqb (bundle_group1 cur) (bundle_group1 nxt)
                          && (int_of_digits (bundle_group2 nxt) <? tree_size) = false
            | [] => True
            end -> False).
  { intros y Hy Hg Hkeep. destruct rest as [|nxt rest']; [inversion Hy|].
    rewrite (bundle_skipped cur nxt y rest' Hs Hm Hy Hg) in Hkeep. discriminate. }
  split; [|split].
  - intros x Hx y Hy Hg.
    apply filter_bundle_cons in Hx as [(-> & Hkeep)|Hx].
    + apply elem_of_cons in Hy as [->|Hy]; [lia|].
      exfalso. exact (Hlater y Hy Hg Hkeep).
    + apply elem_of_cons in Hy as [->|Hy]; [|now apply (IH1 x Hx)].
      pose proof (filter_bundle_elem rest x Hx) as Hxr.
      rewrite Forall_forall in Hcur, Hmr.
      destruct (bundle_name_le cur x Mcur (proj1 (Hmr x Hxr)) (Hcur x Hxr)) as [_ Hle]. auto.
  - intros y Hy. apply elem_of_cons in Hy as [->|Hy].
    + cbn [filter_bundle_list]. destruct rest as [|nxt rest'].
      * exists cur. split; [constructor|reflexivity].
      * destruct (_ && _) eqn:Hskip.
        -- apply andb_true_iff in Hskip as [Hg _]. apply String.eqb_eq in Hg.
           destruct (IH2 nxt ltac:(constructor)) as (x & Hx & Hgx).
           exists x. split; [exact Hx|congruence].
        -- exists cur. split; [constructor|reflexivity].
    + destruct (IH2 y Hy) as (x & Hx & Hgx).
      exists x. split; [now apply filter_bundle_tail|exact Hgx].
  - cbn [filter_bundle_list].
    destruct (match rest with [] => false | _ => _ end) eqn:Hskip; [exact IH3|].
    cbn [map]. constructor; [|exact IH3].
    intros Hin. apply list_elem_of_fmap in Hin as (x & Hg & Hx).
    pose proof (filter_bundle_elem rest x Hx) as Hxr.
    apply (Hlater x Hxr (eq_sym Hg)).
    destruct rest; [exact I|exact Hskip].
Qed.

End bundles_kept.

(** X20. When every bundle of the directory ends before [tree_size],
    [get_bundle_list] returns, in the order of the first indices, one bundle
    for every first index that a bundle of the directory has: the one with
    the greatest last index. *)
Theorem get_bundle_list_most_complete (fs : filesystem) (path : string) (tree_size : Z)
    (listing : list string) :
  listdir fs !! path = Some listing ->
  (forall y, y ∈ listing -> re_match bundle_name_re y = true ->
     int_of_digits (bundle_group2 y) < tree_size) ->
  exists kept,
    get_bundle_list fs path tree_size = Done kept
    /\ StronglySorted String.le kept
    /\ NoDup (map bundle_group1 kept)
    /\ (forall x, x ∈ kept ->
          x ∈ listing /\ re_match bundle_name_re x = true
          /\ forall y, y ∈ listing -> re_match bundle_name_re y = true ->
               bundle_group1 y = bundle_group1 x ->
               int_of_digits (bundle_group2 y) <= int_of_digits (bundle_group2 x))
    /\ (forall y, y ∈ listing -> re_match bundle_name_re y = true ->
          exists x, x ∈ kept /\ bundle_group1 x = bundle_group1 y).
Proof.
  intros Hdir Hends. unfold get_bundle_list, os_listdir. rewrite Hdir.
  cbn [mbind outcome_bind].
  set (names := sorted (List.filter (re_match bundle_name_re) listing)) in *.
  assert (Hnames : forall x, x ∈ names <-> x ∈ listing /\ re_match bundle_name_re x = true).
  { intros x. unfold names. rewrite sorted_elem_of, !list_elem_of_In, filter_In. reflexivity. }
  assert (Hsorted : StronglySorted String.le names).
  { unfold names, sorted. apply StronglySorted_merge_sort; apply _. }
  assert (Hmatch : Forall (fun x => re_match bundle_name_re x = true
                                    /\ int_of_digits (bundle_group2 x) < tree_size) names).
  { apply Forall_forall. intros x Hx. apply Hnames in Hx as [Hxl Hxm]. auto. }
  destruct (filter_bundle_most_complete tree_size names Hsorted Hmatch) as (H1 & H2 & H3).
  eexists. split; [reflexivity|]. split; [|split; [exact H3|split]].
  - clear -Hsorted. induction Hsorted as [|cur rest Hs IH Hcur]; [constructor|].
    cbn [filter_bundle_list].
    destruct (match rest with [] => false | _ => _ end); [exact IH|].
    constructor; [exact IH|]. apply Forall_forall. intros x Hx.
    apply filter_bundle_elem in Hx. rewrite Forall_forall in Hcur. auto.
  - intros x Hx. pose proof (filter_bundle_elem tree_size names x Hx) as Hxn.
    apply Hnames in Hxn as [Hxl Hxm]. repeat split; auto.
    intros y Hy Hym. apply (H1 x Hx). now apply Hnames.
  - intros y Hy Hym. apply H2. now apply Hnames.
Qed.

(** * get_file_list and the files that get_pieces reads *)

Section file_paths.
Import json urls.

Lemma list_ascii_of_string_app (a b : string) :
  list_ascii_of_string (a ++ b) = list_ascii_of_string a ++ list_ascii_of_string b.
Proof.
  induction a as [|x a IH]; [reflexivity|].
  change (String x a ++ b)%string with (String x (a ++ b)).
  cbn [list_ascii_of_string]. now rewrite IH.
Qed.

Lemma ends_with_sep_app (p : string) (x : ascii) (t : string) :
  ends_with_sep (p ++ String x t) = ends_with_sep (String x t).
Proof.
  unfold ends_with_sep. rewrite list_ascii_of_string_app.
  cbn [list_ascii_of_string]. now rewrite last_app_cons.
Qed.

Lemma all_digits_no_slash (s : string) : all_digits s -> no_slash s.
Proof.
  unfold all_digits, no_slash. intros Hs. eapply Forall_impl; [exact Hs|].
  intros c Hc. cbv beta in Hc.
  destruct (Ascii.eqb_spec c "/") as [->|]; [discriminate Hc|reflexivity].
Qed.

Lemma no_slash_app (a b : string) : no_slash a -> no_slash b -> no_slash (a ++ b).
Proof. unfold no_slash. rewrite list_ascii_of_string_app. apply Forall_app_2. Qed.

(** A name without [/] that is not empty neither starts nor ends with the
    separator. *)
Lemma no_slash_ends (s : string) :
  no_slash s -> s <> EmptyString ->
  (exists x t, s = String x t /\ Ascii.eqb x os_sep = false) /\ ends_with_sep s = false.
Proof.
  intros Hs Hne. destruct s as [|x t]; [congruence|]. split.
  - exists x, t. split; [reflexivity|]. unfold no_slash in Hs. cbn in Hs.
    now apply Forall_cons in Hs as [Hx _].
  - unfold ends_with_sep.
    destruct (last (list_ascii_of_string (String x t))) as [c|] eqn:Hlast; [|reflexivity].
    apply last_Some_elem_of in Hlast. unfold no_slash in Hs.
    rewrite Forall_forall in Hs. exact (Hs c Hlast).
Qed.

Lemma pretty_nonempty (x : N) : pretty x <> EmptyString.
Proof.
  destruct (decide (x = 0%N)) as [->|Hx]; [discriminate|].
  pose proof (pretty_length_gt 0 x ltac:(simpl; lia)) as Hlen.
  intros Heq. rewrite Heq in Hlen. simpl in Hlen. lia.
Qed.

Lemma app_nonempty_r (a b : string) : b <> EmptyString -> (a ++ b)%string <> EmptyString.
Proof. destruct a; [auto|discriminate]. Qed.

Lemma format_0_no_slash (w : nat) (n : Z) :
  no_slash (format_0 w n) /\ format_0 w n <> EmptyString.
Proof.
  unfold format_0. destruct (n <? 0).
  - split; [|discriminate]. unfold no_slash. cbn [list_ascii_of_string].
    constructor; [reflexivity|].
    apply no_slash_app; apply all_digits_no_slash; [apply zeros_digits|apply pretty_digits].
  - split.
    + apply no_slash_app; apply all_digits_no_slash; [apply zeros_digits|apply pretty_digits].
    + apply app_nonempty_r, pretty_nonempty.
Qed.

(** A bundle name starts with a digit. *)
Lemma bundle_name_first (b : string) :
  re_match bundle_name_re b = true ->
  exists y u, b = String y u /\ Ascii.eqb y os_sep = false.
Proof.
  unfold re_match, bundle_name_re. intros Hm.
  destruct (match_atoms _ b) as [r|] eqn:Hma; [|discriminate]. clear Hm.
  apply match_digits_inv in Hma as (d1 & s1 & -> & Hd1 & Hl1 & _).
  destruct d1 as [|y d1]; [discriminate Hl1|].
  exists y, (d1 ++ s1)%string. split; [reflexivity|].
  apply all_digits_no_slash in Hd1. unfold no_slash in Hd1. cbn in Hd1.
  now apply Forall_cons in Hd1 as [Hy _].
Qed.

(** [os.path.join(os.path.join(a, b), c)] is [os.path.join(a, b + '/' + c)]
    when [b] neither starts nor ends with the separator and [c] does not
    start with it. *)
Lemma path_join_nested (a b c : string) :
  (exists x t, b = String x t /\ Ascii.eqb x os_sep = false) ->
  ends_with_sep b = false ->
  (exists y u, c = String y u /\ Ascii.eqb y os_sep = false) ->
  path_join (path_join a b) c = path_join a (str_join (String os_sep EmptyString) [b; c]).
Proof.
  intros (x & t & -> & Hx) Hb (y & u & -> & Hy).
  cbn [str_join].
  change (String x t ++ String os_sep "" ++ String y u)%string
    with (String x (t ++ String os_sep (String y u))).
  assert (Hin : forall p, path_join (p ++ String x t) (String y u)
                          = (p ++ String x (t ++ String os_sep (String y u)))%string).
  { intros p. unfold path_join. rewrite Hy, ends_with_sep_app, Hb, orb_false_r.
    destruct (String.eqb_spec (p ++ String x t) "") as [He|_].
    - destruct p; discriminate He.
    - change (String x (t ++ String os_sep (String y u)))
        with (String x t ++ String os_sep (String y u))%string.
      now rewrite string_app_assoc. }
  unfold path_join at 2 3. rewrite Hx.
  destruct (String.eqb a "" || ends_with_sep a).
  - apply Hin.
  - change (a ++ String os_sep (String x t))%string
      with (a ++ (String os_sep "" ++ String x t))%string.
    rewrite <- string_app_assoc, Hin, string_app_assoc. reflexivity.
Qed.

End file_paths.

Section file_list.
Context `{Pylib}.
Import torrent_files.

Lemma st_size_inv (fs : filesystem) (path : string) (size : Z) :
  st_size fs path = Done size ->
  exists content, file_bytes fs !! path = Some content /\ size = Z.of_nat (length content).
Proof.
  unfold st_size. destruct (file_bytes fs !! path) as [content|]; [|discriminate].
  intros [= <-]. now exists content.
Qed.

(** The loop of [get_file_list] over the bundles. *)
Lemma get_file_list_loop (fs : filesystem) (pkg_dir pkg_name : string)
    (bundle_list : list string) (acc file_list : list file_entry) :
  for_each bundle_list
    (fun file_list bundle =>
       size ← st_size fs (path_join pkg_dir bundle);
       Done (file_list ++ [ {| f_length := size; f_path := [pkg_name; bundle] |} ]))
    acc = Done file_list ->
  exists contents,
    Forall2 (fun b c => file_bytes fs !! path_join pkg_dir b = Some c) bundle_list contents
    /\ file_list = acc ++ zip_with (fun b c => file_of [pkg_name; b] c) bundle_list contents.
Proof.
  revert acc. induction bundle_list as [|b rest IH]; intros acc Hrun.
  - cbn in Hrun. injection Hrun as <-. exists []. split; [constructor|].
    now rewrite app_nil_r.
  - cbn [for_each] in Hrun. cbv beta in Hrun.
    destruct (st_size fs (path_join pkg_dir b)) as [size| |] eqn:Hst; try discriminate.
    cbn [mbind outcome_bind] in Hrun.
    apply st_size_inv in Hst as (c & Hc & ->).
    apply IH in Hrun as (contents & HF & ->).
    exists (c :: contents). split; [constructor; auto|].
    cbn [zip_with]. now rewrite <- app_assoc.
Qed.

Lemma total_size_contents (files : list file_entry) (contents : list bytes) :
  Forall2 (fun f c => f_length f = Z.of_nat (length c)) files contents ->
  total_size files = Z.of_nat (length (concat contents)).
Proof.
  unfold total_size.
  assert (Hgen : forall acc,
            Forall2 (fun f c => f_length f = Z.of_nat (length c)) files contents ->
            fold_left Z.add (map f_length files) acc
            = acc + Z.of_nat (length (concat contents))).
  { intros acc HF. revert acc. induction HF as [|f c files contents Hfc HF IH]; intros acc.
    - cbn. lia.
    - cbn [map fold_left concat]. rewrite IH, length_app, Hfc. lia. }
  intros HF. now rewrite Hgen.
Qed.

End file_list.

(** X21. When [get_file_list] returns, the list holds the bundles that
    [get_bundle_list] keeps, under the name of the package, then the STH
    file and the info file; every length is the size of the file that
    [get_pieces] opens for that path under [pkg_root_dir], so with the
    piece length of [create_torrent], [get_pieces] raises nothing and yields
    [total_size // piece_length + 1] digests, those of the pieces of the
    files put end to end. *)
Theorem get_file_list_pieces `{Pylib} (fuel : nat) (fs : filesystem) (pkg_root_dir : string)
    (pkg_num tree_size : Z) (files : list file_entry) :
  torrent_files.get_file_list fs pkg_root_dir pkg_num tree_size = Done files ->
  (forall path content, file_bytes fs !! path = Some content -> (length content < fuel)%nat) ->
  exists bundle_list contents,
    get_bundle_list fs (path_join pkg_root_dir (build_package_name pkg_num)) tree_size
    = Done bundle_list
    /\ map f_path files
       = map (fun b => [build_package_name pkg_num; b]) bundle_list
         ++ [[build_sth_name tree_size]; [build_info_file_name pkg_num tree_size]]
    /\ Forall2 (fun f c =>
                  file_bytes fs !! path_join pkg_root_dir
                                      (str_join (String os_sep EmptyString) (f_path f))
                  = Some c
                  /\ f_length f = Z.of_nat (length c)) files contents
    /\ total_size files = Z.of_nat (length (concat contents))
    /\ get_pieces fuel fs pkg_root_dir files (Z.to_nat (piece_length files))
       = Done (digests (Z.to_nat (piece_length files)) (concat contents)
                 (Z.to_nat (total_size files / piece_length files) + 1)).
Proof.
  intros Hrun Hfuel. unfold torrent_files.get_file_list in Hrun. cbv zeta in Hrun.
  set (pkg_name := build_package_name pkg_num) in *.
  set (pkg_dir := path_join pkg_root_dir pkg_name) in *.
  destruct (get_bundle_list fs pkg_dir tree_size) as [bundle_list| |] eqn:Hbl;
    try discriminate.
  cbn [mbind outcome_bind] in Hrun.
  destruct (for_each bundle_list _ []) as [file_list| |] eqn:Hloop; try discriminate.
  cbn [mbind outcome_bind] in Hrun.
  apply get_file_list_loop in Hloop as (contents & HF & ->). cbn [app] in Hrun.
  destruct (torrent_files.st_size fs (path_join pkg_root_dir (build_sth_name tree_size)))
    as [s1| |] eqn:Hs1; try discriminate.
  cbn [mbind outcome_bind] in Hrun.
  destruct (torrent_files.st_size fs
              (path_join pkg_root_dir (build_info_file_name pkg_num tree_size)))
    as [s2| |] eqn:Hs2; try discriminate.
  cbn [mbind outcome_bind] in Hrun. injection Hrun as <-.
  apply st_size_inv in Hs1 as (c1 & Hc1 & ->).
  apply st_size_inv in Hs2 as (c2 & Hc2 & ->).
  (* the bundles that are kept are bundle names *)
  assert (Hnames : Forall (fun b => re_match bundle_name_re b = true) bundle_list).
  { unfold get_bundle_list, os_listdir in Hbl.
    destruct (listdir fs !! pkg_dir) as [l|]; [|discriminate].
    cbn [mbind outcome_bind] in Hbl. injection Hbl as <-.
    apply Forall_forall. intros b Hb. apply filter_bundle_elem in Hb.
    rewrite sorted_elem_of, list_elem_of_In, filter_In in Hb. tauto. }
  assert (Hfiles : Forall2 (fun f c =>
                      file_bytes fs !! path_join pkg_root_dir
                                          (str_join (String os_sep EmptyString) (f_path f))
                      = Some c
                      /\ f_length f = Z.of_nat (length c))
                     (zip_with (fun b c => torrent_files.file_of [pkg_name; b] c) bundle_list contents
                      ++ [ {| f_length := Z.of_nat (length c1);
                              f_path := [build_sth_name tree_size] |} ]
                      ++ [ {| f_length := Z.of_nat (length c2);
                              f_path := [build_info_file_name pkg_num tree_size] |} ])
                     (contents ++ [c1] ++ [c2])).
  { apply Forall2_app.
    - clear -HF Hnames. induction HF as [|b c bl cs Hbc HF IH]; [constructor|].
      apply Forall_cons in Hnames as [Hb Hnames].
      cbn [zip_with]. constructor; [|auto].
      split; [|reflexivity]. cbn [f_path torrent_files.file_of].
      destruct (format_0_no_slash 3 pkg_num) as [Hns Hne].
      destruct (no_slash_ends _ Hns Hne) as [Hfirst Hlast].
      rewrite <- (path_join_nested pkg_root_dir pkg_name b Hfirst Hlast
                    (bundle_name_first b Hb)).
      exact Hbc.
    - repeat constructor; cbn [f_path f_length str_join]; assumption. }
  exists bundle_list, (contents ++ [c1] ++ [c2]).
  assert (Htotal := total_size_contents _ _
                      (Forall2_impl _ _ _ _ Hfiles (fun f c Hfc => proj2 Hfc))).
  rewrite <- app_assoc.
  split; [reflexivity|]. split; [|split; [exact Hfiles|split; [exact Htotal|]]].
  - rewrite map_app. f_equal.
    apply Forall2_length in HF. clear -HF. revert contents HF.
    induction bundle_list as [|b bl IH]; intros [|c cs] Hlen; try discriminate; [reflexivity|].
    cbn [zip_with map f_path torrent_files.file_of]. f_equal. apply IH. now injection Hlen.
  - set (files := zip_with _ _ _ ++ _) in *.
    assert (HL : 32768 <= piece_length files).
    { unfold piece_length. change (Z.shiftl 1 15) with 32768. lia. }
    assert (HLn : (0 < Z.to_nat (piece_length files))%nat) by lia.
    rewrite (get_pieces_digests (Z.to_nat (piece_length files)) HLn fuel fs pkg_root_dir
               files (contents ++ [c1] ++ [c2])).
    + do 3 f_equal. rewrite Htotal.
      rewrite <- (Z2Nat.id (piece_length files)) at 2 by lia.
      rewrite <- Nat2Z.inj_div, Nat2Z.id. reflexivity.
    + eapply Forall2_impl; [exact Hfiles|]. intros f c [Hfc _]. split; [exact Hfc|].
      exact (Hfuel _ _ Hfc).
Qed.

(** * The hash list of get_pkg_hash_list, by package number *)

Section package_numbers.
Import json.

Lemma seqZ_sorted (m n : Z) : StronglySorted Z.le (seqZ m n).
Proof.
  remember (Z.to_nat n) as k eqn:Hk. revert m n Hk.
  induction k as [|k IH]; intros m n Hk.
  - rewrite seqZ_nil by lia. constructor.
  - rewrite seqZ_cons by lia. constructor; [apply IH; lia|].
    apply Forall_seqZ. intros; lia.
Qed.

(** A sorted list of integers without duplicates that holds exactly the
    integers from 0 to [n - 1] is the list of these integers. *)
Lemma sorted_range (l : list Z) (n : Z) :
  StronglySorted Z.le l -> NoDup l -> (forall z, z ∈ l <-> 0 <= z < n) -> l = seqZ 0 n.
Proof.
  intros Hs Hnd Hel. apply (StronglySorted_unique Z.le); [exact Hs|apply seqZ_sorted|].
  apply NoDup_Permutation; [exact Hnd|apply NoDup_seqZ|].
  intros z. rewrite Hel, elem_of_seqZ. lia.
Qed.

Lemma digits_le (x y : string) :
  all_digits x -> all_digits y -> String.length x = String.length y ->
  String.le x y -> int_of_digits x <= int_of_digits y.
Proof.
  intros Hx Hy Hl Hle. unfold String.le, String.leb in Hle.
  rewrite (digits_compare x y Hx Hy Hl) in Hle.
  unfold int_of_digits. fold (value_from 0 x). fold (value_from 0 y).
  apply Z.compare_le_iff. intros Hgt. rewrite Hgt in Hle. exact Hle.
Qed.

Lemma digits_eq (x y : string) :
  all_digits x -> all_digits y -> String.length x = String.length y ->
  int_of_digits x = int_of_digits y -> x = y.
Proof.
  intros Hx Hy Hl He. apply String.compare_eq_iff.
  rewrite (digits_compare x y Hx Hy Hl). apply Z.compare_eq_iff. exact He.
Qed.

Lemma hash_group1_digits (a : string) :
  re_match hash_name_re a = true ->
  all_digits (hash_group1 a) /\ String.length (hash_group1 a) = 3%nat.
Proof.
  unfold re_match, hash_name_re. intros Hm.
  destruct (match_atoms _ a) as [r|] eqn:Hma; [|discriminate]. clear Hm.
  apply match_digits_inv in Hma as (d1 & s1 & -> & Hd1 & Hl1 & _).
  assert (Hg : hash_group1 (d1 ++ s1) = d1).
  { unfold hash_group1. rewrite <- Hl1. apply substring_prefix. }
  rewrite Hg. split; [exact Hd1|exact Hl1].
Qed.

Lemma filter_info_sorted (tree_size : Z) (names : list string) :
  StronglySorted String.le names ->
  StronglySorted String.le (filter_info_file_list tree_size names).
Proof.
  induction 1 as [|cur rest Hs IH Hcur]; [constructor|].
  cbn [filter_info_file_list].
  assert (Hins : StronglySorted String.le (cur :: filter_info_file_list tree_size rest)).
  { constructor; [exact IH|]. apply Forall_forall. intros x Hx.
    apply filter_info_elem in Hx as [Hx _]. rewrite Forall_forall in Hcur. auto. }
  destruct (match rest with [] => false | _ => _ end); [exact IH|].
  destruct (_ <=? _); [exact Hins|exact IH].
Qed.

End package_numbers.

(** X22. When the directory holds, among the info files with a tree size of at
    most [tree_size], at least one for each of the packages 0 to [n - 1] and
    none for another package, [get_pkg_hash_list] returns [n] hashes and the
    hash at the index [i] is the one of the package [i]: the [pkg_hash] of
    its info file with the greatest such tree size. *)
Theorem get_pkg_hash_list_indexed_by_package (fs : filesystem) (pkg_root_dir : string)
    (tree_size n : Z) (listing : list string) (hash_list : list bytes) :
  listdir fs !! pkg_root_dir = Some listing ->
  (forall y, y ∈ listing -> re_match hash_name_re y = true ->
     int_of_digits (hash_group2 y) <= tree_size ->
     int_of_digits (hash_group1 y) < n) ->
  (forall i, 0 <= i < n ->
     exists y, y ∈ listing /\ re_match hash_name_re y = true
               /\ int_of_digits (hash_group1 y) = i
               /\ int_of_digits (hash_group2 y) <= tree_size) ->
  get_pkg_hash_list fs pkg_root_dir tree_size = Done hash_list ->
  length hash_list = Z.to_nat n
  /\ forall i, 0 <= i < n ->
       exists x o,
         x ∈ listing /\ re_match hash_name_re x = true
         /\ int_of_digits (hash_group1 x) = i
         /\ int_of_digits (hash_group2 x) <= tree_size
         /\ (forall y, y ∈ listing -> re_match hash_name_re y = true ->
               int_of_digits (hash_group1 y) = i ->
               int_of_digits (hash_group2 y) <= tree_size ->
               int_of_digits (hash_group2 y) <= int_of_digits (hash_group2 x))
         /\ info_files fs !! path_join pkg_root_dir x = Some o
         /\ hash_list !! Z.to_nat i = Some (pkg_hash o).
Proof.
  intros Hdir Hbelow Hall Hrun.
  unfold get_pkg_hash_list, os_listdir in Hrun. rewrite Hdir in Hrun.
  cbn [mbind outcome_bind] in Hrun.
  set (names := sorted (List.filter (re_match hash_name_re) listing)) in *.
  assert (Hnames : forall x, x ∈ names <-> x ∈ listing /\ re_match hash_name_re x = true).
  { intros x. unfold names. rewrite sorted_elem_of, !list_elem_of_In, filter_In. reflexivity. }
  assert (Hsorted : StronglySorted String.le names).
  { unfold names, sorted. apply StronglySorted_merge_sort; apply _. }
  assert (Hmatch : Forall (fun x => re_match hash_name_re x = true) names).
  { apply Forall_forall. intros x Hx. now apply Hnames. }
  destruct (filter_info_most_recent tree_size names Hsorted Hmatch) as (H1 & H2 & H3).
  destruct (for_each_read_info fs pkg_root_dir _ _ _ Hrun) as (hashes & -> & HF).
  cbn [app]. clear Hrun.
  pose proof (filter_info_sorted tree_size names Hsorted) as Hks.
  set (kept := filter_info_file_list tree_size names) in *.
  assert (Hkept : forall x, x ∈ kept ->
            x ∈ listing /\ re_match hash_name_re x = true
            /\ int_of_digits (hash_group2 x) <= tree_size).
  { intros x Hx. destruct (filter_info_elem tree_size names x Hx) as [Hxn Hxt].
    apply Hnames in Hxn as [Hxl Hxm]. auto. }
  assert (Hnum : forall x y, re_match hash_name_re x = true -> re_match hash_name_re y = true ->
            int_of_digits (hash_group1 x) = int_of_digits (hash_group1 y) ->
            hash_group1 x = hash_group1 y).
  { intros x y Hx Hy He.
    destruct (hash_group1_digits x Hx) as [Hdx Hlx].
    destruct (hash_group1_digits y Hy) as [Hdy Hly].
    apply digits_eq; auto; congruence. }
  (* the package numbers of the names that are kept are 0, 1, ..., n - 1 *)
  assert (Hrange : (fun x => int_of_digits (hash_group1 x)) <$> kept = seqZ 0 n).
  { apply sorted_range.
    - clear -Hks Hkept. induction Hks as [|x rest Hs IH Hx]; [constructor|].
      cbn [fmap list_fmap]. constructor.
      + apply IH. intros y Hy. apply Hkept. apply elem_of_cons; now right.
      + apply Forall_forall. intros z Hz. apply list_elem_of_fmap in Hz as (y & -> & Hy).
        destruct (Hkept x ltac:(constructor)) as (_ & Hxm & _).
        destruct (Hkept y ltac:(apply elem_of_cons; now right)) as (_ & Hym & _).
        rewrite Forall_forall in Hx.
        destruct (hash_name_le x y Hxm Hym (Hx y Hy)) as [Hle _].
        destruct (hash_group1_digits x Hxm) as [Hdx Hlx].
        destruct (hash_group1_digits y Hym) as [Hdy Hly].
        apply digits_le; auto; congruence.
    - rewrite (list_fmap_compose hash_group1 int_of_digits).
      apply NoDup_fmap_2_strong; [|exact H3].
      intros a b Ha Hb He.
      apply list_elem_of_fmap in Ha as (x & -> & Hx).
      apply list_elem_of_fmap in Hb as (y & -> & Hy).
      apply Hnum; [apply (Hkept x Hx)|apply (Hkept y Hy)|exact He].
    - intros z. rewrite list_elem_of_fmap. split.
      + intros (x & -> & Hx). destruct (Hkept x Hx) as (Hxl & Hxm & Hxt).
        split; [|now apply Hbelow].
        destruct (hash_group1_digits x Hxm) as [Hdx _].
        unfold int_of_digits. fold (json.value_from 0 (hash_group1 x)).
        pose proof (value_from_bound (hash_group1 x) Hdx). lia.
      + intros Hz. destruct (Hall z Hz) as (y & Hyl & Hym & Hyn & Hyt).
        destruct (H2 y ltac:(now apply Hnames) Hyt) as (x & Hx & Hg).
        exists x. split; [congruence|exact Hx]. }
  assert (Hlen : length hashes = Z.to_nat n).
  { rewrite <- (Forall2_length _ _ _ HF), <- (length_fmap (fun x => int_of_digits (hash_group1 x))),
      Hrange, length_seqZ. reflexivity. }
  split; [exact Hlen|].
  intros i Hi.
  assert (Hx : exists x, kept !! Z.to_nat i = Some x /\ int_of_digits (hash_group1 x) = i).
  { pose proof (lookup_seqZ_lt 0 n (Z.to_nat i) ltac:(lia)) as Hl.
    rewrite <- Hrange, list_lookup_fmap in Hl.
    destruct (kept !! Z.to_nat i) as [x|]; [|discriminate].
    exists x. split; [reflexivity|]. cbn in Hl. injection Hl as ->. lia. }
  destruct Hx as (x & Hlook & Hxn).
  destruct (Forall2_lookup_l _ _ _ _ _ HF Hlook) as (h & Hh & o & Ho & <-).
  pose proof (list_elem_of_lookup_2 _ _ _ Hlook) as Hxk.
  destruct (Hkept x Hxk) as (Hxl & Hxm & Hxt).
  exists x, o. repeat split; auto.
  intros y Hyl Hym Hyn Hyt. apply (H1 x Hxk y); [now apply Hnames| |exact Hyt].
  apply Hnum; auto. congruence.
Qed.

(** The package of [small_package_disk]: a bundle of four entries and a
    tail of three. *)
Lemma compute_package_hashes_all_entries_witness :
  let chunks : list (list bytes) := [[[x0a]; [x0b]; [x0c]; [x0d]]] in
  let tail : list bytes := [[x0e]; [x0f]; [x10]] in
  exists fs',
    compute_package (H := plain_digests) 8 examples.small_package_disk 0 "/log" 7 = Done fs'
    /\ info_files fs' !! path_join "/log" (build_info_file_name 0 7)
       = Some {| pkg_hash := MTH (H := plain_digests)
                               (map (leaf_node (H := plain_digests)) (concat (chunks ++ [tail])));
                 merkle_proof := [] |}.
Proof.
  intros chunks tail.
  apply (@compute_package_hashes_all_entries plain_digests 8%nat examples.small_package_disk
           0 "/log"%string 7
           ["0000000000-0000000003.json.gz"; "0000000004-0000000006.json.gz"]%string
           2%nat chunks tail).
  - vm_compute. reflexivity.
  - repeat constructor; vm_compute; reflexivity.
  - repeat constructor.
  - simpl. lia.
  - simpl. lia.
  - simpl. lia.
  - vm_compute. eexists. reflexivity.
Defined.

(** The root of two packages. *)
Lemma compute_proofs_returns_merkle_tree_hash_witness :
  let hashes : list bytes := [[x0a]; [x0b]] in
  get_pkg_hash_list (examples.packages_disk hashes) "/log" 5 = Done hashes
  /\ forall fs' root,
       compute_proofs (H := plain_digests) 8 (examples.packages_disk hashes) "/log" 5 0 1
       = Done (fs', root) ->
       root = b64encode (Pylib := plain_digests) (MTH (H := plain_digests) hashes).
Proof.
  intros hashes.
  assert (Hhl : get_pkg_hash_list (examples.packages_disk hashes) "/log" 5 = Done hashes)
    by (vm_compute; reflexivity).
  split; [exact Hhl|].
  exact (proj2 (@compute_proofs_returns_merkle_tree_hash plain_digests 8%nat
                  (examples.packages_disk hashes) "/log"%string 5 0 1 hashes Hhl
                  ltac:(discriminate) ltac:(simpl; lia))).
Defined.

(** A log directory that holds no info file. *)
Lemma compute_proofs_without_package_hash_witness :
  get_pkg_hash_list examples.no_bundle_disk "/log" 5 = Done []
  /\ (compute_proofs (H := plain_digests) 8 examples.no_bundle_disk "/log" 5 0 0
      = Raise IndexError
      \/ compute_proofs (H := plain_digests) 8 examples.no_bundle_disk "/log" 5 0 0
         = Raise OSError).
Proof.
  assert (Hhl : get_pkg_hash_list examples.no_bundle_disk "/log" 5 = Done [])
    by (vm_compute; reflexivity).
  split; [exact Hhl|].
  exact (@compute_proofs_without_package_hash plain_digests 8%nat examples.no_bundle_disk
           "/log"%string 5 0 0 Hhl ltac:(lia)).
Defined.

(** The second bundle of a log, for bundles of 1024 entries. *)
Lemma bundle_filename_round_trip_witness :
  build_bundle_filename 1024 2047 = "0000001024-0000002047.json.gz"%string
  /\ int_of_digits (bundle_group1 (build_bundle_filename 1024 2047)) = 1024
  /\ int_of_digits (bundle_group2 (build_bundle_filename 1024 2047)) = 2047.
Proof.
  split; [vm_compute; reflexivity|].
  exact (proj2 (bundle_filename_round_trip 1024 2047) ltac:(lia) ltac:(lia)).
Defined.

(** The info file of package 1 at a tree size of 1500. *)
Lemma info_file_name_round_trip_witness :
  build_info_file_name 1 1500 = "001-0000001500.info"%string
  /\ hash_group1 (build_info_file_name 1 1500) = build_package_name 1
  /\ int_of_digits (hash_group2 (build_info_file_name 1 1500)) = 1500.
Proof.
  split; [vm_compute; reflexivity|].
  exact (proj2 (info_file_name_round_trip 1 1500) ltac:(lia) ltac:(lia)).
Defined.

(** A log that answers 503, and a log whose tree head does not verify. *)
Lemma get_ct_stops_on_bad_sth_witness :
  let busy := {| sth_response := Done (503, "busy"%string);
                 verify_sth := fun _ _ _ => Done tt;
                 fetch_entries := fun _ _ _ _ _ _ _ => ([], Done tt) |} in
  let forged := {| sth_response := Done (200, examples.compact_sth);
                   verify_sth := fun _ _ _ => Raise InvalidSignature;
                   fetch_entries := fun _ _ _ _ _ _ _ => ([], Done tt) |} in
  get_ct busy "/log" "ct.example/log" "log_list.json" 0 1024 1024 1024
  = ([Mkdir "/log"; HttpGet "ct.example/log" "get-sth"], Raise (Exception "Could not fetch STH"))
  /\ get_ct forged "/log" "ct.example/log" "log_list.json" 0 1024 1024 1024
     = ([Mkdir "/log"; HttpGet "ct.example/log" "get-sth"; ReadFile "log_list.json"],
        Raise InvalidSignature).
Proof.
  intros busy forged. split.
  - exact (proj1 (get_ct_stops_on_bad_sth busy "/log" "ct.example/log" "log_list.json"
                    0 1024 1024 1024 eq_refl) 503 "busy"%string eq_refl ltac:(lia)).
  - refine (proj2 (get_ct_stops_on_bad_sth forged "/log" "ct.example/log" "log_list.json"
                     0 1024 1024 1024 eq_refl) examples.compact_sth _ InvalidSignature
                     eq_refl _ eq_refl).
    vm_compute. reflexivity.
Defined.

(** A second run against a log of 1500 entries that are all on the disk. *)
Lemma get_ct_nothing_to_do_witness :
  let w := examples.log_answering examples.compact_sth in
  exists sth,
    json.loads examples.compact_sth = Some sth
    /\ get_ct w "/log" "ct.example/log" "log_list.json" 1500 1024 1024 1024
       = ([Mkdir "/log"; HttpGet "ct.example/log" "get-sth"; ReadFile "log_list.json";
           WriteFile (path_join "/log" (build_sth_name 1500)) (json.dumps sth)],
          Raise (Exception
            "Nothing to do. You already have the whole tree that can be fetched from this log (view).")).
Proof.
  intros w.
  set (sth := json.JDict
     [("tree_size"%string, json.JInt 1500);
      ("timestamp"%string, json.JInt 1478000000000);
      ("sha256_root_hash"%string, json.JStr "47DEQpj8HBSa+/TImW+5JCeuQeRkm5NMpJWZG3hSuFU=");
      ("tree_head_signature"%string, json.JStr "BAMASDBGAiEA7NJ7R38cY++9+W6s8mSUvNOPci54HnCclt2VjHSdc6MCIQD3kAMrmdEwfPpeynVWcF7HBhjWcREeT55xTWmo7MvmLA==")]).
  assert (Hl : json.loads examples.compact_sth = Some sth) by (vm_compute; reflexivity).
  exists sth. split; [exact Hl|].
  exact (get_ct_nothing_to_do w "/log" "ct.example/log" "log_list.json"
           1500 1024 1024 1024 examples.compact_sth sth 1500
           eq_refl eq_refl Hl eq_refl eq_refl ltac:(lia) ltac:(lia)).
Defined.

(** One file of four bytes in pieces of three bytes. *)
Lemma get_pieces_hashes_concatenation_witness :
  exists pieces,
    get_pieces (H := plain_digests) 8 examples.four_byte_disk "/log" examples.four_byte_files 3
    = Done pieces
    /\ length pieces = 2%nat
    /\ pieces !! 1%nat = Some [x04].
Proof.
  destruct (@get_pieces_hashes_concatenation plain_digests 8%nat examples.four_byte_disk
              "/log"%string examples.four_byte_files [[x01; x02; x03; x04]] 3%nat
              ltac:(lia)
              ltac:(constructor; [split; [vm_compute; reflexivity|simpl; lia]|constructor]))
    as (pieces & Hrun & Hlen & Hget).
  exists pieces. split; [exact Hrun|]. split; [exact Hlen|].
  exact (Hget 1%nat ltac:(simpl; lia)).
Defined.

(** The file of four bytes, then a file that is not on the disk. *)
Lemma get_pieces_missing_file_witness :
  get_pieces (H := plain_digests) 8 examples.four_byte_disk "/log"
    (examples.four_byte_files ++ [{| f_length := 0; f_path := ["000"; "gone"]%string |}]) 2
  = Raise OSError.
Proof.
  exact (@get_pieces_missing_file plain_digests 8%nat examples.four_byte_disk "/log"%string
           examples.four_byte_files [] {| f_length := 0; f_path := ["000"; "gone"]%string |}
           [[x01; x02; x03; x04]] 2%nat ltac:(lia)
           ltac:(constructor; [split; [vm_compute; reflexivity|simpl; lia]|constructor])
           ltac:(vm_compute; reflexivity)).
Defined.

Import getct_entries urls.

(** The requests for the entries 0 to 2499, 1024 at a time. *)
Lemma get_entries_requests_partition_witness :
  get_entries_requests 0 1024 2500 = Done [(0, 1023); (1024, 2047); (2048, 2499)]
  /\ exists reqs,
       get_entries_requests 0 1024 2500 = Done reqs
       /\ concat (map (fun r : Z * Z => seqZ r.1 (r.2 - r.1 + 1)) reqs) = seqZ 0 (2500 - 0)
       /\ Forall (fun r : Z * Z => 0 <= r.1 <= r.2 /\ r.2 < 2500 /\ r.2 - r.1 + 1 <= 1024) reqs.
Proof.
  split; [vm_compute; reflexivity|].
  exact (get_entries_requests_partition 0 1024 2500 ltac:(lia)).
Defined.

(** Four entries from the index 5, in answers of three and of one, for
    bundles of two entries. *)
Lemma get_ct_bundles_keep_entries_witness :
  let answers := [[json.JInt 1; json.JInt 2; json.JInt 3]; [json.JInt 4]] in
  let calls := get_ct_bundles "/log" 5 2 2 answers in
  map bundle_start calls = [4; 6]
  /\ concat (map bundle_lst calls) = concat answers.
Proof.
  intros answers calls. split; [vm_compute; reflexivity|].
  exact (proj1 (get_ct_bundles_keep_entries "/log" 5 2 2 answers ltac:(lia) ltac:(lia))).
Defined.

(** The second bundle of the same run. *)
Lemma get_ct_bundles_complete_witness :
  let answers := [[json.JInt 1; json.JInt 2]; [json.JInt 3]; [json.JInt 4; json.JInt 5]] in
  let calls := get_ct_bundles "/log" 8 2 2 answers in
  exists c,
    calls !! 1%nat = Some c
    /\ bundle_start c = (8 / 2 + 1) * 2
    /\ Z.of_nat (length (bundle_lst c)) = 2
    /\ package_dir c = "/log/002"%string.
Proof.
  intros answers calls.
  assert (Hc : calls !! 1%nat
               = Some {| package_dir := "/log/002"; bundle_start := 10;
                         bundle_lst := [json.JInt 3; json.JInt 4] |})
    by (vm_compute; reflexivity).
  eexists. split; [exact Hc|].
  destruct (get_ct_bundles_complete "/log" 8 2 2 answers ltac:(lia) ltac:(lia)
              ltac:(repeat constructor; simpl; lia) 1%nat _ Hc) as (Hs & Hfull & _ & _).
  split; [exact Hs|]. split; [|reflexivity].
  apply Hfull. vm_compute. lia.
Defined.

(** A log of Google under two path segments. *)
Lemma parse_url_segments_witness :
  parse_url "ct.googleapis.com/logs/argon2018" = ("ct.googleapis.com"%string, ["logs"; "argon2018"]%string)
  /\ build_urlpath (Some (parse_url "ct.googleapis.com/logs/argon2018").2) "get-sth" None
     = "/logsargon2018/ct/v1/get-sth"%string.
Proof.
  destruct (parse_url_segments "ct.googleapis.com" ["logs"; "argon2018"]%string "get-sth"
              ltac:(repeat constructor) ltac:(discriminate)
              ltac:(repeat constructor; discriminate)) as (H1 & _ & H3).
  split; [exact H1|exact H3].
Defined.

(** A log at the root of its host. *)
Lemma parse_url_without_path_witness :
  parse_url "log.certly.io" = ("log.certly.io"%string, [])
  /\ parse_url "log.certly.io/" = ("log.certly.io/"%string, []).
Proof.
  destruct (parse_url_without_path "log.certly.io" "get-sth" ltac:(repeat constructor))
    as (H1 & H2 & _).
  split; [exact H1|exact H2].
Defined.

(** The proofs of four packages. *)
Lemma compute_proofs_writes_audit_paths_witness :
  let hashes : list bytes := [[x0a]; [x0b]; [x0c]; [x0d]] in
  let fs := examples.packages_disk hashes in
  get_pkg_hash_list fs "/log" 5 = Done hashes
  /\ initial_mask 3 + 1 = 4
  /\ compute_proofs (H := plain_digests) 8 fs "/log" 5 0 3
     = (fs' ← for_each (hashbundles.range 0 (3 + 1))
                (fun fs1 pkg_num =>
                   write_proof fs1 "/log" 5 pkg_num
                     (PATH (H := plain_digests) (Z.to_nat pkg_num) hashes))
                fs;
        Done (fs', b64encode (Pylib := plain_digests) (MTH (H := plain_digests) hashes))).
Proof.
  intros hashes fs.
  assert (Hhl : get_pkg_hash_list fs "/log" 5 = Done hashes) by (vm_compute; reflexivity).
  split; [exact Hhl|]. split; [reflexivity|].
  exact (@compute_proofs_writes_audit_paths plain_digests 8%nat fs "/log"%string 5 0 3 hashes
           Hhl ltac:(discriminate) ltac:(simpl; lia) ltac:(lia) ltac:(simpl; lia)
           ltac:(vm_compute; discriminate)).
Defined.

(** A dict given with its keys out of order, with a list and a [Raw]
    object in it. *)
Lemma bencode_is_bep3_encoding_witness :
  let obj := bencoding.BDict
               [("b"%string, bencoding.BInt 1);
                ("a"%string, bencoding.BList [bencoding.BStr "x"; bencoding.BRaw [x41]])] in
  bencoding.bencode 10 obj
  = Done (bencoding.utf8 "d1:al1:x" ++ [x41] ++ bencoding.utf8 "e1:bi1ee").
Proof.
  intros obj.
  rewrite (bencode_is_bep3_encoding 10 obj ltac:(vm_compute; lia) eq_refl).
  vm_compute. reflexivity.
Defined.

(** Two packages with one info file each, at the tree size 5. *)
Lemma get_pkg_hash_list_most_recent_witness :
  exists kept,
    Forall2 (fun x h => exists o,
               info_files (examples.packages_disk [[x0a]; [x0b]])
                 !! path_join "/log" x = Some o /\ pkg_hash o = h)
            kept [[x0a]; [x0b]]
    /\ StronglySorted String.le kept
    /\ NoDup (map hash_group1 kept)
    /\ (forall x, x ∈ kept ->
          x ∈ ["000-0000000005.info"; "001-0000000005.info"]%string
          /\ re_match hash_name_re x = true
          /\ int_of_digits (hash_group2 x) <= 5
          /\ forall y, y ∈ ["000-0000000005.info"; "001-0000000005.info"]%string ->
               re_match hash_name_re y = true ->
               hash_group1 y = hash_group1 x -> int_of_digits (hash_group2 y) <= 5 ->
               int_of_digits (hash_group2 y) <= int_of_digits (hash_group2 x))
    /\ (forall y, y ∈ ["000-0000000005.info"; "001-0000000005.info"]%string ->
          re_match hash_name_re y = true ->
          int_of_digits (hash_group2 y) <= 5 ->
          exists x, x ∈ kept /\ hash_group1 x = hash_group1 y).
Proof.
  apply (get_pkg_hash_list_most_recent (examples.packages_disk [[x0a]; [x0b]]) "/log" 5).
  - vm_compute. reflexivity.
  - vm_compute. reflexivity.
Defined.

(** A package directory with two bundles that start at the entry 0, both
    within a tree of 4 entries. *)
Lemma get_bundle_list_most_complete_witness :
  let listing := ["0000000000-0000000003.json.gz"; "0000000000-0000000001.json.gz"]%string in
  exists kept,
    get_bundle_list examples.stale_bundle_disk "/log/000" 4 = Done kept
    /\ StronglySorted String.le kept
    /\ NoDup (map bundle_group1 kept)
    /\ (forall x, x ∈ kept ->
          x ∈ listing /\ re_match bundle_name_re x = true
          /\ forall y, y ∈ listing -> re_match bundle_name_re y = true ->
               bundle_group1 y = bundle_group1 x ->
               int_of_digits (bundle_group2 y) <= int_of_digits (bundle_group2 x))
    /\ (forall y, y ∈ listing -> re_match bundle_name_re y = true ->
          exists x, x ∈ kept /\ bundle_group1 x = bundle_group1 y).
Proof.
  intros listing.
  apply (get_bundle_list_most_complete examples.stale_bundle_disk "/log/000" 4 listing).
  - vm_compute. reflexivity.
  - intros y Hy _. unfold listing in Hy.
    apply elem_of_cons in Hy as [->|Hy]; [vm_compute; reflexivity|].
    apply elem_of_cons in Hy as [->|Hy]; [vm_compute; reflexivity|].
    inversion Hy.
Defined.

(** A package of one bundle of three bytes, with an STH file of one byte and
    an info file of two bytes. *)
Lemma get_file_list_pieces_witness :
  let files :=
    [ {| f_length := 3; f_path := ["000"; "0000000000-0000000001.json.gz"]%string |};
      {| f_length := 1; f_path := ["sth-0000000002.json"%string] |};
      {| f_length := 2; f_path := ["000-0000000002.info"%string] |} ] in
  exists bundle_list contents,
    get_bundle_list torrent_files.torrent_disk (path_join "/log" (build_package_name 0)) 2
    = Done bundle_list
    /\ map f_path files
       = map (fun b => [build_package_name 0; b]) bundle_list
         ++ [[build_sth_name 2]; [build_info_file_name 0 2]]
    /\ Forall2 (fun f c =>
                  file_bytes torrent_files.torrent_disk
                    !! path_join "/log" (str_join (String os_sep EmptyString) (f_path f))
                  = Some c
                  /\ f_length f = Z.of_nat (length c)) files contents
    /\ total_size files = Z.of_nat (length (concat contents))
    /\ get_pieces (H := plain_digests) 10 torrent_files.torrent_disk "/log" files
         (Z.to_nat (piece_length files))
       = Done (digests (H := plain_digests) (Z.to_nat (piece_length files)) (concat contents)
                 (Z.to_nat (total_size files / piece_length files) + 1)).
Proof.
  intros files.
  apply (get_file_list_pieces (H := plain_digests) 10 torrent_files.torrent_disk "/log" 0 2
           files).
  - vm_compute. reflexivity.
  - intros path content Hl. unfold torrent_files.torrent_disk in Hl. cbn [file_bytes] in Hl.
    apply lookup_insert_Some in Hl as [[_ <-]|[_ Hl]]; [simpl; lia|].
    apply lookup_insert_Some in Hl as [[_ <-]|[_ Hl]]; [simpl; lia|].
    apply lookup_singleton_Some in Hl as [_ <-]. simpl; lia.
Defined.

(** The info files of two packages at the tree size 5. *)
Lemma get_pkg_hash_list_indexed_by_package_witness :
  let fs := examples.packages_disk [[x0a]; [x0b]] in
  let listing := ["000-0000000005.info"; "001-0000000005.info"]%string in
  let hash_list := [[x0a]; [x0b]] in
  length hash_list = Z.to_nat 2
  /\ forall i, 0 <= i < 2 ->
       exists x o,
         x ∈ listing /\ re_match hash_name_re x = true
         /\ int_of_digits (hash_group1 x) = i
         /\ int_of_digits (hash_group2 x) <= 5
         /\ (forall y, y ∈ listing -> re_match hash_name_re y = true ->
               int_of_digits (hash_group1 y) = i ->
               int_of_digits (hash_group2 y) <= 5 ->
               int_of_digits (hash_group2 y) <= int_of_digits (hash_group2 x))
         /\ info_files fs !! path_join "/log" x = Some o
         /\ hash_list !! Z.to_nat i = Some (pkg_hash o).
Proof.
  intros fs listing hash_list.
  apply (get_pkg_hash_list_indexed_by_package fs "/log" 5 2 listing hash_list).
  - vm_compute. reflexivity.
  - intros y Hy _ _. unfold listing in Hy.
    apply elem_of_cons in Hy as [->|Hy]; [vm_compute; reflexivity|].
    apply elem_of_cons in Hy as [->|Hy]; [vm_compute; reflexivity|].
    inversion Hy.
  - intros i Hi. assert (i = 0 \/ i = 1) as [->| ->] by lia.
    + exists "000-0000000005.info"%string.
      split; [constructor|]. split; [vm_compute; reflexivity|].
      split; [vm_compute; reflexivity|]. vm_compute. discriminate.
    + exists "001-0000000005.info"%string.
      split; [apply elem_of_cons; right; constructor|]. split; [vm_compute; reflexivity|].
      split; [vm_compute; reflexivity|]. vm_compute. discriminate.
  - vm_compute. reflexivity.
Defined.
